(** * wireshark-oui: the manuf prefix index and the scheduled file downloader

    A shallow embedding of [src/mac-parser.js] (class [MacParser]), of the
    [ScheduledFileDownloader] class and of the part of the integration's
    entry point that wires the two together, followed by the properties
    of the design document that can be stated over them.

    Conventions.
    - A JavaScript string is a [string]: a sequence of code units below
      256; a text with another code unit is outside the model.
      [toUpperCase] is exact on the code units below 128 and leaves the
      others alone, none of which upper-cases to a hex digit, to a
      separator or to white space.  Statements that depend on it are made
      of 7-bit strings, or of the upper-cased string itself.
    - A JavaScript Number is a [number]: [NaN], an infinity, or an
      integer that a double holds.  [parseInt] and the subtraction round
      to the nearest double, ties to even, and overflow to an infinity.
      Four times the length of a string is taken as exact, which it is
      for a string shorter than 2^51 code units.
    - A BigInt is a [Z] of at most [maxBigIntBits] bits, the limit of
      V8, the engine of Node: a shift whose result would be longer is a
      RangeError.
    - [Array.prototype.sort] is a stable insertion sort.  With a [NaN]
      among the keys the comparison function of the source is not a
      consistent one and ECMAScript leaves the order to the engine: the
      model then gives one permutation of the keys, and no property
      below depends on which; the order itself is stated for indexes
      whose keys are all integers.
    - Everything outside the process is explicit: what a run cannot
      change (the clock reading, the system calls that fail, the HTTP
      server, zlib, the cron library) is the [env] record, what it changes
      (files, trace of system calls, events emitted, listeners called) is
      the [world] record.  Methods are computations in a
      state-and-exception monad over the object and the world.  An [await]
      is a plain sequencing point; logger calls are not modelled. *)

From Stdlib Require Import ZArith String Ascii List Lia Bool DecimalString.
From stdpp Require Import base option list gmap strings sorting.
From Stdlib Require DecimalZ DecimalPos.

Local Open Scope Z_scope.

(** ** JavaScript string primitives used by the sources *)

Module JS.

Definition TAB : ascii := "009"%char.
Definition LF : ascii := "010"%char.
Definition CR : ascii := "013"%char.

(** [WhiteSpace] and [LineTerminator] code units: what [trim], [\s],
    [parseInt] and the string-to-BigInt conversion skip. *)
Definition isWhiteSpace (c : ascii) : bool :=
  let n := nat_of_ascii c in
  ((9 <=? n)%nat && (n <=? 13)%nat) || (n =? 32)%nat || (n =? 160)%nat.

Definition isDigit (c : ascii) : bool :=
  let n := nat_of_ascii c in (48 <=? n)%nat && (n <=? 57)%nat.

(** [[0-9A-F]] *)
Definition isUpperHex (c : ascii) : bool :=
  let n := nat_of_ascii c in
  isDigit c || ((65 <=? n)%nat && (n <=? 70)%nat).

(** [[0-9A-Fa-f]], the hex digits of a numeric literal. *)
Definition isHex (c : ascii) : bool :=
  let n := nat_of_ascii c in
  isUpperHex c || ((97 <=? n)%nat && (n <=? 102)%nat).

(** [[-:.]] *)
Definition isSeparator (c : ascii) : bool :=
  let n := nat_of_ascii c in (n =? 45)%nat || (n =? 58)%nat || (n =? 46)%nat.

Definition upperChar (c : ascii) : ascii :=
  let n := nat_of_ascii c in
  if (97 <=? n)%nat && (n <=? 122)%nat then ascii_of_nat (n - 32) else c.

Fixpoint toUpperCase (s : string) : string :=
  match s with
  | EmptyString => EmptyString
  | String c r => String (upperChar c) (toUpperCase r)
  end.

Fixpoint filterChars (keep : ascii -> bool) (s : string) : string :=
  match s with
  | EmptyString => EmptyString
  | String c r => if keep c then String c (filterChars keep r) else filterChars keep r
  end.

(** [s.replace(/[-:.]/g, '')] *)
Definition stripSeparators (s : string) : string :=
  filterChars (fun c => negb (isSeparator c)) s.

Fixpoint allChars (p : ascii -> bool) (s : string) : bool :=
  match s with
  | EmptyString => true
  | String c r => p c && allChars p r
  end.

Fixpoint anyChar (p : ascii -> bool) (s : string) : bool :=
  match s with
  | EmptyString => false
  | String c r => p c || anyChar p r
  end.

(** [s.includes(c)] for a one-character needle. *)
Definition includesChar (c : ascii) (s : string) : bool :=
  anyChar (Ascii.eqb c) s.

(** [s.startsWith(c)] for a one-character needle. *)
Definition startsWithChar (c : ascii) (s : string) : bool :=
  match s with
  | EmptyString => false
  | String d _ => Ascii.eqb c d
  end.

Definition isEmpty (s : string) : bool :=
  match s with EmptyString => true | _ => false end.

Fixpoint trimStart (s : string) : string :=
  match s with
  | EmptyString => EmptyString
  | String c r => if isWhiteSpace c then trimStart r else s
  end.

Fixpoint trimEnd (s : string) : string :=
  match s with
  | EmptyString => EmptyString
  | String c r =>
      let r' := trimEnd r in
      if isWhiteSpace c && isEmpty r' then EmptyString else String c r'
  end.

Definition trim (s : string) : string := trimEnd (trimStart s).

(** Put a character in front of the piece being read. *)
Definition consHead (c : ascii) (l : list string) : list string :=
  match l with
  | [] => [String c EmptyString]
  | h :: t => String c h :: t
  end.

(** [s.split(c)] for a one-character separator. *)
Fixpoint splitChar (sep : ascii) (s : string) : list string :=
  match s with
  | EmptyString => [EmptyString]
  | String c r =>
      if Ascii.eqb c sep then EmptyString :: splitChar sep r
      else consHead c (splitChar sep r)
  end.

(** [s.split(/\r?\n/)] *)
Fixpoint splitLines (s : string) : list string :=
  match s with
  | EmptyString => [EmptyString]
  | String c r =>
      if Ascii.eqb c LF then EmptyString :: splitLines r
      else
        match r with
        | String d r' =>
            if Ascii.eqb c CR && Ascii.eqb d LF
            then EmptyString :: splitLines r'
            else consHead c (splitLines r)
        | EmptyString => consHead c (splitLines r)
        end
  end.

(** [s.split(/\s+/)]: [inRun] says that the previous character was
    white space, so that a run of white space separates only once. *)
Fixpoint splitSpacesFrom (inRun : bool) (s : string) : list string :=
  match s with
  | EmptyString => [EmptyString]
  | String c r =>
      if isWhiteSpace c
      then (if inRun then splitSpacesFrom true r
            else EmptyString :: splitSpacesFrom true r)
      else consHead c (splitSpacesFrom false r)
  end.

Definition splitSpaces (s : string) : list string := splitSpacesFrom false s.

(** [parts.join(sep)] *)
Fixpoint join (sep : string) (parts : list string) : string :=
  match parts with
  | [] => EmptyString
  | [p] => p
  | p :: rest => String.append p (String.append sep (join sep rest))
  end.

(** Numbers as far as the sources use them, for prefix lengths and
    shift counts: [NaN], an integer-valued double, or an infinity. *)
Inductive number : Type :=
| NaN
| Num (z : Z)
| Infinity (negative : bool).

#[export] Instance number_eq_dec : EqDecision number.
Proof. solve_decision. Defined.

(** The Number nearest to an integer: the integer itself while it has
    53 significant bits at most; beyond, the nearest multiple of the
    spacing of the doubles there, a tie going to the even mantissa; an
    infinity from 2^1024 on. *)
Definition roundDouble (z : Z) : number :=
  let a := Z.abs z in
  let e := Z.log2 a - 52 in
  if e <=? 0 then Num z
  else
    let q := Z.shiftr a e in
    let r := a - Z.shiftl q e in
    let half := Z.shiftl 1 (e - 1) in
    let q' := if (half <? r) || ((r =? half) && Z.odd q) then q + 1 else q in
    let m := Z.shiftl q' e in
    if 2 ^ 1024 <=? m then Infinity (z <? 0) else Num (Z.sgn z * m).

(** [a - b] *)
Definition sub (a b : number) : number :=
  match a, b with
  | Num x, Num y => roundDouble (x - y)
  | Num _, Infinity s => Infinity (negb s)
  | Infinity s, Num _ => Infinity s
  | Infinity s, Infinity t => if Bool.eqb s t then NaN else Infinity s
  | _, _ => NaN
  end.

(** [a > b]; false as soon as one side is [NaN]. *)
Definition gt (a b : number) : bool :=
  match a, b with
  | Num x, Num y => y <? x
  | Num _, Infinity s => s
  | Infinity s, Num _ => negb s
  | Infinity s, Infinity t => negb s && t
  | _, _ => false
  end.

(** [a < b] *)
Definition lt (a b : number) : bool := gt b a.

Definition digitVal (c : ascii) : Z := Z.of_nat (nat_of_ascii c) - 48.

Fixpoint digitsFrom (acc : Z) (s : string) : Z :=
  match s with
  | EmptyString => acc
  | String c r => if isDigit c then digitsFrom (10 * acc + digitVal c) r else acc
  end.

(** [parseInt(s, 10)]: leading white space, an optional sign, then the
    longest run of decimal digits; [NaN] when that run is empty,
    otherwise the Number nearest to the integer the digits spell. *)
Definition parseDigits (s : string) : option Z :=
  match s with
  | String c _ => if isDigit c then Some (digitsFrom 0 s) else None
  | EmptyString => None
  end.

Definition parseInt (s : string) : number :=
  match trimStart s with
  | String "-"%char r =>
      match parseDigits r with Some v => roundDouble (- v) | None => NaN end
  | String "+"%char r =>
      match parseDigits r with Some v => roundDouble v | None => NaN end
  | t => match parseDigits t with Some v => roundDouble v | None => NaN end
  end.

Definition hexVal (c : ascii) : Z :=
  let n := Z.of_nat (nat_of_ascii c) in
  if isDigit c then n - 48
  else if (n <=? 70) then n - 55 else n - 87.

Fixpoint hexFrom (acc : Z) (s : string) : Z :=
  match s with
  | EmptyString => acc
  | String c r => hexFrom (16 * acc + hexVal c) r
  end.

(** [BigInt('0x' + s)]: the conversion trims white space (only trailing
    white space can be trimmed here, the text starts with [0x]) and
    wants one hex digit at least and nothing but hex digits; [None] is
    the SyntaxError. *)
Definition bigIntOfHex (s : string) : option Z :=
  let t := trimEnd s in
  if negb (isEmpty t) && allChars isHex t then Some (hexFrom 0 t) else None.

(** [BigInt(n)] for a Number: [None], a RangeError, on [NaN] and on
    the infinities. *)
Definition bigIntOfNumber (n : number) : option Z :=
  match n with
  | Num z => Some z
  | _ => None
  end.

(** The longest BigInt of V8, in bits. *)
Definition maxBigIntBits : Z := 2 ^ 30.

(** The number of bits of the absolute value. *)
Definition bitLength (x : Z) : Z :=
  if x =? 0 then 0 else Z.log2 (Z.abs x) + 1.

(** [x << n] on BigInts; a negative count shifts to the right.  Zero
    stays zero whatever the count.  [None] is the RangeError of a result
    longer than [maxBigIntBits]; a right shift by the number of bits of
    [x] or more leaves the sign only. *)
Definition shl (x n : Z) : option Z :=
  if x =? 0 then Some 0
  else if 0 <? n then
    (if maxBigIntBits <? bitLength x + n then None else Some (Z.shiftl x n))
  else if bitLength x <=? - n then Some (if x <? 0 then -1 else 0)
  else Some (Z.shiftr x (- n)).

(** [x >> n] on BigInts; a negative count shifts to the left. *)
Definition shr (x n : Z) : option Z := shl x (- n).

End JS.

Import JS.

(** ** Errors and results *)

Inductive syscall : Type :=
| Access (path : string)
| ReadFile (path : string)
| Stat (path : string)
| Mkdir (path : string)
| WriteFile (path : string) (data : string)
| Rename (src dst : string)
| HttpGet (url : string).

Inductive error : Type :=
| SyntaxError (text : string)          (* BigInt of a text that is no hex literal *)
| RangeError                           (* BigInt of a Number that is no integer; a BigInt too long *)
| SystemError (code : string) (call : syscall)  (* a failed system call and its [err.code] *)
| HttpError (status : Z) (url : string)         (* a status outside 200-299 *)
| TransportError (text : string)       (* the request itself failed *)
| ZlibError                            (* [gunzipSync] refused the bytes *)
| CronError                            (* the cron library refused the expression *)
| UnhandledError.                      (* ['error'] emitted with no listener *)

(** A value or a thrown error. *)
Definition result (A : Type) : Type := error + A.

Definition ok {A} (a : A) : result A := inr a.
Definition throw {A} (e : error) : result A := inl e.

Definition rbind {A B} (r : result A) (k : A -> result B) : result B :=
  match r with
  | inl e => inl e
  | inr a => k a
  end.

(** ** The JavaScript [Map], with its insertion order *)

Module JSMap.
Section Ops.
Context {K V : Type} `{EqDecision K}.

Definition t : Type := list (K * V).

Fixpoint get (k : K) (m : t) : option V :=
  match m with
  | [] => None
  | (k', v) :: r => if decide (k = k') then Some v else get k r
  end.

Definition has (k : K) (m : t) : bool :=
  match get k m with Some _ => true | None => false end.

(** [m.set(k, v)]: a present key keeps its place, a new one goes last. *)
Fixpoint set (k : K) (v : V) (m : t) : t :=
  match m with
  | [] => [(k, v)]
  | (k', v') :: r =>
      if decide (k = k') then (k, v) :: r else (k', v') :: set k v r
  end.

Definition keys (m : t) : list K := map fst m.
End Ops.
Arguments t : clear implicits.
End JSMap.

(** ** [MacParser]: building the index *)

Record entry : Type := Entry {
  prefix : string;
  vendor : string;
  comment : string
}.

(** [_entries]: prefixBits → Map(prefixInt → entry). *)
Definition index : Type := JSMap.t number (gmap Z entry).

(** [Array.prototype.sort] with a comparison function, as a stable
    insertion sort; a [NaN] from the comparison counts as 0.  With a key
    list free of [NaN] the comparison [(a, b) => b - a] is a strict total
    order on distinct keys, and every sort returns the same list.  With a
    [NaN] key and two other keys it is not a consistent comparison, and
    the list an engine returns is some permutation of the keys, not
    necessarily this one. *)
Definition compareDesc (a b : number) : number := sub b a.

Fixpoint insertBy (cmp : number -> number -> number) (x : number) (l : list number)
  : list number :=
  match l with
  | [] => [x]
  | y :: r => if gt (cmp y x) (Num 0) then x :: y :: r else y :: insertBy cmp x r
  end.

Definition sortBy (cmp : number -> number -> number) (l : list number) : list number :=
  fold_left (fun acc x => insertBy cmp x acc) l [].

(** Insertion into a descending list of integers, the shape [insertBy]
    takes when every key is an integer. *)
Fixpoint insertDesc (x : Z) (l : list Z) : list Z :=
  match l with
  | [] => [x]
  | y :: r => if y <? x then x :: y :: r else y :: insertDesc x r
  end.

(** A BigInt operation that may raise a RangeError. *)
Definition orRangeError {A} (o : option A) : result A :=
  match o with
  | Some a => ok a
  | None => throw RangeError
  end.

(** The shifted key of lines 97-107. *)
Definition prefixIntOf (rawInt : Z) (bitsInHex prefixBits : number) : result Z :=
  if gt bitsInHex prefixBits then
    rbind (orRangeError (bigIntOfNumber (sub bitsInHex prefixBits)))
          (fun n => orRangeError (shr rawInt n))
  else if lt bitsInHex prefixBits then
    rbind (orRangeError (bigIntOfNumber (sub prefixBits bitsInHex)))
          (fun n => orRangeError (shl rawInt n))
  else ok rawInt.

(** What one line of the file does to the loop of [_parseManuf]. *)
Inductive lineEffect : Type :=
| Skip
| Put (prefixBits : number) (prefixInt : Z) (e : entry)
| Raise (err : error).

Definition lineParts (line : string) : list string :=
  if includesChar TAB line then splitChar TAB line else splitSpaces line.

Definition nthPart (n : nat) (parts : list string) : string :=
  nth n parts EmptyString.

Definition compactHexOf (prefixToken : string) : string :=
  toUpperCase (stripSeparators (nthPart 0 (splitChar "/" prefixToken))).

(** [cidrPart ? parseInt(cidrPart, 10) : compactHex.length * 4] *)
Definition prefixBitsOf (prefixToken : string) : number :=
  match splitChar "/" prefixToken with
  | _ :: cidrPart :: _ =>
      if isEmpty cidrPart
      then Num (Z.of_nat (String.length (compactHexOf prefixToken)) * 4)
      else parseInt cidrPart
  | _ => Num (Z.of_nat (String.length (compactHexOf prefixToken)) * 4)
  end.

(** Whether the token carries a usable [/bitCount] suffix. *)
Definition hasCidr (prefixToken : string) : bool :=
  match splitChar "/" prefixToken with
  | _ :: cidrPart :: _ => negb (isEmpty cidrPart)
  | _ => false
  end.

Definition rawIntOf (compactHex : string) : result Z :=
  let text := if isEmpty compactHex then "0"%string else compactHex in
  match bigIntOfHex text with
  | Some v => ok v
  | None => throw (SyntaxError (String.append "0x" text))
  end.

Definition parseLine (rawLine : string) : lineEffect :=
  let line := trim rawLine in
  if isEmpty line || startsWithChar "#" line then Skip
  else
    let parts := lineParts line in
    if (length parts <? 2)%nat then Skip
    else
      let prefixToken := trim (nthPart 0 parts) in
      let vendor := trim (nthPart 1 parts) in
      let sep :=
        if existsb (String.eqb (String TAB EmptyString)) parts
        then String TAB EmptyString else " "%string in
      let comment := trim (join sep (drop 2 parts)) in
      let compactHex := compactHexOf prefixToken in
      let prefixBits := prefixBitsOf prefixToken in
      match rawIntOf compactHex with
      | inl e => Raise e
      | inr rawInt =>
          let bitsInHex := Num (Z.of_nat (String.length compactHex) * 4) in
          match prefixIntOf rawInt bitsInHex prefixBits with
          | inl e => Raise e
          | inr prefixInt => Put prefixBits prefixInt (Entry prefixToken vendor comment)
          end
      end.

(** Lines 111-112: create the bucket of this length on first use, then
    set the key in it. *)
Definition putEntry (prefixBits : number) (prefixInt : Z) (e : entry) (byBits : index)
  : index :=
  let byBits1 :=
    if JSMap.has prefixBits byBits then byBits else JSMap.set prefixBits ∅ byBits in
  match JSMap.get prefixBits byBits1 with
  | Some bucket => JSMap.set prefixBits (<[prefixInt := e]> bucket) byBits1
  | None => byBits1
  end.

(** The [for] loop over the lines, from the [byBits] built so far. *)
Fixpoint parseLines (lines : list string) (byBits : index) : result index :=
  match lines with
  | [] => ok byBits
  | rawLine :: rest =>
      match parseLine rawLine with
      | Skip => parseLines rest byBits
      | Put b k e => parseLines rest (putEntry b k e byBits)
      | Raise err => throw err
      end
  end.

Definition parseText (text : string) : result index :=
  parseLines (splitLines text) [].

Definition sortedLensOf (byBits : index) : list number :=
  sortBy compareDesc (JSMap.keys byBits).

(** ** [MacParser]: looking an address up *)

(** [/^[0-9A-F]{6,12}$/.test(compact)] *)
Definition validCompact (compact : string) : bool :=
  (6 <=? String.length compact)%nat && (String.length compact <=? 12)%nat
  && allChars isUpperHex compact.

Definition compactOf (mac : string) : string := toUpperCase (stripSeparators mac).

(** [this._entries.get(bits)?.get(key)] *)
Definition hitAt (entries : index) (bits : number) (key : Z) : option entry :=
  match JSMap.get bits entries with
  | Some bucket => bucket !! key
  | None => None
  end.

(** The key of line 51: [macInt >> BigInt(48 - bits)]. *)
Definition keyOf (macInt : Z) (bits : number) : result Z :=
  rbind (orRangeError (bigIntOfNumber (sub (Num 48) bits)))
        (fun n => orRangeError (shr macInt n)).

(** What that key is at an integer length from 0 to 48, where the
    shift goes to the right: the address without its low [48 - bits]
    bits. *)
Definition keyAt (macInt bits : Z) : Z := Z.shiftr macInt (48 - bits).

(** The [for] loop of [lookup] over [_sortedLens]. *)
Fixpoint scanLens (entries : index) (macInt : Z) (lens : list number)
  : result (option entry) :=
  match lens with
  | [] => ok None
  | bits :: rest =>
      match keyOf macInt bits with
      | inl err => throw err
      | inr key =>
          match hitAt entries bits key with
          | Some hit => ok (Some hit)
          | None => scanLens entries macInt rest
          end
      end
  end.

(** Lines 45-55 of [lookup], on the index in force. *)
Definition lookupIn (entries : index) (sortedLens : list number) (mac : string)
  : result (option entry) :=
  let compact := compactOf mac in
  if negb (validCompact compact) then ok None
  else
    match bigIntOfHex compact with
    | None => throw (SyntaxError (String.append "0x" compact))
    | Some macInt => scanLens entries macInt sortedLens
    end.

(** ** The world outside the process *)

Record inode : Type := Inode {
  data : string;
  mtime : Z
}.

(** A system call the environment refuses: the [err.code] it fails
    with and, for a write, what the failed write has left at the path
    ([None]: the file was never opened). *)
Record failure : Type := Failure {
  code : string;
  residue : option string
}.

(** What a run cannot change: the clock reading, the calls that fail, the
    remote server, zlib, the cron library's
    [CronExpressionParser.parse(cron, { currentDate }).prev().toDate()],
    and whether the scheduling library's [scheduleJob(cron, callback)]
    gives a job for a rule (it gives [null] for a rule it cannot
    schedule). *)
Record env : Type := Env {
  clock : Z;
  fault : syscall -> option failure;
  remote : string -> result (Z * string);
  gunzipSync : string -> option string;
  cronPrev : string -> Z -> option Z;
  scheduleJob : string -> bool
}.

Inductive listener : Type :=
| manufFileUpdated
| manufFileUpdateError.

Inductive eventName : Type :=
| updated
| errorEvent.

#[export] Instance eventName_eq_dec : EqDecision eventName.
Proof. solve_decision. Defined.

Inductive event : Type :=
| Updated (filePath url : string) (time : Z)
| Failed (err : error) (stage : string) (url : string).

Definition nameOf (ev : event) : eventName :=
  match ev with
  | Updated _ _ _ => updated
  | Failed _ _ _ => errorEvent
  end.

(** What a run changes or leaves behind: the files, the system calls made
    (latest last), the events emitted, the listeners called with them, and
    the number of armed timers. *)
Record world : Type := World {
  files : gmap string inode;
  trace : list syscall;
  emitted : list event;
  called : list (listener * event);
  timers : nat
}.

Definition setFiles (f : gmap string inode) (w : world) : world :=
  World f (trace w) (emitted w) (called w) (timers w).

Definition logCall (c : syscall) (w : world) : world :=
  World (files w) (trace w ++ [c]) (emitted w) (called w) (timers w).

Definition logEvent (ev : event) (ls : list listener) (w : world) : world :=
  World (files w) (trace w) (emitted w ++ [ev])
        (called w ++ map (fun l => (l, ev)) ls) (timers w).

Definition setTimers (n : nat) (w : world) : world :=
  World (files w) (trace w) (emitted w) (called w) n.

(** The calls that only read the file at [path]. *)
Definition readsOnly (path : string) (c : syscall) : Prop :=
  c = Access path \/ c = ReadFile path.

(** ** Methods: state of the object, state of the world, exceptions *)

Definition M (S A : Type) : Type := env -> S -> world -> S * world * result A.

Definition ret {S A} (a : A) : M S A := fun _ s w => (s, w, ok a).

Definition bind {S A B} (m : M S A) (k : A -> M S B) : M S B :=
  fun E s w =>
    match m E s w with
    | (s', w', inr a) => k a E s' w'
    | (s', w', inl e) => (s', w', inl e)
    end.

Definition throwM {S A} (e : error) : M S A := fun _ s w => (s, w, throw e).

(** [try { m } catch (err) { h err }] *)
Definition tryCatch {S A} (m : M S A) (h : error -> M S A) : M S A :=
  fun E s w =>
    match m E s w with
    | (s', w', inl e) => h e E s' w'
    | returned => returned
    end.

Definition this {S} : M S S := fun _ s w => (s, w, ok s).
Definition assign {S} (f : S -> S) : M S unit := fun _ s w => (f s, w, ok tt).
Definition ask {S} : M S env := fun E s w => (s, w, ok E).
Definition liftR {S A} (r : result A) : M S A := fun _ s w => (s, w, r).
Definition when {S} (b : bool) (m : M S unit) : M S unit := if b then m else ret tt.

Declare Scope method_scope.
Delimit Scope method_scope with method.
Notation "x <- m ;; k" := (bind m (fun x => k))
  (at level 100, m at next level, k at level 200, right associativity) : method_scope.
Notation "m ;; k" := (bind m (fun _ => k))
  (at level 100, k at level 200, right associativity) : method_scope.
Local Open Scope method_scope.

(** *** System calls *)

(** Every call is logged first; a call the environment refuses fails
    with the code the environment gives. *)
Definition fsCall {S A} (c : syscall)
    (run : world -> world * result A) : M S A :=
  fun E s w =>
    let w1 := logCall c w in
    match fault E c with
    | Some f => (s, w1, throw (SystemError (code f) c))
    | None => let '(w2, r) := run w1 in (s, w2, r)
    end.

Definition ENOENT : string := "ENOENT".

(** [fs.promises.access(path, R_OK)] *)
Definition access {S} (path : string) : M S unit :=
  fsCall (Access path) (fun w =>
    match files w !! path with
    | Some _ => (w, ok tt)
    | None => (w, throw (SystemError ENOENT (Access path)))
    end).

(** [fs.readFileSync(path)] *)
Definition readFileSync {S} (path : string) : M S string :=
  fsCall (ReadFile path) (fun w =>
    match files w !! path with
    | Some f => (w, ok (data f))
    | None => (w, throw (SystemError ENOENT (ReadFile path)))
    end).

(** [stat(path)], as far as [mtime] goes. *)
Definition stat {S} (path : string) : M S Z :=
  fsCall (Stat path) (fun w =>
    match files w !! path with
    | Some f => (w, ok (mtime f))
    | None => (w, throw (SystemError ENOENT (Stat path)))
    end).

(** [mkdir(path, { recursive: true })]: directories are not part of
    [files]; the call fails when a file has that name. *)
Definition mkdir {S} (path : string) : M S unit :=
  fsCall (Mkdir path) (fun w =>
    match files w !! path with
    | Some _ => (w, throw (SystemError "EEXIST" (Mkdir path)))
    | None => (w, ok tt)
    end).

(** [writeFile(path, body)]: a refused write may leave a torn file. *)
Definition writeFile {S} (path body : string) : M S unit :=
  fun E s w =>
    let c := WriteFile path body in
    let w1 := logCall c w in
    match fault E c with
    | Some f =>
        let w2 :=
          match residue f with
          | Some part => setFiles (<[path := Inode part (clock E)]> (files w1)) w1
          | None => w1
          end in
        (s, w2, throw (SystemError (code f) c))
    | None =>
        (s, setFiles (<[path := Inode body (clock E)]> (files w1)) w1, ok tt)
    end.

(** [rename(src, dst)]: all or nothing. *)
Definition rename {S} (src dst : string) : M S unit :=
  fsCall (Rename src dst) (fun w =>
    match files w !! src with
    | Some f => (setFiles (<[dst := f]> (delete src (files w))) w, ok tt)
    | None => (w, throw (SystemError ENOENT (Rename src dst)))
    end).

(** [requestAsync({ url, method: 'GET', ... })] *)
Definition httpGet {S} (url : string) : M S (Z * string) :=
  fun E s w => (s, logCall (HttpGet url) w, remote E url).

(** [zlib.gunzipSync(gz).toString('utf8')] *)
Definition gunzip {S} (gz : string) : M S string :=
  fun E s w =>
    match gunzipSync E gz with
    | Some text => (s, w, ok text)
    | None => (s, w, throw ZlibError)
    end.

(** ** [MacParser]: the object and its methods *)

Record MacParser : Type := mkMacParser {
  manufPath : string;
  _ready : bool;
  _entries : index;
  _sortedLens : list number
}.

(** [new MacParser({ manufPath })], with [eager] off. *)
Definition newMacParser (path : string) : MacParser := mkMacParser path false [] [].

Definition setReady (b : bool) (p : MacParser) : MacParser :=
  mkMacParser (manufPath p) b (_entries p) (_sortedLens p).
Definition setEntries (i : index) (p : MacParser) : MacParser :=
  mkMacParser (manufPath p) (_ready p) i (_sortedLens p).
Definition setSortedLens (l : list number) (p : MacParser) : MacParser :=
  mkMacParser (manufPath p) (_ready p) (_entries p) l.

Module Parser.

Definition _ensureManufFile : M MacParser unit :=
  p <- this ;; access (manufPath p).

Definition _parseManuf : M MacParser unit :=
  p <- this ;;
  gz <- readFileSync (manufPath p) ;;
  text <- gunzip gz ;;
  byBits <- liftR (parseText text) ;;
  assign (setEntries byBits) ;;
  assign (setSortedLens (sortedLensOf byBits)).

Definition init : M MacParser unit :=
  p <- this ;;
  if _ready p then ret tt
  else _ensureManufFile ;; _parseManuf ;; assign (setReady true).

Definition reinitialize : M MacParser unit :=
  _ensureManufFile ;; _parseManuf ;; assign (setReady true).

Definition lookup (mac : string) : M MacParser (option entry) :=
  init ;;
  p <- this ;;
  liftR (lookupIn (_entries p) (_sortedLens p) mac).

End Parser.

(** ** [ScheduledFileDownloader] *)

Definition isSlash (c : ascii) : bool := Ascii.eqb c "/".

Fixpoint dropWhile {A} (p : A -> bool) (l : list A) : list A :=
  match l with
  | [] => []
  | x :: r => if p x then dropWhile p r else l
  end.

(** [path.dirname], the POSIX one: scanning from the end, skip the
    trailing slashes, then cut at the first slash met (index 0 is
    not scanned). *)
Definition dirname (path : string) : string :=
  match path with
  | EmptyString => "."
  | String c0 rest =>
      let hasRoot := isSlash c0 in
      let scanned := rev (list_ascii_of_string rest) in
      let fromName := dropWhile isSlash scanned in
      match dropWhile (fun c => negb (isSlash c)) fromName with
      | [] => if hasRoot then "/" else "."
      | _ :: before =>
          if hasRoot && (length before =? 0)%nat then "//"
          else String c0 (string_of_list_ascii (rev before))
      end
  end%string.

(** A path that names a file: not empty, no slash at its end. *)
Definition namesFile (path : string) : bool :=
  match rev (list_ascii_of_string path) with
  | c :: _ => negb (isSlash c)
  | [] => false
  end.

(** [`${n}`] for an integer. *)
Definition decimal (n : Z) : string := NilZero.string_of_int (Z.to_int n).

(** [`${filePath}.tmp-${Date.now()}`] *)
Definition tmpPath (filePath : string) (now : Z) : string :=
  String.append filePath (String.append ".tmp-" (decimal now)).

Record ScheduledFileDownloader : Type := mkDownloader {
  url : string;
  filePath : string;
  cron : string;
  throwErrorsOnInit : bool;
  job : option string;
  listeners : list (eventName * listener)
}.

(** [new ScheduledFileDownloader({ url, filePath, cron, throwErrorsOnInit })] *)
Definition newDownloader (u f c : string) (t : bool) : ScheduledFileDownloader :=
  mkDownloader u f c t None [].

Definition setJob (j : option string) (d : ScheduledFileDownloader)
  : ScheduledFileDownloader :=
  mkDownloader (url d) (filePath d) (cron d) (throwErrorsOnInit d) j (listeners d).
Definition setListeners (l : list (eventName * listener)) (d : ScheduledFileDownloader)
  : ScheduledFileDownloader :=
  mkDownloader (url d) (filePath d) (cron d) (throwErrorsOnInit d) (job d) l.

Module Scheduler.

Definition listenersOf (n : eventName) (d : ScheduledFileDownloader) : list listener :=
  map snd (List.filter (fun nl => bool_decide (fst nl = n)) (listeners d)).

(** [this.on(name, l)] *)
Definition on (n : eventName) (l : listener) : M ScheduledFileDownloader unit :=
  assign (fun d => setListeners (listeners d ++ [(n, l)]) d).

(** [this.removeAllListeners(name)] *)
Definition removeAllListeners (n : eventName) : M ScheduledFileDownloader unit :=
  assign (fun d =>
    setListeners (List.filter (fun nl => negb (bool_decide (fst nl = n))) (listeners d)) d).

(** [this.emit(name, payload)]: the listeners run in the order they
    were added; an ['error'] nobody listens to is thrown instead. *)
Definition emit (ev : event) : M ScheduledFileDownloader unit :=
  fun E d w =>
    match nameOf ev, listenersOf (nameOf ev) d with
    | errorEvent, [] => (d, w, throw UnhandledError)
    | _, ls => (d, logEvent ev ls w, ok tt)
    end.

Definition isNotFound (err : error) : bool :=
  match err with
  | SystemError c _ => String.eqb c ENOENT
  | _ => false
  end.

Definition _isExpired : M ScheduledFileDownloader bool :=
  d <- this ;;
  found <- tryCatch (t <- stat (filePath d) ;; ret (Some t))
                    (fun err => if isNotFound err then ret None else throwM err) ;;
  match found with
  | None => ret true
  | Some mtime =>
      E <- ask ;;
      match cronPrev E (cron d) (clock E) with
      | Some lastDue => ret (mtime <? lastDue)
      | None => throwM CronError
      end
  end.

(** The body of the first [try]: the network download. *)
Definition fetchBody (d : ScheduledFileDownloader) : M ScheduledFileDownloader string :=
  resp <- httpGet (url d) ;;
  let '(statusCode, buf) := resp in
  if (statusCode <? 200) || (300 <=? statusCode)
  then throwM (HttpError statusCode (url d))
  else ret buf.

(** The body of the second [try]: the write to disk. *)
Definition writeToDisk (d : ScheduledFileDownloader) (body : string)
  : M ScheduledFileDownloader unit :=
  mkdir (dirname (filePath d)) ;;
  E <- ask ;;
  let tmp := tmpPath (filePath d) (clock E) in
  writeFile tmp body ;;
  rename tmp (filePath d).

(** The two [catch] blocks: emit, then throw again. *)
Definition report {A} (emitErrors : bool) (stage : string) (d : ScheduledFileDownloader)
    (err : error) : M ScheduledFileDownloader A :=
  when emitErrors (emit (Failed err stage (url d))) ;;
  throwM err.

Definition _downloadFile (emitErrors emitUpdate : bool) : M ScheduledFileDownloader unit :=
  d <- this ;;
  body <- tryCatch (fetchBody d) (report emitErrors "download" d) ;;
  tryCatch (writeToDisk d body) (report emitErrors "write" d) ;;
  E <- ask ;;
  emit (Updated (filePath d) (url d) (clock E)).

(** [if (this.job) this.job.cancel(); this.job = schedule.scheduleJob(...)]:
    the job in force gives its timer back; the new one is the library's
    answer, a job with a timer of its own or [null]. *)
Definition _scheduleRecurringJob : M ScheduledFileDownloader unit :=
  fun E d w =>
    let live := match job d with Some _ => Nat.pred (timers w) | None => timers w end in
    if scheduleJob E (cron d)
    then (setJob (Some (cron d)) d, setTimers (S live) w, ok tt)
    else (setJob None d, setTimers live w, ok tt).

Definition init : M ScheduledFileDownloader unit :=
  d <- this ;;
  expired <- tryCatch _isExpired
    (fun err =>
       if throwErrorsOnInit d then throwM err
       else emit (Failed err "init" (url d)) ;; ret true) ;;
  when expired
    (tryCatch (_downloadFile (negb (throwErrorsOnInit d)) false)
       (fun err => if throwErrorsOnInit d then throwM err else ret tt)) ;;
  _scheduleRecurringJob.

(** The callback of the recurring job. *)
Definition tick : M ScheduledFileDownloader unit :=
  tryCatch (_downloadFile true true) (fun _ => ret tt).

End Scheduler.

(** ** The entry point: wiring the downloader to the parser *)

Module Integration.

Definition MANUF_GZ_URL : string :=
  "https://www.wireshark.org/download/automated/data/manuf.gz".
Definition FILE_UPDATE_CRON : string := "0 0 * * 0".

Record state : Type := mkState {
  parser : option MacParser;
  fileDownloader : option ScheduledFileDownloader
}.

(** Run a method of the downloader held in [fileDownloader]. *)
Definition onDownloader {A} (d : ScheduledFileDownloader)
    (m : M ScheduledFileDownloader A) : M state A :=
  fun E s w =>
    let '(d', w', r) := m E d w in
    (mkState (parser s) (Some d'), w', r).

(** Run a method of the parser held in [parser]. *)
Definition onParser {A} (p : MacParser) (m : M MacParser A) : M state A :=
  fun E s w =>
    let '(p', w', r) := m E p w in
    (mkState (Some p') (fileDownloader s), w', r).

(** [maybeInitializeParserAndDownloader(options)], with the data file
    at [manufFilePath]. *)
Definition maybeInitializeParserAndDownloader (manufFilePath : string)
    (autoUpdate : bool) : M state unit :=
  s <- this ;;
  match fileDownloader s, parser s with
  | Some _, Some _ => ret tt
  | _, _ =>
      when autoUpdate
        (let d0 := newDownloader MANUF_GZ_URL manufFilePath FILE_UPDATE_CRON true in
         onDownloader d0
           (Scheduler.on updated manufFileUpdated ;;
            Scheduler.on errorEvent manufFileUpdateError ;;
            tryCatch Scheduler.init
              (fun err =>
                 Scheduler.removeAllListeners updated ;;
                 Scheduler.removeAllListeners errorEvent ;;
                 throwM err))) ;;
      onParser (newMacParser manufFilePath) Parser.init
  end.

End Integration.

(** ** The rest of the entry point: serving lookups, rebuilding on update *)

(** [{ summary: [result.vendor], details: { oui: result } }] *)
Record lookupData : Type := LookupData {
  summary : list string;
  oui : entry
}.

(** One element of [lookupResults]: the entity's value and its [data],
    [None] for [data: null]. *)
Definition lookupResult : Type := (string * option lookupData)%type.

(** What [doLookup] hands to its callback. *)
Inductive callback : Type :=
| cbError (err : error)
| cbNotInitialized
| cbResults (lookupResults : list lookupResult).

Module EntryPoint.

Definition toResult (value : string) (result : option entry) : lookupResult :=
  match result with
  | Some hit => (value, Some (LookupData [vendor hit] hit))
  | None => (value, None)
  end.

(** The [for] loop of [doLookup] over the entities' values, on the
    object the module variable [parser] refers to. *)
Fixpoint lookupEach (entities : list string) : M MacParser (list lookupResult) :=
  match entities with
  | [] => ret []
  | value :: rest =>
      result <- Parser.lookup value ;;
      lookupResults <- lookupEach rest ;;
      ret (toResult value result :: lookupResults)
  end.

(** [doLookup(entities, options, cb)]: the value is what [cb] is called
    with; a throw is a rejection that never reaches [cb]. *)
Definition doLookup (manufFilePath : string) (entities : list string)
    (autoUpdate : bool) : M Integration.state callback :=
  failed <- tryCatch
    (Integration.maybeInitializeParserAndDownloader manufFilePath autoUpdate ;;
     ret None)
    (fun error => ret (Some (cbError error))) ;;
  match failed with
  | Some answer => ret answer
  | None =>
      s <- this ;;
      match Integration.parser s with
      | None => ret cbNotInitialized
      | Some p =>
          lookupResults <- Integration.onParser p (lookupEach entities) ;;
          ret (cbResults lookupResults)
      end
  end.

(** The body of the listener [manufFileUpdated]: rebuild when there is
    a parser, and keep a failure of the rebuild to the log. *)
Definition manufFileUpdated_handler : M Integration.state unit :=
  s <- this ;;
  tryCatch
    match Integration.parser s with
    | Some p => Integration.onParser p Parser.reinitialize
    | None => ret tt
    end
    (fun parseError => ret tt).

End EntryPoint.

(** ** [MacParser.getVendor]: the process-wide parser *)

Module Static.

(** [MacParser.getVendor(mac, opts)], with [opts.eager] off; the state is
    [MacParser._singleton], [defaultPath] is the [manuf.gz] next to the
    module, [manufPath] is [opts.manufPath]. *)
Definition getVendor (defaultPath : string) (mac : string) (manufPath : option string)
  : M (option MacParser) (option string) :=
  fun E singleton w =>
    let p :=
      match singleton with
      | Some p => p
      | None => newMacParser (default defaultPath manufPath)
      end in
    let '(p', w', r) := Parser.lookup mac E p w in
    (Some p', w', match r with
                  | inl e => inl e
                  | inr hit => inr (vendor <$> hit)
                  end).

End Static.

(** ** Notions used to state properties *)

(** The answers of the loop of [doLookup] on a fixed index: one lookup
    per value, in order, stopping at the first one that throws. *)
Fixpoint lookupAllIn (entries : index) (sortedLens : list number)
    (entities : list string) : result (list lookupResult) :=
  match entities with
  | [] => ok []
  | value :: rest =>
      rbind (lookupIn entries sortedLens value) (fun result =>
      rbind (lookupAllIn entries sortedLens rest) (fun lookupResults =>
      ok (EntryPoint.toResult value result :: lookupResults)))
  end.

Definition isFailed (ev : event) : bool :=
  match ev with Failed _ _ _ => true | Updated _ _ _ => false end.

(** A code unit of 7 bits. *)
Definition isAscii (c : ascii) : bool := (nat_of_ascii c <? 128)%nat.

(** How many characters of [s] satisfy [p]. *)
Fixpoint countChars (p : ascii -> bool) (s : string) : nat :=
  match s with
  | EmptyString => 0%nat
  | String c r => ((if p c then 1 else 0) + countChars p r)%nat
  end.

(** A prefix length that is an integer. *)
Definition isInteger (bits : number) : bool :=
  match bits with Num _ => true | _ => false end.

(** A prefix length the data model allows for, and 0: an integer of 48
    at most, for which the shift of line 51 goes to the right. *)
Definition isAddressLength (bits : number) : bool :=
  match bits with Num b => (0 <=? b) && (b <=? 48) | _ => false end.

(** The design document's reading of a prefix token, to compare the
    parser with: the number that a string of hex digits spells, each digit
    worth its place in [0123456789ABCDEF] times a power of 16. *)
Module Spec.

Definition hexDigits : string := "0123456789ABCDEF".

Fixpoint placeIn (alphabet : string) (c : ascii) : Z :=
  match alphabet with
  | EmptyString => 0
  | String a rest => if Ascii.eqb a c then 0 else 1 + placeIn rest c
  end.

Fixpoint hexValue (digits : string) : Z :=
  match digits with
  | EmptyString => 0
  | String c rest =>
      placeIn hexDigits c * 16 ^ Z.of_nat (String.length rest) + hexValue rest
  end.

End Spec.

(** The stage an ['error'] event carries. *)
Definition stageOf (ev : event) : option string :=
  match ev with Failed _ stage _ => Some stage | Updated _ _ _ => None end.

(** ** Concrete worlds used to run the model *)

Module Fixtures.

Definition noFault : syscall -> option failure := fun _ => None.
Definition offline : string -> result (Z * string) :=
  fun _ => throw (TransportError "ECONNREFUSED").

(** An environment in which every archive decompresses to [text]. *)
Definition envWithText (text : string) : env :=
  Env 1000 noFault offline (fun _ => Some text) (fun _ _ => Some 500) (fun _ => true).

Definition manufGz : string := "data/manuf.gz".

(** A file system that holds the archive and nothing else. *)
Definition diskWithArchive : world :=
  World {[ manufGz := Inode "gz-bytes" 900 ]} [] [] [] 0.

Definition emptyDisk : world := World ∅ [] [] [] 0.

Definition xeroxLine : string := "00:00:00 Xerox".
Definition xeroxEntry : entry := Entry "00:00:00" "Xerox" EmptyString.

Definition ciscoNaNLine : string := "00:00:0C/xy Cisco".
Definition cisco56Line : string := "00:00:0C/56 Cisco".
Definition cisco16Line : string := "00:00:0C/16 Cisco".
Definition cisco16Entry : entry := Entry "00:00:0C/16" "Cisco" EmptyString.

(** A 24-bit entry and a 36-bit entry inside its range. *)
Definition ieeeText : string :=
  String.append "00:1B:C5 IEEE"
    (String LF "00:1B:C5:00:00:00/36 Acme").
Definition ieeeEntry : entry := Entry "00:1B:C5" "IEEE" EmptyString.
Definition acmeEntry : entry := Entry "00:1B:C5:00:00:00/36" "Acme" EmptyString.

(** The index of a text, or the empty one if the text does not parse. *)
Definition indexOf (text : string) : index :=
  match parseText text with inr i => i | inl _ => [] end.

(** A parser that has been initialised on [text]. *)
Definition readyParser (text : string) : MacParser :=
  mkMacParser manufGz true (indexOf text) (sortedLensOf (indexOf text)).

(** A server that answers every GET with [status] and [body]. *)
Definition serving (status : Z) (body : string) : string -> result (Z * string) :=
  fun _ => ok (status, body).

Definition envOnline (body : string) : env :=
  Env 1000 noFault (serving 200 body) (fun _ => Some xeroxLine) (fun _ _ => Some 500)
      (fun _ => true).

(** The disk is full when the temporary file is half written. *)
Definition envDiskFull (body part : string) : env :=
  Env 1000
    (fun c => match c with
              | WriteFile _ _ => Some (Failure "ENOSPC" (Some part))
              | _ => None
              end)
    (serving 200 body) (fun _ => Some xeroxLine) (fun _ _ => Some 500) (fun _ => true).

Definition aDownloader : ScheduledFileDownloader :=
  mkDownloader "https://example.org/manuf.gz" manufGz "0 0 * * 0" false None
    [(updated, manufFileUpdated); (errorEvent, manufFileUpdateError)].

End Fixtures.

(** ** More sample inputs *)

Module Samples.

(** [00:00:0C], [Cisco], [Early] and [cards], separated by tabs. *)
Definition tabbedLine : string :=
  String.append "00:00:0C"
    (String TAB (String.append "Cisco"
       (String TAB (String.append "Early" (String TAB "cards"))))).

(** A comment line, a blank line and a line of one field. *)
Definition textWithoutEntries : string :=
  String.append "# manuf" (String LF (String LF "junk")).

(** A line with a [NaN] length in front of the two lines of [ieeeText]. *)
Definition mixedText : string :=
  String.append Fixtures.ciscoNaNLine (String LF Fixtures.ieeeText).

(** The same key on two lines. *)
Definition renamedText : string :=
  String.append "00-00-0C OldName"
    (String LF (String.append "00:00:0C NewName" (String LF "00:00:0D Other"))).

(** The 36-bit line of [ieeeText]. *)
Definition acmeLine : string := "00:1B:C5:00:00:00/36 Acme".

(** A tab-separated line with a blank between the hex digits and the
    slash. *)
Definition blankLine : string := String.append "FF /8" (String TAB "Vendor").

(** A downloader in throwing mode, as the entry point creates it. *)
Definition strictDownloader : ScheduledFileDownloader :=
  mkDownloader "https://example.org/manuf.gz" Fixtures.manufGz "0 0 * * 0" true None
    [(updated, manufFileUpdated); (errorEvent, manufFileUpdateError)].

(** The server answers, but zlib refuses what it sent. *)
Definition envCorruptArchive : env :=
  Env 1000 Fixtures.noFault (Fixtures.serving 200 "not-gzip") (fun _ => None)
      (fun _ _ => Some 500) (fun _ => true).

(** A line whose bit count no BigInt shift can follow. *)
Definition overlongLine : string := "00:00:00/4000000000 Big".

(** The scheduling library gives no job, whatever the rule. *)
Definition envUnschedulable : env :=
  Env 1000 Fixtures.noFault Fixtures.offline (fun _ => Some Fixtures.xeroxLine)
      (fun _ _ => Some 500) (fun _ => false).

End Samples.

(** * Properties *)

(** ** The [Map] operations *)

Section JSMapFacts.
Context {K V : Type} `{EqDecision K}.
Implicit Types (m : JSMap.t K V) (k : K) (v : V).

Lemma get_set_same k v m : JSMap.get k (JSMap.set k v m) = Some v.
Proof.
  induction m as [|[k' v'] r IH]; simpl.
  - by rewrite decide_True.
  - destruct (decide (k = k')) as [->|Hne]; simpl.
    + by rewrite decide_True.
    + by rewrite decide_False.
Qed.

Lemma get_set_other k k' v m :
  k' ≠ k -> JSMap.get k' (JSMap.set k v m) = JSMap.get k' m.
Proof.
  intros Hne. induction m as [|[k0 v0] r IH]; simpl.
  - by rewrite decide_False.
  - destruct (decide (k = k0)) as [->|Hk]; simpl.
    + by rewrite !decide_False.
    + destruct (decide (k' = k0)); [done | exact IH].
Qed.

Lemma get_Some_key k v m : JSMap.get k m = Some v -> k ∈ JSMap.keys m.
Proof.
  induction m as [|[k0 v0] r IH]; simpl; [done|].
  destruct (decide (k = k0)) as [->|Hk]; intros Hg.
  - apply list_elem_of_here.
  - apply list_elem_of_further. by apply IH.
Qed.

Lemma get_None_key k m : JSMap.get k m = None -> k ∉ JSMap.keys m.
Proof.
  induction m as [|[k0 v0] r IH]; simpl; intros Hg.
  - apply not_elem_of_nil.
  - destruct (decide (k = k0)) as [->|Hk]; [done|].
    apply not_elem_of_cons. split; [done | by apply IH].
Qed.

Lemma keys_set_present k v m :
  k ∈ JSMap.keys m -> JSMap.keys (JSMap.set k v m) = JSMap.keys m.
Proof.
  induction m as [|[k0 v0] r IH]; simpl; intros Hin.
  - by apply elem_of_nil in Hin.
  - destruct (decide (k = k0)) as [->|Hk]; simpl; [done|].
    f_equal. apply IH. apply elem_of_cons in Hin as [?|?]; [done | done].
Qed.

Lemma keys_set_absent k v m :
  k ∉ JSMap.keys m -> JSMap.keys (JSMap.set k v m) = JSMap.keys m ++ [k].
Proof.
  induction m as [|[k0 v0] r IH]; simpl; intros Hin; [done|].
  apply not_elem_of_cons in Hin as [Hne Hin].
  rewrite decide_False by done. simpl. f_equal. by apply IH.
Qed.
End JSMapFacts.

(** ** Hex literals and shifts *)

Lemma hexVal_range c : isHex c = true -> 0 <= hexVal c < 16.
Proof.
  destruct c as [[] [] [] [] [] [] [] []]; intros H; vm_compute in H;
    try discriminate H; clear H; vm_compute; (split; [discriminate | reflexivity]).
Qed.

Lemma hexFrom_bounds s :
  allChars isHex s = true ->
  forall acc, 0 <= acc ->
    acc * 16 ^ Z.of_nat (String.length s) <= hexFrom acc s
    < (acc + 1) * 16 ^ Z.of_nat (String.length s).
Proof.
  induction s as [|c r IH]; intros Hall acc Hacc.
  - simpl. lia.
  - simpl in Hall. apply andb_true_iff in Hall as [Hc Hr].
    pose proof (hexVal_range c Hc) as Hv.
    cbn [hexFrom String.length].
    specialize (IH Hr (16 * acc + hexVal c) ltac:(lia)).
    rewrite Nat2Z.inj_succ, Z.pow_succ_r by lia.
    set (P := 16 ^ Z.of_nat (String.length r)) in *.
    assert (0 < P) by (apply Z.pow_pos_nonneg; lia).
    nia.
Qed.

Lemma length_trimEnd s : (String.length (trimEnd s) <= String.length s)%nat.
Proof.
  induction s as [|c r IH]; simpl; [lia|].
  destruct (isWhiteSpace c && isEmpty (trimEnd r)); simpl; lia.
Qed.

Lemma bigIntOfHex_bounds s v :
  bigIntOfHex s = Some v -> 0 <= v < 2 ^ (4 * Z.of_nat (String.length s)).
Proof.
  unfold bigIntOfHex. intros Hv.
  destruct (negb (isEmpty (trimEnd s)) && allChars isHex (trimEnd s)) eqn:Hc;
    [|discriminate].
  apply andb_true_iff in Hc as [_ Hall]. injection Hv as <-.
  pose proof (hexFrom_bounds _ Hall 0 ltac:(lia)) as Hb.
  pose proof (length_trimEnd s) as Hl.
  assert (16 ^ Z.of_nat (String.length (trimEnd s))
          <= 2 ^ (4 * Z.of_nat (String.length s))) as Hp.
  { replace 16 with (2 ^ 4) by reflexivity. rewrite <- Z.pow_mul_r by lia.
    apply Z.pow_le_mono_r; lia. }
  lia.
Qed.

Lemma rawIntOf_bounds hex raw :
  rawIntOf hex = ok raw -> 0 <= raw < 2 ^ (4 * Z.of_nat (String.length hex)).
Proof.
  unfold rawIntOf. destruct hex as [|c r]; cbn [isEmpty].
  - vm_compute. intros [= <-]. split; [discriminate | reflexivity].
  - destruct (bigIntOfHex (String c r)) as [v|] eqn:Hv; [|discriminate].
    intros [= <-]. by apply bigIntOfHex_bounds.
Qed.

(** ** Doubles *)

Lemma roundDouble_small z : Z.abs z < 2 ^ 53 -> roundDouble z = Num z.
Proof.
  intros Hz. unfold roundDouble.
  assert ((Z.log2 (Z.abs z) - 52 <=? 0) = true) as ->; [|done].
  apply Z.leb_le. destruct (Z.eq_dec (Z.abs z) 0) as [->|Hne]; [done|].
  assert (Z.log2 (Z.abs z) < 53); [|lia].
  apply Z.log2_lt_pow2; lia.
Qed.

(** From 2^53 on the nearest double stays beyond 2^53, on the same
    side of 0. *)
Lemma roundDouble_large z :
  2 ^ 53 <= Z.abs z ->
  roundDouble z = Infinity (z <? 0) \/
  exists m, 2 ^ 53 <= m /\ roundDouble z = Num (Z.sgn z * m).
Proof.
  intros Hz. unfold roundDouble.
  set (a := Z.abs z) in *. set (e := Z.log2 a - 52).
  assert (53 <= Z.log2 a) as Hlog by (apply Z.log2_le_pow2; lia).
  assert ((e <=? 0) = false) as -> by (apply Z.leb_gt; lia).
  set (q := Z.shiftr a e).
  set (q' := if (_ || _) then q + 1 else q).
  destruct (2 ^ 1024 <=? Z.shiftl q' e); [by left|]. right.
  exists (Z.shiftl q' e). split; [|done].
  assert (2 ^ 52 <= q) as Hq.
  { subst q. rewrite Z.shiftr_div_pow2 by lia.
    apply Z.div_le_lower_bound; [apply Z.pow_pos_nonneg; lia|].
    rewrite <- Z.pow_add_r by lia. replace (e + 52) with (Z.log2 a) by lia.
    apply Z.log2_spec. lia. }
  assert (q <= q') as Hq' by (subst q'; destruct (_ || _); lia).
  rewrite Z.shiftl_mul_pow2 by lia.
  assert (2 ^ 1 <= 2 ^ e) as He by (apply Z.pow_le_mono_r; lia).
  change (2 ^ 53) with (2 ^ 52 * 2 ^ 1). nia.
Qed.

(** Rounding keeps the sign: the comparison function of the sort is
    right about which of two integer lengths is the longer. *)
Lemma roundDouble_positive z : gt (roundDouble z) (Num 0) = (0 <? z).
Proof.
  destruct (Z_lt_le_dec (Z.abs z) (2 ^ 53)) as [Hs|Hl].
  - by rewrite roundDouble_small.
  - destruct (roundDouble_large z Hl) as [->|(m & Hm & ->)]; simpl.
    + destruct (Z.ltb_spec z 0), (Z.ltb_spec 0 z); simpl; try done; lia.
    + assert (0 < 2 ^ 53) by (apply Z.pow_pos_nonneg; lia).
      destruct (Z.ltb_spec 0 (Z.sgn z * m)), (Z.ltb_spec 0 z); try done; nia.
Qed.

Lemma sub_small x y : Z.abs (x - y) < 2 ^ 53 -> sub (Num x) (Num y) = Num (x - y).
Proof. apply roundDouble_small. Qed.

(** ** Shifts of BigInts *)

Lemma bitLength_spec x : 0 < x -> 2 ^ (bitLength x - 1) <= x < 2 ^ bitLength x.
Proof.
  intros Hx. unfold bitLength.
  assert ((x =? 0) = false) as -> by (apply Z.eqb_neq; lia).
  rewrite Z.abs_eq by lia. replace (Z.log2 x + 1 - 1) with (Z.log2 x) by lia.
  replace (Z.log2 x + 1) with (Z.succ (Z.log2 x)) by lia. by apply Z.log2_spec.
Qed.

Lemma shiftr_all x h n : 0 <= x < 2 ^ h -> h <= n -> Z.shiftr x n = 0.
Proof.
  intros Hx Hn. destruct (Z_lt_le_dec n 0) as [Hneg|Hpos].
  - assert (h < 0) by lia. rewrite Z.pow_neg_r in Hx by done. lia.
  - rewrite Z.shiftr_div_pow2 by done. apply Z.div_small.
    split; [lia|]. eapply Z.lt_le_trans; [apply Hx|].
    destruct (Z_lt_le_dec h 0); [rewrite Z.pow_neg_r in Hx by done; lia|].
    apply Z.pow_le_mono_r; lia.
Qed.

(** A shift to the right never raises. *)
Lemma shr_right x n : 0 <= x -> 0 <= n -> shr x n = Some (Z.shiftr x n).
Proof.
  intros Hx Hn. unfold shr, shl.
  destruct (Z.eqb_spec x 0) as [->|Hne]; [by rewrite Z.shiftr_0_l|].
  assert ((0 <? - n) = false) as -> by (apply Z.ltb_ge; lia).
  rewrite Z.opp_involutive.
  destruct (Z.leb_spec (bitLength x) n) as [Hall|Hsome]; [|done].
  assert ((x <? 0) = false) as -> by (apply Z.ltb_ge; lia).
  f_equal. symmetry. apply (shiftr_all x (bitLength x)); [|done].
  pose proof (bitLength_spec x ltac:(lia)). lia.
Qed.

(** A shift to the left gives the shifted value, when it gives one. *)
Lemma shl_left x n v : 0 <= x -> 0 <= n -> shl x n = Some v -> v = Z.shiftl x n.
Proof.
  intros Hx Hn. unfold shl.
  destruct (Z.eqb_spec x 0) as [->|Hne]; [intros [= <-]; by rewrite Z.shiftl_0_l|].
  destruct (Z.ltb_spec 0 n) as [Hpos|Hzero].
  - destruct (maxBigIntBits <? bitLength x + n); [done | by intros [= <-]].
  - assert (n = 0) as -> by lia. change (- 0) with 0.
    rewrite Z.shiftr_0_r, Z.shiftl_0_r.
    pose proof (bitLength_spec x ltac:(lia)) as Hb.
    destruct (Z.leb_spec (bitLength x) 0) as [Hle|Hgt]; [|by intros [= <-]].
    exfalso.
    assert (2 ^ bitLength x <= 1); [|lia].
    destruct (Z_lt_le_dec (bitLength x) 0); [rewrite Z.pow_neg_r by done; lia|].
    replace (bitLength x) with 0 by lia. done.
Qed.

(** A left shift of a value other than 0 that does not raise is a
    short one. *)
Lemma shl_count x n v :
  0 < x -> 0 < n -> shl x n = Some v -> n < maxBigIntBits.
Proof.
  intros Hx Hn. unfold shl.
  assert ((x =? 0) = false) as -> by (apply Z.eqb_neq; lia).
  assert ((0 <? n) = true) as -> by (apply Z.ltb_lt; lia).
  destruct (Z.ltb_spec maxBigIntBits (bitLength x + n)) as [|Hfit]; [done|].
  intros _. pose proof (bitLength_spec x Hx) as Hb.
  assert (0 < bitLength x); [|lia].
  destruct (Z_lt_le_dec 0 (bitLength x)); [done|].
  assert (2 ^ bitLength x <= 1); [|lia].
  destruct (Z_lt_le_dec (bitLength x) 0); [rewrite Z.pow_neg_r by done; lia|].
  replace (bitLength x) with 0 by lia. done.
Qed.

(** The three cases of lines 102-107, for a hex part of fewer than 2^51
    characters and an integer bit count: when the line is stored, its key
    is the raw value shifted by the exact difference. *)
Lemma prefixIntOf_value raw h b v :
  0 <= raw < 2 ^ h -> 0 <= h < 2 ^ 53 ->
  prefixIntOf raw (Num h) (Num b) = ok v ->
  v = if b <? h then Z.shiftr raw (h - b)
      else if h <? b then Z.shiftl raw (b - h) else raw.
Proof.
  intros Hraw Hh. unfold prefixIntOf, lt, gt.
  assert (0 < 2 ^ 53) as H53 by (apply Z.pow_pos_nonneg; lia).
  destruct (Z.ltb_spec b h) as [Hbh|Hbh].
  - destruct (Z_lt_le_dec (h - b) (2 ^ 53)) as [Hs|Hl].
    + rewrite sub_small by lia. cbn [bigIntOfNumber orRangeError rbind ok].
      rewrite shr_right by lia. by intros [= <-].
    + destruct (roundDouble_large (h - b) ltac:(lia)) as [Hr|(m & Hm & Hr)];
        unfold sub; rewrite Hr; [done|].
      rewrite Z.sgn_pos by lia. rewrite Z.mul_1_l.
      cbn [bigIntOfNumber orRangeError rbind ok].
      rewrite shr_right by lia. intros [= <-].
      rewrite (shiftr_all raw h m), (shiftr_all raw h (h - b)); [done|lia..].
  - destruct (Z.ltb_spec h b) as [Hhb|Hhb]; [|by intros [= <-]].
    destruct (Z_lt_le_dec (b - h) (2 ^ 53)) as [Hs|Hl].
    + rewrite sub_small by lia. cbn [bigIntOfNumber orRangeError rbind ok].
      destruct (shl raw (b - h)) as [v'|] eqn:Hshl; [|done].
      intros [= <-]. apply shl_left in Hshl; [done|lia..].
    + destruct (roundDouble_large (b - h) ltac:(lia)) as [Hr|(m & Hm & Hr)];
        unfold sub; rewrite Hr; [done|].
      rewrite Z.sgn_pos by lia. rewrite Z.mul_1_l.
      cbn [bigIntOfNumber orRangeError rbind ok].
      destruct (shl raw m) as [v'|] eqn:Hshl; [|done]. intros [= <-].
      destruct (Z.eq_dec raw 0) as [->|Hne].
      * unfold shl in Hshl. simpl in Hshl. injection Hshl as <-.
        by rewrite Z.shiftl_0_l.
      * apply shl_count in Hshl; [|lia..]. unfold maxBigIntBits in Hshl.
        assert (2 ^ 30 < 2 ^ 53) by (apply Z.pow_lt_mono_r; lia). lia.
Qed.

Lemma prefixIntOf_same raw h : prefixIntOf raw (Num h) (Num h) = ok raw.
Proof. unfold prefixIntOf, lt, gt. by rewrite Z.ltb_irrefl. Qed.

Lemma prefixIntOf_NaN raw h : prefixIntOf raw (Num h) NaN = ok raw.
Proof. reflexivity. Qed.

(** An infinite bit count is never stored. *)
Lemma prefixIntOf_Infinity raw h s : prefixIntOf raw (Num h) (Infinity s) = throw RangeError.
Proof. by destruct s. Qed.

Lemma prefixIntOf_fits raw h b v :
  0 <= raw < 2 ^ h -> 0 <= h < 2 ^ 53 -> 0 <= b ->
  prefixIntOf raw (Num h) (Num b) = ok v -> 0 <= v < 2 ^ b.
Proof.
  intros Hraw Hh Hb Hv. apply prefixIntOf_value in Hv; [|done..]. subst v.
  destruct (b <? h) eqn:Hbh; [apply Z.ltb_lt in Hbh | apply Z.ltb_ge in Hbh].
  - rewrite Z.shiftr_div_pow2 by lia. split.
    + apply Z.div_pos; [lia | apply Z.pow_pos_nonneg; lia].
    + apply Z.div_lt_upper_bound; [apply Z.pow_pos_nonneg; lia|].
      rewrite <- Z.pow_add_r by lia. replace (h - b + b) with h by lia. lia.
  - destruct (h <? b) eqn:Hhb; [apply Z.ltb_lt in Hhb | apply Z.ltb_ge in Hhb].
    + rewrite Z.shiftl_mul_pow2 by lia.
      assert (2 ^ b = 2 ^ h * 2 ^ (b - h)) as ->
        by (rewrite <- Z.pow_add_r by lia; f_equal; lia).
      assert (0 < 2 ^ (b - h)) by (apply Z.pow_pos_nonneg; lia). nia.
    + replace b with h by lia. lia.
Qed.
(** ** Hex digits *)

Lemma upperHex_isHex c : isUpperHex c = true -> isHex c = true.
Proof. unfold isHex. by intros ->. Qed.

Lemma upperHex_not_space c : isUpperHex c = true -> isWhiteSpace c = false.
Proof.
  destruct c as [[] [] [] [] [] [] [] []]; intros H; vm_compute in H;
    try discriminate H; reflexivity.
Qed.

Lemma trimEnd_upperHex s : allChars isUpperHex s = true -> trimEnd s = s.
Proof.
  induction s as [|c r IH]; simpl; [done|].
  intros [Hc Hr]%andb_true_iff. rewrite (upperHex_not_space c Hc). simpl.
  by rewrite IH.
Qed.

Lemma allChars_impl (p q : ascii -> bool) s :
  (forall c, p c = true -> q c = true) -> allChars p s = true -> allChars q s = true.
Proof.
  intros Hpq. induction s as [|c r IH]; simpl; [done|].
  intros [Hc Hr]%andb_true_iff. by rewrite (Hpq c Hc), IH.
Qed.

Lemma hexFrom_acc s acc :
  hexFrom acc s = acc * 16 ^ Z.of_nat (String.length s) + hexFrom 0 s.
Proof.
  revert acc. induction s as [|c r IH]; intros acc.
  - simpl. lia.
  - cbn [hexFrom String.length]. rewrite (IH (16 * acc + hexVal c)), (IH (16 * 0 + hexVal c)).
    rewrite Nat2Z.inj_succ, Z.pow_succ_r by lia. ring.
Qed.

Lemma hexFrom_append a b acc :
  hexFrom acc (String.append a b) = hexFrom (hexFrom acc a) b.
Proof. revert acc. induction a as [|c r IH]; intros acc; simpl; [done | apply IH]. Qed.

Lemma allChars_append p a b :
  allChars p (String.append a b) = allChars p a && allChars p b.
Proof. induction a as [|c r IH]; simpl; [done|]. by rewrite IH, andb_assoc. Qed.

Lemma bigIntOfHex_upperHex s :
  s <> EmptyString -> allChars isUpperHex s = true -> bigIntOfHex s = Some (hexFrom 0 s).
Proof.
  intros Hne Hall. unfold bigIntOfHex. rewrite (trimEnd_upperHex s Hall).
  rewrite (allChars_impl _ _ s upperHex_isHex Hall). by destruct s.
Qed.

Lemma rawIntOf_upperHex hex :
  allChars isUpperHex hex = true -> rawIntOf hex = ok (hexFrom 0 hex).
Proof.
  intros Hall. unfold rawIntOf. destruct hex as [|c r]; [done|].
  cbn [isEmpty]. by rewrite bigIntOfHex_upperHex.
Qed.

Lemma hexVal_place c : isUpperHex c = true -> hexVal c = Spec.placeIn Spec.hexDigits c.
Proof.
  destruct c as [[] [] [] [] [] [] [] []]; intros H; vm_compute in H;
    try discriminate H; reflexivity.
Qed.

(** Reading the digits from the left, as the conversion does, gives the
    number they spell. *)
Lemma hexFrom_hexValue s : allChars isUpperHex s = true -> hexFrom 0 s = Spec.hexValue s.
Proof.
  induction s as [|c r IH]; [done|]. cbn [allChars hexFrom Spec.hexValue].
  intros [Hc Hr]%andb_true_iff. rewrite hexFrom_acc, (IH Hr), (hexVal_place c Hc). lia.
Qed.

Lemma countChars_all p s :
  allChars p s = true -> countChars p s = String.length s.
Proof.
  induction s as [|c r IH]; [done|]. cbn [allChars countChars String.length].
  intros [Hc Hr]%andb_true_iff. by rewrite Hc, (IH Hr).
Qed.

(** ** What a stored line looks like *)

Lemma prefixBitsOf_default token :
  hasCidr token = false ->
  prefixBitsOf token = Num (Z.of_nat (String.length (compactHexOf token)) * 4).
Proof.
  unfold hasCidr, prefixBitsOf.
  destruct (splitChar "/" token) as [|? [|cidr ?]]; try done.
  by destruct (isEmpty cidr).
Qed.

Lemma parseLine_Put rawLine b v e :
  parseLine rawLine = Put b v e ->
  b = prefixBitsOf (prefix e) /\
  exists raw,
    rawIntOf (compactHexOf (prefix e)) = ok raw /\
    prefixIntOf raw (Num (Z.of_nat (String.length (compactHexOf (prefix e))) * 4)) b
    = ok v.
Proof.
  unfold parseLine.
  destruct (isEmpty (trim rawLine) || startsWithChar "#" (trim rawLine)); [done|].
  destruct (length (lineParts (trim rawLine)) <? 2)%nat; [done|].
  set (token := trim (nthPart 0 (lineParts (trim rawLine)))).
  destruct (rawIntOf (compactHexOf token)) as [err|raw] eqn:Hraw; [done|].
  destruct (prefixIntOf raw _ (prefixBitsOf token)) as [err|pv] eqn:Hpv; [done|].
  intros [= <- <- <-]. simpl. split; [done|]. exists raw. by split.
Qed.

Lemma hitAt_putEntry_same b v e (byBits : index) :
  hitAt (putEntry b v e byBits) b v = Some e.
Proof.
  unfold hitAt, putEntry, JSMap.has.
  destruct (JSMap.get b byBits) as [bucket|] eqn:Hg.
  - rewrite Hg, get_set_same. apply lookup_insert_eq.
  - rewrite !get_set_same. apply lookup_insert_eq.
Qed.

Lemma hitAt_putEntry_inv b v e (byBits : index) b' v' e' :
  hitAt (putEntry b v e byBits) b' v' = Some e' ->
  (b' = b /\ v' = v /\ e' = e) \/ hitAt byBits b' v' = Some e'.
Proof.
  unfold hitAt, putEntry, JSMap.has.
  destruct (decide (b' = b)) as [->|Hb].
  - destruct (JSMap.get b byBits) as [bucket|] eqn:Hg.
    + rewrite Hg, get_set_same.
      destruct (decide (v' = v)) as [->|Hv].
      * rewrite lookup_insert_eq. intros [= <-]. by left.
      * rewrite lookup_insert_ne by done. by right.
    + rewrite !get_set_same.
      destruct (decide (v' = v)) as [->|Hv].
      * rewrite lookup_insert_eq. intros [= <-]. by left.
      * rewrite lookup_insert_ne by done. by rewrite lookup_empty.
  - destruct (JSMap.get b byBits) as [bucket|] eqn:Hg.
    + rewrite Hg, get_set_other by done. by right.
    + rewrite get_set_same, !get_set_other by done. by right.
Qed.

Lemma keys_putEntry b v e (byBits : index) :
  JSMap.keys (putEntry b v e byBits) =
  if bool_decide (b ∈ JSMap.keys byBits) then JSMap.keys byBits
  else JSMap.keys byBits ++ [b].
Proof.
  unfold putEntry, JSMap.has.
  destruct (JSMap.get b byBits) as [bucket|] eqn:Hg.
  - rewrite Hg. pose proof (get_Some_key _ _ _ Hg) as Hin.
    rewrite bool_decide_eq_true_2 by done. by apply keys_set_present.
  - pose proof (get_None_key _ _ Hg) as Hin.
    rewrite bool_decide_eq_false_2 by done.
    rewrite get_set_same. rewrite keys_set_present.
    + by apply keys_set_absent.
    + rewrite keys_set_absent by done. apply elem_of_app. right. apply list_elem_of_here.
Qed.

(** C6 (amended). For every stored line whose hex part holds hex digits
    and separators only, [h] of them digits ([h] below 2^51, as in any
    string an engine can hold), and whose bit count [b] is an integer
    (the parsed [/b] suffix, or [4·h] when the suffix is absent):
    the stored prefixValue is the number the digits spell, shifted right
    by [4·h − b] bits if [4·h > b], shifted left by [b − 4·h] bits if
    [4·h < b], and unchanged if [4·h = b]; and that is the key under
    which the loop stores the line's entry. *)
Theorem C6_prefix_value_shift (rawLine : string) (b v : Z) (e : entry) (byBits : index) :
  parseLine rawLine = Put (Num b) v e ->
  let hex := compactHexOf (prefix e) in
  let h := Z.of_nat (countChars isHex hex) in
  allChars isUpperHex hex = true ->
  h < 2 ^ 51 ->
  countChars isHex hex = String.length hex /\
  rawIntOf hex = ok (Spec.hexValue hex) /\
  prefixBitsOf (prefix e) = Num b /\
  (hasCidr (prefix e) = false -> b = 4 * h) /\
  (forall hexPart cidrPart rest,
     splitChar "/" (prefix e) = hexPart :: cidrPart :: rest ->
     cidrPart <> EmptyString -> parseInt cidrPart = Num b) /\
  (4 * h > b -> v = Z.shiftr (Spec.hexValue hex) (4 * h - b)) /\
  (4 * h < b -> v = Z.shiftl (Spec.hexValue hex) (b - 4 * h)) /\
  (4 * h = b -> v = Spec.hexValue hex) /\
  hitAt (putEntry (Num b) v e byBits) (Num b) v = Some e.
Proof.
  intros Hput hex h Hdigits Hshort.
  assert (countChars isHex hex = String.length hex) as Hcount
    by (apply countChars_all, (allChars_impl _ _ hex upperHex_isHex Hdigits)).
  apply parseLine_Put in Hput as [Hb (raw & Hraw & Hv)].
  fold hex in Hraw, Hv. rewrite <- Hcount in Hv. fold h in Hv.
  rewrite (rawIntOf_upperHex hex Hdigits) in Hraw. injection Hraw as <-.
  rewrite (hexFrom_hexValue hex Hdigits) in Hv.
  assert (0 <= Spec.hexValue hex < 2 ^ (h * 4)) as Hrange.
  { pose proof (rawIntOf_bounds hex _ (rawIntOf_upperHex hex Hdigits)) as Hr.
    rewrite (hexFrom_hexValue hex Hdigits), <- Hcount in Hr. fold h in Hr.
    by rewrite Z.mul_comm. }
  assert (0 <= h) as Hh by (subst h; lia).
  apply prefixIntOf_value in Hv; [|done|lia].
  split; [done|]. split.
  { by rewrite (rawIntOf_upperHex hex Hdigits), (hexFrom_hexValue hex Hdigits). }
  split; [done|]. split.
  { intros Hno. apply prefixBitsOf_default in Hno. rewrite <- Hb in Hno.
    injection Hno as ->. fold hex. rewrite <- Hcount. fold h. lia. }
  split.
  { intros hexPart cidrPart rest Hsplit Hcidr. rewrite Hb. unfold prefixBitsOf.
    rewrite Hsplit. by destruct cidrPart. }
  split; [|split; [|split]].
  - intros Hgt. destruct (b <? h * 4) eqn:Hc; [|apply Z.ltb_ge in Hc; lia].
    subst v. f_equal. lia.
  - intros Hlt. destruct (b <? h * 4) eqn:Hc; [apply Z.ltb_lt in Hc; lia|].
    destruct (h * 4 <? b) eqn:Hc2; [|apply Z.ltb_ge in Hc2; lia].
    subst v. f_equal. lia.
  - intros Heq. destruct (b <? h * 4) eqn:Hc; [apply Z.ltb_lt in Hc; lia|].
    destruct (h * 4 <? b) eqn:Hc2; [apply Z.ltb_lt in Hc2; lia|]. done.
  - apply hitAt_putEntry_same.
Qed.

Lemma C6_witness :
  parseLine Samples.acmeLine = Put (Num 36) 29118464 Fixtures.acmeEntry /\
  compactHexOf (prefix Fixtures.acmeEntry) = "001BC5000000"%string /\
  Spec.hexValue "001BC5000000" = 119269228544 /\
  (4 * 12 > 36 -> 29118464 = Z.shiftr 119269228544 (4 * 12 - 36)).
Proof.
  assert (parseLine Samples.acmeLine = Put (Num 36) 29118464 Fixtures.acmeEntry)
    as Hput by (vm_compute; reflexivity).
  split; [exact Hput|]. split; [reflexivity|]. split; [reflexivity|].
  assert (Z.of_nat (countChars isHex (compactHexOf (prefix Fixtures.acmeEntry))) < 2 ^ 51)
    as Hshort by (vm_compute; reflexivity).
  exact (proj1 (proj2 (proj2 (proj2 (proj2 (proj2
           (C6_prefix_value_shift Samples.acmeLine 36 29118464 Fixtures.acmeEntry []
              Hput eq_refl Hshort))))))).
Defined.

(** A blank that trails the hex digits is counted as a digit.  In the
    tab-separated line [FF /8<TAB>Vendor] the hex part has two digits and
    the bit count is 8, four times two, so that the value [0xFF] would be
    stored as it is; the parser takes the length 3 of [FF ] as the digit
    count and stores [0xFF >> 4]. *)
Lemma C6_counterexample_blank_counted :
  parseLine Samples.blankLine = Put (Num 8) 15 (Entry "FF /8" "Vendor" EmptyString) /\
  compactHexOf "FF /8" = "FF "%string /\
  countChars isHex (compactHexOf "FF /8") = 2%nat /\
  prefixBitsOf "FF /8" = Num 8 /\
  4 * 2 = 8 /\
  Spec.hexValue "FF" = 255 /\
  15 <> 255.
Proof. repeat split; try (vm_compute; reflexivity). discriminate. Qed.

(** ** The search order *)

Lemma insertBy_Num x l :
  insertBy compareDesc (Num x) (map Num l) = map Num (insertDesc x l).
Proof.
  induction l as [|y r IH]; [done|]. cbn [map insertBy insertDesc].
  change (compareDesc (Num y) (Num x)) with (roundDouble (x - y)).
  rewrite roundDouble_positive.
  replace (0 <? x - y) with (y <? x)
    by (destruct (y <? x) eqn:H1, (0 <? x - y) eqn:H2; lia).
  destruct (y <? x); [reflexivity|]. cbn [map]. by rewrite IH.
Qed.

Lemma elem_of_insertDesc x l z : z ∈ insertDesc x l <-> z = x \/ z ∈ l.
Proof.
  induction l as [|y r IH]; simpl.
  - rewrite list_elem_of_singleton. split; [by left | intros [?|H]; [done|]].
    by apply elem_of_nil in H.
  - destruct (y <? x).
    + by rewrite elem_of_cons.
    + rewrite !elem_of_cons, IH. tauto.
Qed.

Lemma insertDesc_sorted x l :
  x ∉ l -> StronglySorted Z.gt l -> StronglySorted Z.gt (insertDesc x l).
Proof.
  intros Hx Hs. induction Hs as [|y r Hr IH Hall]; simpl.
  - by repeat constructor.
  - apply not_elem_of_cons in Hx as [Hne Hx].
    destruct (y <? x) eqn:Hc.
    + apply Z.ltb_lt in Hc. constructor; [by constructor|].
      constructor; [lia|]. eapply Forall_impl; [exact Hall|]. simpl. lia.
    + apply Z.ltb_ge in Hc. constructor; [by apply IH|].
      apply Forall_forall. intros z Hz.
      apply elem_of_insertDesc in Hz as [->|Hz]; [lia|].
      rewrite Forall_forall in Hall. by apply Hall.
Qed.

Lemma sortBy_from (ks : list number) (acc : list Z) :
  forallb isInteger ks = true -> NoDup ks -> StronglySorted Z.gt acc ->
  (forall z, z ∈ acc -> Num z ∉ ks) ->
  exists zs,
    fold_left (fun a x => insertBy compareDesc x a) ks (map Num acc) = map Num zs /\
    StronglySorted Z.gt zs /\
    (forall z, z ∈ zs <-> z ∈ acc \/ Num z ∈ ks).
Proof.
  revert acc. induction ks as [|k ks IH]; intros acc Hint Hnd Hs Hdis; simpl.
  - exists acc. split; [done|]. split; [done|]. intros z. split; [by left|].
    intros [?|H]; [done | by apply elem_of_nil in H].
  - cbn [forallb] in Hint. apply andb_true_iff in Hint as [Hk Hint].
    apply NoDup_cons in Hnd as [Hkn Hnd].
    destruct k as [|x|s]; [done| |done].
    rewrite insertBy_Num.
    assert (x ∉ acc) as Hxa.
    { intros Hin. apply (Hdis x Hin). apply list_elem_of_here. }
    destruct (IH (insertDesc x acc) Hint Hnd (insertDesc_sorted _ _ Hxa Hs))
      as (zs & Hf & Hzs & Hmem).
    { intros z Hz Hin. apply elem_of_insertDesc in Hz as [->|Hz]; [done|].
      apply (Hdis z Hz). by apply list_elem_of_further. }
    exists zs. split; [done|]. split; [done|]. intros z.
    rewrite Hmem, elem_of_insertDesc, elem_of_cons.
    split; [intros [[->|?]|?]; auto | intros [?|[[= ->]|?]]; auto].
Qed.

(** When every key is an integer the search order is the strictly
    descending list of the keys. *)
Lemma sortedLensOf_descending (byBits : index) :
  forallb isInteger (JSMap.keys byBits) = true -> NoDup (JSMap.keys byBits) ->
  exists zs,
    sortedLensOf byBits = map Num zs /\
    StronglySorted Z.gt zs /\
    (forall z, z ∈ zs <-> Num z ∈ JSMap.keys byBits).
Proof.
  intros Hint Hnd.
  destruct (sortBy_from (JSMap.keys byBits) [] Hint Hnd) as (zs & Hf & Hs & Hm).
  - constructor.
  - intros z Hz. by apply elem_of_nil in Hz.
  - exists zs. split; [exact Hf|]. split; [done|]. intros z. rewrite Hm.
    split; [intros [H|?]; [by apply elem_of_nil in H | done] | by right].
Qed.

Lemma forallb_impl {A} (p q : A -> bool) l :
  (forall x, p x = true -> q x = true) -> forallb p l = true -> forallb q l = true.
Proof.
  intros Hpq. induction l as [|x r IH]; simpl; [done|].
  intros [Hx Hr]%andb_true_iff. by rewrite (Hpq x Hx), IH.
Qed.

Lemma addressLength_integer bits : isAddressLength bits = true -> isInteger bits = true.
Proof. by destruct bits. Qed.

Lemma forallb_elem {A} (p : A -> bool) l x :
  forallb p l = true -> x ∈ l -> p x = true.
Proof.
  induction l as [|y r IH]; simpl; intros Hall Hin; [by apply elem_of_nil in Hin|].
  apply andb_true_iff in Hall as [Hy Hr].
  apply elem_of_cons in Hin as [->|Hin]; [done | by apply IH].
Qed.

(** ** The index a text builds *)

Lemma parseLines_keys_NoDup lines (acc byBits : index) :
  NoDup (JSMap.keys acc) -> parseLines lines acc = ok byBits ->
  NoDup (JSMap.keys byBits).
Proof.
  revert acc. induction lines as [|l rest IH]; intros acc Hnd; simpl.
  - by intros [= <-].
  - destruct (parseLine l) as [|b v e|err]; [by apply IH| |done].
    apply IH. rewrite keys_putEntry. case_bool_decide as Hin; [done|].
    apply NoDup_app. split; [done|]. split.
    + intros k Hk Hk'. apply list_elem_of_singleton in Hk'. by subst.
    + apply NoDup_singleton.
Qed.

Lemma parseText_keys_NoDup text byBits :
  parseText text = ok byBits -> NoDup (JSMap.keys byBits).
Proof. apply parseLines_keys_NoDup. constructor. Qed.

(** Every stored entry was put there by a line of the text. *)
Lemma parseLines_stored lines (acc byBits : index) (P : number -> Z -> entry -> Prop) :
  (forall l b v e, parseLine l = Put b v e -> P b v e) ->
  (forall b v e, hitAt acc b v = Some e -> P b v e) ->
  parseLines lines acc = ok byBits ->
  forall b v e, hitAt byBits b v = Some e -> P b v e.
Proof.
  intros Hline. revert acc.
  induction lines as [|l rest IH]; intros acc Hacc; simpl.
  - by intros [= <-].
  - destruct (parseLine l) as [|b v e|err] eqn:Hl; [by apply IH| |done].
    apply IH. intros b' v' e' Hhit.
    apply hitAt_putEntry_inv in Hhit as [(-> & -> & ->)|Hhit]; [|by apply Hacc].
    by apply (Hline l).
Qed.

(** ** Running the parser's methods *)

(** Expose the plumbing of the method monad. *)
Ltac run_method :=
  unfold bind, tryCatch, this, ret, throwM, assign, ask, liftR, when, ok, throw in *;
  cbn beta iota in *.

Lemma init_ready E p w : _ready p = true -> Parser.init E p w = (p, w, ok tt).
Proof. intros Hr. unfold Parser.init. run_method. by rewrite Hr. Qed.

Lemma lookup_ready E p w mac :
  _ready p = true ->
  Parser.lookup mac E p w = (p, w, lookupIn (_entries p) (_sortedLens p) mac).
Proof.
  intros Hr. unfold Parser.lookup, bind. rewrite init_ready by done. reflexivity.
Qed.

Lemma lookup_hit_valid E p w mac p' w' e :
  Parser.lookup mac E p w = (p', w', ok (Some e)) ->
  validCompact (compactOf mac) = true.
Proof.
  unfold Parser.lookup, bind.
  destruct (Parser.init E p w) as [[p1 w1] [err|[]]]; [done|].
  unfold lookupIn. run_method.
  destruct (validCompact (compactOf mac)); [done|]. simpl. by intros [= _ _ ?].
Qed.

Lemma validCompact_spec c :
  validCompact c = true <->
  (6 <= String.length c <= 12)%nat /\ allChars isUpperHex c = true.
Proof.
  unfold validCompact. rewrite !andb_true_iff, !Nat.leb_le. tauto.
Qed.

(** A text the pattern accepts is a hex literal. *)
Lemma valid_address c :
  validCompact c = true ->
  exists addr, bigIntOfHex c = Some addr /\
               0 <= addr < 2 ^ (4 * Z.of_nat (String.length c)).
Proof.
  intros [Hlen Hall]%validCompact_spec.
  assert (exists addr, bigIntOfHex c = Some addr) as [addr Ha].
  { unfold bigIntOfHex. rewrite (trimEnd_upperHex c Hall).
    rewrite (allChars_impl _ _ c upperHex_isHex Hall).
    destruct c; [simpl in Hlen; lia|]. simpl. eauto. }
  exists addr. split; [done|]. by apply bigIntOfHex_bounds.
Qed.

(** At an integer length from 0 to 48 the key of line 51 is computed
    without an error: the shift goes to the right. *)
Lemma keyOf_address addr b :
  0 <= addr -> 0 <= b <= 48 -> keyOf addr (Num b) = ok (keyAt addr b).
Proof.
  intros Ha Hb. unfold keyOf, keyAt.
  assert (0 < 2 ^ 53) by (apply Z.pow_pos_nonneg; lia).
  assert (48 < 2 ^ 53) by (apply Z.lt_le_trans with (2 ^ 6); [done|];
                           apply Z.pow_le_mono_r; lia).
  rewrite sub_small by lia. cbn [bigIntOfNumber orRangeError rbind ok].
  by rewrite shr_right by lia.
Qed.

(** The loop over a descending list of lengths from 0 to 48: it ends, and
    it ends on the longest length that has a hit. *)
Lemma scanLens_sorted (entries : index) (addr : Z) (zs : list Z) :
  0 <= addr -> Forall (fun b => 0 <= b <= 48) zs -> StronglySorted Z.gt zs ->
  exists r,
    scanLens entries addr (map Num zs) = ok r /\
    match r with
    | Some e =>
        exists b, b ∈ zs /\
          hitAt entries (Num b) (keyAt addr b) = Some e /\
          forall b', b' ∈ zs -> b' > b ->
            hitAt entries (Num b') (keyAt addr b') = None
    | None =>
        forall b, b ∈ zs -> hitAt entries (Num b) (keyAt addr b) = None
    end.
Proof.
  intros Ha Hrange. induction 1 as [|b r Hr IH Hall]; cbn [map scanLens].
  - exists None. split; [done|]. intros b Hb. by apply elem_of_nil in Hb.
  - apply Forall_cons in Hrange as [Hb Hrange].
    rewrite keyOf_address by done. unfold ok at 1.
    destruct (hitAt entries (Num b) (keyAt addr b)) as [e|] eqn:Hhit.
    + exists (Some e). split; [done|]. exists b.
      split; [apply list_elem_of_here|]. split; [done|].
      intros b' [->|Hb']%elem_of_cons Hgt; [lia|].
      rewrite Forall_forall in Hall. apply Hall in Hb'. lia.
    + destruct (IH Hrange) as (res & Hscan & Hres). exists res. split; [done|].
      destruct res as [e|].
      * destruct Hres as (b0 & Hb0 & Hh0 & Hlonger). exists b0.
        split; [by apply list_elem_of_further|]. split; [done|].
        intros b' [->|Hb']%elem_of_cons Hgt; [done | by apply Hlonger].
      * intros b' [->|Hb']%elem_of_cons; [done | by apply Hres].
Qed.

Lemma scanLens_keyAt entries addr zs :
  0 <= addr -> Forall (fun b => 0 <= b <= 48) zs -> StronglySorted Z.gt zs ->
  exists r,
    scanLens entries addr (map Num zs) = ok r /\
    (forall e, r = Some e <->
       exists b, b ∈ zs /\ hitAt entries (Num b) (keyAt addr b) = Some e /\
         forall b', b' ∈ zs -> b' > b -> hitAt entries (Num b') (keyAt addr b') = None) /\
    (r = None <-> forall b, b ∈ zs -> hitAt entries (Num b) (keyAt addr b) = None).
Proof.
  intros Ha Hrange Hs.
  destruct (scanLens_sorted entries addr zs Ha Hrange Hs) as (r & Hscan & Hr).
  exists r. split; [done|].
  destruct r as [e0|].
  - destruct Hr as (b0 & Hb0 & Hh0 & Hl0). split.
    + intros e. split.
      * intros [= <-]. eauto.
      * intros (b & Hb & Hh & Hl). f_equal.
        destruct (Z.lt_trichotomy b b0) as [Hlt|[->|Hgt]].
        -- rewrite (Hl b0 Hb0 ltac:(lia)) in Hh0. done.
        -- congruence.
        -- rewrite (Hl0 b Hb ltac:(lia)) in Hh. done.
    + split; [done|]. intros Hnone. rewrite (Hnone b0 Hb0) in Hh0. done.
  - split.
    + intros e. split; [done|]. intros (b & Hb & Hh & _).
      rewrite (Hr b Hb) in Hh. done.
    + split; [intros _; exact Hr | done].
Qed.

Lemma keyAt_top_bits addr b :
  0 <= addr < 2 ^ 48 -> 0 <= b <= 48 ->
  keyAt addr b = addr / 2 ^ (48 - b) /\ 0 <= keyAt addr b < 2 ^ b.
Proof.
  intros Ha Hb. unfold keyAt. rewrite Z.shiftr_div_pow2 by lia.
  split; [done|]. split.
  - apply Z.div_pos; [lia | apply Z.pow_pos_nonneg; lia].
  - apply Z.div_lt_upper_bound; [apply Z.pow_pos_nonneg; lia|].
    rewrite <- Z.pow_add_r by lia. replace (48 - b + b) with 48 by lia. lia.
Qed.

(** The lengths of an index that [isAddressLength] accepts, as
    integers. *)
Lemma address_lengths (byBits : index) (zs : list Z) :
  forallb isAddressLength (JSMap.keys byBits) = true ->
  (forall z, z ∈ zs <-> Num z ∈ JSMap.keys byBits) ->
  Forall (fun b => 0 <= b <= 48) zs.
Proof.
  intros Hall Hmem. apply Forall_forall. intros b Hb. apply Hmem in Hb.
  pose proof (forallb_elem _ _ _ Hall Hb) as Hr. simpl in Hr.
  apply andb_true_iff in Hr as [H0 H48]. lia.
Qed.

(** C1 (amended). For every built index whose prefix lengths are all
    integers from 0 to 48 (no [NaN] key from a non-numeric [/bitCount]
    suffix, no length beyond the 48 bits of an address) and every address
    string of twelve hex digits: the search order [_sortedLens] is the
    strictly descending list of the prefix lengths present in the index;
    at each of them the key of line 51 is the top [b] bits of the
    address; [lookup] returns, without raising, the entry of the longest
    present length [b] whose key is stored under [b], and [null] exactly
    when no present length has its key stored; in particular an address
    covered at 36 bits gets the 36-bit entry, whatever matches at 24 bits,
    as long as no longer length matches. *)
Theorem C1_longest_prefix_first
    (E : env) (p : MacParser) (w : world) (text mac : string) :
  parseText text = ok (_entries p) ->
  _sortedLens p = sortedLensOf (_entries p) ->
  _ready p = true ->
  forallb isAddressLength (JSMap.keys (_entries p)) = true ->
  String.length (compactOf mac) = 12%nat ->
  allChars isUpperHex (compactOf mac) = true ->
  exists (zs : list Z) (addr : Z) (r : option entry),
    _sortedLens p = map Num zs /\
    StronglySorted Z.gt zs /\
    (forall b, b ∈ zs <-> Num b ∈ JSMap.keys (_entries p)) /\
    bigIntOfHex (compactOf mac) = Some addr /\
    0 <= addr < 2 ^ 48 /\
    (forall b, b ∈ zs ->
       0 <= b <= 48 /\
       keyOf addr (Num b) = ok (keyAt addr b) /\
       keyAt addr b = addr / 2 ^ (48 - b) /\ 0 <= keyAt addr b < 2 ^ b) /\
    Parser.lookup mac E p w = (p, w, ok r) /\
    (forall e, r = Some e <->
       exists b, b ∈ zs /\
         hitAt (_entries p) (Num b) (keyAt addr b) = Some e /\
         forall b', b' ∈ zs -> b' > b ->
           hitAt (_entries p) (Num b') (keyAt addr b') = None) /\
    (r = None <->
       forall b, b ∈ zs -> hitAt (_entries p) (Num b) (keyAt addr b) = None) /\
    (forall e36,
       hitAt (_entries p) (Num 36) (keyAt addr 36) = Some e36 ->
       (forall b', b' ∈ zs -> b' > 36 ->
          hitAt (_entries p) (Num b') (keyAt addr b') = None) ->
       r = Some e36).
Proof.
  intros Hbuilt Hlens Hready Hrange Hlen Hhex.
  pose proof (parseText_keys_NoDup _ _ Hbuilt) as Hnd.
  pose proof (forallb_impl _ _ _ addressLength_integer Hrange) as Hint.
  destruct (sortedLensOf_descending _ Hint Hnd) as (zs & Hzs & Hsorted & Hmem).
  pose proof (address_lengths _ _ Hrange Hmem) as Hzs48.
  assert (validCompact (compactOf mac) = true) as Hvalid.
  { apply validCompact_spec. split; [lia | done]. }
  destruct (valid_address _ Hvalid) as (addr & Haddr & Haddr48).
  rewrite Hlen in Haddr48. change (4 * Z.of_nat 12) with 48 in Haddr48.
  destruct (scanLens_keyAt (_entries p) addr zs ltac:(lia) Hzs48 Hsorted)
    as (r & Hscan & Hsome & Hnone).
  exists zs, addr, r.
  split; [by rewrite Hlens|]. split; [done|]. split; [done|].
  split; [done|]. split; [done|]. split.
  { intros b Hb. rewrite Forall_forall in Hzs48. specialize (Hzs48 b Hb).
    split; [done|]. split; [apply keyOf_address; lia|]. by apply keyAt_top_bits. }
  split.
  { rewrite lookup_ready by done. unfold lookupIn.
    rewrite Hvalid, Haddr, Hlens, Hzs. simpl. by rewrite Hscan. }
  split; [done|]. split; [done|].
  intros e36 Hhit Hlonger. apply Hsome. exists 36.
  split; [|by split]. apply Hmem.
  unfold hitAt in Hhit.
  destruct (JSMap.get (Num 36) (_entries p)) as [bucket|] eqn:Hg; [|done].
  by apply get_Some_key in Hg.
Qed.

Lemma C1_witness :
  parseText Fixtures.ieeeText = ok (_entries (Fixtures.readyParser Fixtures.ieeeText)) /\
  forallb isAddressLength (JSMap.keys (_entries (Fixtures.readyParser Fixtures.ieeeText)))
  = true /\
  String.length (compactOf "00:1b:c5:00:01:22") = 12%nat /\
  allChars isUpperHex (compactOf "00:1b:c5:00:01:22") = true /\
  exists (zs : list Z) (addr : Z) (r : option entry),
    _sortedLens (Fixtures.readyParser Fixtures.ieeeText) = map Num zs /\
    StronglySorted Z.gt zs /\
    Parser.lookup "00:1b:c5:00:01:22" (Fixtures.envWithText Fixtures.ieeeText)
      (Fixtures.readyParser Fixtures.ieeeText) Fixtures.diskWithArchive
    = (Fixtures.readyParser Fixtures.ieeeText, Fixtures.diskWithArchive, ok r) /\
    (r = Some Fixtures.acmeEntry <->
       exists b, b ∈ zs /\
         hitAt (_entries (Fixtures.readyParser Fixtures.ieeeText)) (Num b) (keyAt addr b)
         = Some Fixtures.acmeEntry /\
         forall b', b' ∈ zs -> b' > b ->
           hitAt (_entries (Fixtures.readyParser Fixtures.ieeeText)) (Num b')
             (keyAt addr b') = None).
Proof.
  split; [reflexivity|]. split; [reflexivity|]. split; [reflexivity|].
  split; [reflexivity|].
  destruct (C1_longest_prefix_first (Fixtures.envWithText Fixtures.ieeeText)
              (Fixtures.readyParser Fixtures.ieeeText) Fixtures.diskWithArchive
              Fixtures.ieeeText "00:1b:c5:00:01:22"
              eq_refl eq_refl eq_refl eq_refl eq_refl eq_refl)
    as (zs & addr & r & Hl & Hs & _ & _ & _ & _ & Hrun & Hsome & _).
  exists zs, addr, r. split; [exact Hl|]. split; [exact Hs|].
  split; [exact Hrun|]. exact (Hsome Fixtures.acmeEntry).
Defined.

(** At a [NaN] prefix length the loop of [lookup] raises: a file with the
    line [00:00:0C/xy Cisco] builds an index that no address of twelve
    digits can be looked up in. *)
Lemma C1_counterexample_NaN_length :
  parseText Fixtures.ciscoNaNLine
  = ok (_entries (Fixtures.readyParser Fixtures.ciscoNaNLine)) /\
  String.length (compactOf "00:00:0C:11:22:33") = 12%nat /\
  allChars isUpperHex (compactOf "00:00:0C:11:22:33") = true /\
  snd (Parser.lookup "00:00:0C:11:22:33" (Fixtures.envWithText Fixtures.ciscoNaNLine)
         (newMacParser Fixtures.manufGz) Fixtures.diskWithArchive)
  = throw RangeError /\
  snd (Parser.lookup "00:00:0C:11:22:33" (Fixtures.envWithText Fixtures.ciscoNaNLine)
         (Fixtures.readyParser Fixtures.ciscoNaNLine) Fixtures.diskWithArchive)
  = throw RangeError.
Proof. repeat split; vm_compute; reflexivity. Qed.

(** C4 (amended). [lookup] returns an entry only if, after stripping the
    separators and upper-casing, the remaining string consists of between
    6 and 12 hexadecimal digits: the pattern is [{6,12}], odd digit
    counts included. *)
Theorem C4_match_needs_6_to_12_hex_digits
    (E : env) (p p' : MacParser) (w w' : world) (mac : string) (e : entry) :
  Parser.lookup mac E p w = (p', w', ok (Some e)) ->
  (6 <= String.length (compactOf mac) <= 12)%nat /\
  allChars isUpperHex (compactOf mac) = true.
Proof. intros Hrun. apply validCompact_spec. by eapply lookup_hit_valid. Qed.

Lemma C4_witness :
  Parser.lookup "00-00-00-12-34-56" (Fixtures.envWithText Fixtures.xeroxLine)
    (newMacParser Fixtures.manufGz) Fixtures.diskWithArchive
  = (Fixtures.readyParser Fixtures.xeroxLine,
     World {[ Fixtures.manufGz := Inode "gz-bytes" 900 ]}
           [Access Fixtures.manufGz; ReadFile Fixtures.manufGz] [] [] 0,
     ok (Some Fixtures.xeroxEntry)) /\
  (6 <= String.length (compactOf "00-00-00-12-34-56") <= 12)%nat /\
  allChars isUpperHex (compactOf "00-00-00-12-34-56") = true.
Proof.
  assert (Parser.lookup "00-00-00-12-34-56" (Fixtures.envWithText Fixtures.xeroxLine)
            (newMacParser Fixtures.manufGz) Fixtures.diskWithArchive
          = (Fixtures.readyParser Fixtures.xeroxLine,
             World {[ Fixtures.manufGz := Inode "gz-bytes" 900 ]}
                   [Access Fixtures.manufGz; ReadFile Fixtures.manufGz] [] [] 0,
             ok (Some Fixtures.xeroxEntry))) as Hrun by (vm_compute; reflexivity).
  split; [exact Hrun|].
  exact (C4_match_needs_6_to_12_hex_digits _ _ _ _ _ _ _ Hrun).
Defined.

(** Seven digits are accepted: with the line [00:00:00 Xerox] in the
    file, the address [0000000] is answered with the Xerox entry. *)
Lemma C4_counterexample_seven_digits :
  String.length (compactOf "0000000") = 7%nat /\
  snd (Parser.lookup "0000000" (Fixtures.envWithText Fixtures.xeroxLine)
         (newMacParser Fixtures.manufGz) Fixtures.diskWithArchive)
  = ok (Some Fixtures.xeroxEntry).
Proof. split; vm_compute; reflexivity. Qed.

(** C5 (amended). On an initialised parser [lookup] is total over the
    malformed strings: for every string whose stripped, upper-cased form
    is not made of 6 to 12 hex digits, it returns [null], raises nothing
    and leaves the parser and the world as they were. *)
Theorem C5_malformed_is_no_match
    (E : env) (p : MacParser) (w : world) (mac : string) :
  _ready p = true ->
  ((String.length (compactOf mac) < 6)%nat \/
   (12 < String.length (compactOf mac))%nat \/
   allChars isUpperHex (compactOf mac) = false) ->
  Parser.lookup mac E p w = (p, w, ok None).
Proof.
  intros Hready Hbad. rewrite lookup_ready by done. unfold lookupIn.
  assert (validCompact (compactOf mac) = false) as ->; [|done].
  destruct (validCompact (compactOf mac)) eqn:Hv; [|done].
  apply validCompact_spec in Hv as [Hlen Hall].
  destruct Hbad as [?|[?|?]]; [lia | lia | congruence].
Qed.

Lemma C5_witness :
  _ready (Fixtures.readyParser Fixtures.xeroxLine) = true /\
  allChars isUpperHex (compactOf "not-hex") = false /\
  Parser.lookup "not-hex" (Fixtures.envWithText Fixtures.xeroxLine)
    (Fixtures.readyParser Fixtures.xeroxLine) Fixtures.emptyDisk
  = (Fixtures.readyParser Fixtures.xeroxLine, Fixtures.emptyDisk, ok None).
Proof.
  split; [reflexivity|]. split; [reflexivity|].
  apply (C5_malformed_is_no_match (Fixtures.envWithText Fixtures.xeroxLine)
           (Fixtures.readyParser Fixtures.xeroxLine) Fixtures.emptyDisk "not-hex"
           eq_refl).
  right. right. reflexivity.
Defined.

(** A parser that was never initialised runs [init] first: with the
    data file missing, [lookup] of a malformed string raises.  And nine
    digits, a count the design document calls wrong, are looked up. *)
Lemma C5_counterexample_raises :
  allChars isUpperHex (compactOf "not-hex") = false /\
  snd (Parser.lookup "not-hex" (Fixtures.envWithText Fixtures.xeroxLine)
         (newMacParser Fixtures.manufGz) Fixtures.emptyDisk)
  = throw (SystemError ENOENT (Access Fixtures.manufGz)) /\
  String.length (compactOf "00:00:00:00:0") = 9%nat /\
  snd (Parser.lookup "00:00:00:00:0" (Fixtures.envWithText Fixtures.xeroxLine)
         (newMacParser Fixtures.manufGz) Fixtures.diskWithArchive)
  = ok (Some Fixtures.xeroxEntry).
Proof. repeat split; vm_compute; reflexivity. Qed.

(** ** Building the index from the file *)

Lemma parseManuf_cases E p w :
  (exists err, Parser._parseManuf E p w = (p, logCall (ReadFile (manufPath p)) w, throw err))
  \/
  (exists gz text byBits,
     files w !! manufPath p = Some gz /\
     gunzipSync E (data gz) = Some text /\
     parseText text = ok byBits /\
     Parser._parseManuf E p w
     = (setSortedLens (sortedLensOf byBits) (setEntries byBits p),
        logCall (ReadFile (manufPath p)) w, ok tt)).
Proof.
  unfold Parser._parseManuf, readFileSync, gunzip, fsCall. run_method.
  destruct (fault E (ReadFile (manufPath p))) as [f|]; [left; eauto|].
  cbn [files logCall].
  destruct (files w !! manufPath p) as [gz|] eqn:Hgz; [|left; eauto].
  destruct (gunzipSync E (data gz)) as [text|] eqn:Hz; [|left; eauto].
  destruct (parseText text) as [err|byBits] eqn:Hp; [left; eauto|].
  right. exists gz, text, byBits. done.
Qed.

Lemma short_line_skipped rawLine :
  (length (lineParts (trim rawLine)) < 2)%nat -> parseLine rawLine = Skip.
Proof.
  intros Hlen. unfold parseLine.
  destruct (isEmpty (trim rawLine) || startsWithChar "#" (trim rawLine)); [done|].
  apply Nat.ltb_lt in Hlen. by rewrite Hlen.
Qed.

Lemma parseLines_app l1 l2 acc :
  parseLines (l1 ++ l2) acc = rbind (parseLines l1 acc) (parseLines l2).
Proof.
  revert acc. induction l1 as [|l r IH]; intros acc; simpl; [done|].
  destruct (parseLine l); [apply IH | apply IH | done].
Qed.

Lemma parseLines_skip before bad after acc :
  parseLine bad = Skip ->
  parseLines (before ++ bad :: after) acc = parseLines (before ++ after) acc.
Proof.
  intros Hbad. rewrite !parseLines_app. destruct (parseLines before acc); simpl; [done|].
  by rewrite Hbad.
Qed.

Lemma consHead_app c pre rest :
  pre <> [] -> consHead c (pre ++ rest) = consHead c pre ++ rest.
Proof. by destruct pre. Qed.

Lemma splitLines_cons c s :
  splitLines (String c s) =
  if Ascii.eqb c LF then EmptyString :: splitLines s
  else
    match s with
    | String d s' =>
        if Ascii.eqb c CR && Ascii.eqb d LF then EmptyString :: splitLines s'
        else consHead c (splitLines s)
    | EmptyString => consHead c (splitLines s)
    end.
Proof. reflexivity. Qed.

Lemma append_cons c s t : String.append (String c s) t = String c (String.append s t).
Proof. reflexivity. Qed.

(** Up to a line feed, a text splits into the same lines whatever follows. *)
Lemma splitLines_before_LF_bounded n :
  forall t, (String.length t <= n)%nat ->
    exists pre, pre <> [] /\
      forall r, splitLines (String.append t (String LF r)) = pre ++ splitLines r.
Proof.
  induction n as [|n IH]; intros t Hlen.
  - destruct t; [|simpl in Hlen; lia]. exists [EmptyString]. split; [done|]. done.
  - destruct t as [|c t]; [exists [EmptyString]; split; done|].
    simpl in Hlen.
    destruct (Ascii.eqb c LF) eqn:Hc.
    { destruct (IH t ltac:(lia)) as (pre & Hne & Hpre).
      exists (EmptyString :: pre). split; [done|]. intros r.
      by rewrite append_cons, splitLines_cons, Hc, Hpre. }
    destruct t as [|d t'].
    + destruct (Ascii.eqb c CR) eqn:Hcr.
      * exists [EmptyString]. split; [done|]. intros r.
        rewrite append_cons, splitLines_cons, Hc. simpl String.append.
        by rewrite Hcr.
      * exists [String c EmptyString]. split; [done|]. intros r.
        rewrite append_cons, splitLines_cons, Hc. simpl String.append.
        rewrite Hcr. reflexivity.
    + destruct (Ascii.eqb c CR && Ascii.eqb d LF) eqn:Hcrlf.
      * simpl in Hlen. destruct (IH t' ltac:(lia)) as (pre & Hne & Hpre).
        exists (EmptyString :: pre). split; [done|]. intros r.
        rewrite append_cons, splitLines_cons, Hc, append_cons, Hcrlf.
        by rewrite Hpre.
      * destruct (IH (String d t') ltac:(lia)) as (pre & Hne & Hpre).
        exists (consHead c pre). split; [by destruct pre|]. intros r.
        rewrite append_cons, splitLines_cons, Hc.
        specialize (Hpre r). rewrite append_cons in Hpre. rewrite append_cons, Hcrlf.
        rewrite Hpre. by apply consHead_app.
Qed.

Lemma splitLines_before_LF t :
  exists pre, forall r, splitLines (String.append t (String LF r)) = pre ++ splitLines r.
Proof.
  destruct (splitLines_before_LF_bounded (String.length t) t (le_n _)) as (pre & _ & H).
  by exists pre.
Qed.

(** A line without line breaks, followed by a line feed, is one line. *)
Lemma splitLines_plain_line line r :
  anyChar (fun c => Ascii.eqb c LF || Ascii.eqb c CR) line = false ->
  splitLines (String.append line (String LF r)) = line :: splitLines r.
Proof.
  induction line as [|c l IH]; intros Hplain.
  - done.
  - simpl in Hplain. apply orb_false_iff in Hplain as [Hc Hl].
    apply orb_false_iff in Hc as [Hlf Hcr].
    rewrite append_cons, splitLines_cons, Hlf, Hcr. cbn [andb].
    rewrite (IH Hl). by destruct (String.append l (String LF r)).
Qed.

(** C3. If [_parseManuf] raises (the file cannot be read, zlib refuses it,
    or a line makes the parse throw), the parser is exactly what it was
    before the call, [_entries] and [_sortedLens] included; when it
    returns, the two fields hold the index of the whole text and its
    search order, so that no state in between is ever installed; and a
    line with fewer than two fields is skipped: the text builds the
    index it builds without that line. *)
Theorem C3_failed_build_keeps_index (E : env) (p : MacParser) (w : world) :
  (forall p' w' err,
     Parser._parseManuf E p w = (p', w', throw err) ->
     p' = p /\ _entries p' = _entries p /\ _sortedLens p' = _sortedLens p) /\
  (forall p' w',
     Parser._parseManuf E p w = (p', w', ok tt) ->
     exists gz text,
       files w !! manufPath p = Some gz /\
       gunzipSync E (data gz) = Some text /\
       parseText text = ok (_entries p') /\
       _sortedLens p' = sortedLensOf (_entries p')) /\
  (forall before bad after : string,
     anyChar (fun c => Ascii.eqb c LF || Ascii.eqb c CR) bad = false ->
     (length (lineParts (trim bad)) < 2)%nat ->
     parseLine bad = Skip /\
     parseText (String.append before (String LF (String.append bad (String LF after))))
     = parseText (String.append before (String LF after))).
Proof.
  split; [|split].
  - intros p' w' err Hrun.
    destruct (parseManuf_cases E p w) as [(e & He)|(gz & text & byBits & _ & _ & _ & He)];
      rewrite He in Hrun; [|done].
    injection Hrun as <- _ _. done.
  - intros p' w' Hrun.
    destruct (parseManuf_cases E p w) as [(e & He)|(gz & text & byBits & Hgz & Hz & Hp & He)];
      rewrite He in Hrun; [done|].
    injection Hrun as <- _. exists gz, text. done.
  - intros before bad after Hplain Hshort.
    pose proof (short_line_skipped bad Hshort) as Hskip. split; [done|].
    unfold parseText. destruct (splitLines_before_LF before) as (pre & Hpre).
    rewrite !Hpre, splitLines_plain_line by done.
    by apply parseLines_skip.
Qed.

Lemma C3_witness :
  Parser._parseManuf (Fixtures.envWithText Fixtures.xeroxLine)
    (Fixtures.readyParser Fixtures.ieeeText) Fixtures.emptyDisk
  = (Fixtures.readyParser Fixtures.ieeeText,
     logCall (ReadFile Fixtures.manufGz) Fixtures.emptyDisk,
     throw (SystemError ENOENT (ReadFile Fixtures.manufGz))) /\
  _entries (Fixtures.readyParser Fixtures.ieeeText)
  = _entries (Fixtures.readyParser Fixtures.ieeeText) /\
  (length (lineParts (trim "junk")) < 2)%nat /\
  parseText (String.append Fixtures.xeroxLine
               (String LF (String.append "junk" (String LF Fixtures.cisco16Line))))
  = parseText (String.append Fixtures.xeroxLine (String LF Fixtures.cisco16Line)).
Proof.
  pose proof (C3_failed_build_keeps_index (Fixtures.envWithText Fixtures.xeroxLine)
                (Fixtures.readyParser Fixtures.ieeeText) Fixtures.emptyDisk)
    as (Hthrow & _ & Hskip).
  assert (Parser._parseManuf (Fixtures.envWithText Fixtures.xeroxLine)
            (Fixtures.readyParser Fixtures.ieeeText) Fixtures.emptyDisk
          = (Fixtures.readyParser Fixtures.ieeeText,
             logCall (ReadFile Fixtures.manufGz) Fixtures.emptyDisk,
             throw (SystemError ENOENT (ReadFile Fixtures.manufGz)))) as Hrun
    by (vm_compute; reflexivity).
  split; [exact Hrun|].
  split; [exact (proj1 (proj2 (Hthrow _ _ _ Hrun)))|].
  assert (length (lineParts (trim "junk")) < 2)%nat as Hshort by (vm_compute; lia).
  split; [exact Hshort|].
  exact (proj2 (Hskip Fixtures.xeroxLine "junk"%string Fixtures.cisco16Line eq_refl Hshort)).
Defined.

(** ** What a lookup does to the world *)

Lemma ensureManufFile_run E p w :
  exists r, Parser._ensureManufFile E p w = (p, logCall (Access (manufPath p)) w, r).
Proof.
  unfold Parser._ensureManufFile, access, fsCall. run_method.
  destruct (fault E (Access (manufPath p))); [eauto|].
  cbn [files logCall]. destruct (files w !! manufPath p); eauto.
Qed.

Lemma init_effects E p w p' w' r :
  Parser.init E p w = (p', w', r) ->
  manufPath p' = manufPath p /\
  files w' = files w /\ emitted w' = emitted w /\ called w' = called w /\
  timers w' = timers w /\
  exists calls, trace w' = trace w ++ calls /\ Forall (readsOnly (manufPath p)) calls.
Proof.
  unfold Parser.init. run_method. destruct (_ready p).
  { intros [= <- <- _]. split_and!; try done. exists []. by rewrite app_nil_r. }
  destruct (ensureManufFile_run E p w) as (r1 & ->).
  destruct r1 as [err|[]].
  { intros [= <- <- _]. split_and!; try done.
    exists [Access (manufPath p)]. split; [done|]. constructor; [by left | constructor]. }
  set (w1 := logCall (Access (manufPath p)) w).
  assert (exists calls, trace (logCall (ReadFile (manufPath p)) w1) = trace w ++ calls /\
                        Forall (readsOnly (manufPath p)) calls) as Htrace.
  { exists [Access (manufPath p); ReadFile (manufPath p)]. split.
    - simpl. by rewrite <- app_assoc.
    - constructor; [by left|]. constructor; [by right | constructor]. }
  destruct (parseManuf_cases E p w1) as [(e & ->)|(gz & text & byBits & _ & _ & _ & ->)].
  - intros [= <- <- _]. split_and!; try done.
  - intros [= <- <- _]. split_and!; try done.
Qed.

(** C8 (amended). A call to [lookup] on a parser that has been
    initialised performs no I/O at all: parser and world, trace of system
    calls included, are what they were.  On a parser not yet initialised
    the call first runs [init], whose only I/O is the access check and the
    read of the data file.  In both cases the files are unchanged, nothing
    is emitted and no timer is touched. *)
Theorem C8_lookup_io
    (E : env) (p p' : MacParser) (w w' : world) (mac : string)
    (r : result (option entry)) :
  Parser.lookup mac E p w = (p', w', r) ->
  (_ready p = true -> p' = p /\ w' = w) /\
  files w' = files w /\
  emitted w' = emitted w /\ called w' = called w /\ timers w' = timers w /\
  exists calls,
    trace w' = trace w ++ calls /\ Forall (readsOnly (manufPath p)) calls.
Proof.
  intros Hrun. split.
  { intros Hready. rewrite lookup_ready in Hrun by done. by injection Hrun as <- <- _. }
  unfold Parser.lookup in Hrun. run_method.
  destruct (Parser.init E p w) as [[p1 w1] r1] eqn:Hinit.
  apply init_effects in Hinit as (_ & Hf & He & Hc & Ht & Htr).
  destruct r1 as [err|[]]; injection Hrun as <- <- _; done.
Qed.

Lemma C8_witness :
  Parser.lookup "00:00:00:12:34:56" (Fixtures.envWithText Fixtures.xeroxLine)
    (Fixtures.readyParser Fixtures.xeroxLine) Fixtures.diskWithArchive
  = (Fixtures.readyParser Fixtures.xeroxLine, Fixtures.diskWithArchive,
     ok (Some Fixtures.xeroxEntry)) /\
  (_ready (Fixtures.readyParser Fixtures.xeroxLine) = true ->
   Fixtures.readyParser Fixtures.xeroxLine = Fixtures.readyParser Fixtures.xeroxLine /\
   Fixtures.diskWithArchive = Fixtures.diskWithArchive) /\
  files Fixtures.diskWithArchive = files Fixtures.diskWithArchive.
Proof.
  assert (Parser.lookup "00:00:00:12:34:56" (Fixtures.envWithText Fixtures.xeroxLine)
            (Fixtures.readyParser Fixtures.xeroxLine) Fixtures.diskWithArchive
          = (Fixtures.readyParser Fixtures.xeroxLine, Fixtures.diskWithArchive,
             ok (Some Fixtures.xeroxEntry))) as Hrun by (vm_compute; reflexivity).
  split; [exact Hrun|].
  pose proof (C8_lookup_io _ _ _ _ _ _ _ Hrun) as (Hsame & Hfiles & _).
  split; [exact Hsame | exact Hfiles].
Defined.

(** A first lookup on a fresh parser goes to the disk: it checks and
    reads the data file before it answers. *)
Lemma C8_counterexample_first_lookup_reads :
  trace Fixtures.diskWithArchive = [] /\
  trace (snd (fst (Parser.lookup "00:00:00:12:34:56"
                     (Fixtures.envWithText Fixtures.xeroxLine)
                     (newMacParser Fixtures.manufGz) Fixtures.diskWithArchive)))
  = [Access Fixtures.manufGz; ReadFile Fixtures.manufGz].
Proof. split; vm_compute; reflexivity. Qed.

(** ** The downloader, step by step *)

Lemma bind_this {S B} (k : S -> M S B) E s w : (x <- this ;; k x) E s w = k s E s w.
Proof. reflexivity. Qed.

Lemma bind_ask {S B} (k : env -> M S B) E s w : (x <- ask ;; k x) E s w = k E E s w.
Proof. reflexivity. Qed.

Lemma fetchBody_run E d s w :
  Scheduler.fetchBody d E s w
  = (s, logCall (HttpGet (url d)) w,
     match remote E (url d) with
     | inl err => throw err
     | inr (statusCode, buf) =>
         if (statusCode <? 200) || (300 <=? statusCode)
         then throw (HttpError statusCode (url d)) else ok buf
     end).
Proof.
  unfold Scheduler.fetchBody, httpGet. run_method.
  destruct (remote E (url d)) as [err|[statusCode buf]]; [done|].
  by destruct ((statusCode <? 200) || (300 <=? statusCode)).
Qed.

Lemma emit_updated_run E d w f u t :
  Scheduler.emit (Updated f u t) E d w
  = (d, logEvent (Updated f u t) (Scheduler.listenersOf updated d) w, ok tt).
Proof. reflexivity. Qed.

(** A [catch] block always throws, and touches neither files nor trace. *)
Lemma report_run {A} emitErrors stage d0 err E d w :
  exists w' err',
    @Scheduler.report A emitErrors stage d0 err E d w = (d, w', throw err') /\
    files w' = files w /\ trace w' = trace w /\ timers w' = timers w.
Proof.
  unfold Scheduler.report, Scheduler.emit. run_method.
  destruct emitErrors; [|by exists w, err].
  cbn [nameOf]. destruct (Scheduler.listenersOf errorEvent d) as [|l ls].
  - by exists w, UnhandledError.
  - by eexists _, err.
Qed.

Lemma length_append s t :
  String.length (String.append s t) = (String.length s + String.length t)%nat.
Proof. induction s as [|c s IH]; simpl; [done | by rewrite IH]. Qed.

Lemma tmpPath_fresh f now : tmpPath f now <> f.
Proof.
  unfold tmpPath. intros Heq.
  apply (f_equal String.length) in Heq.
  rewrite !length_append in Heq. simpl in Heq. lia.
Qed.

(** The write to disk: where it can stop, and what the files are then. *)
Lemma writeToDisk_cases E d body s w s' w' r :
  Scheduler.writeToDisk d body E s w = (s', w', r) ->
  let tmp := tmpPath (filePath d) (clock E) in
  let dir := dirname (filePath d) in
  s' = s /\ emitted w' = emitted w /\ called w' = called w /\ timers w' = timers w /\
  ((exists err, r = throw err /\ files w' = files w /\
                trace w' = trace w ++ [Mkdir dir])
   \/ (exists err, r = throw err /\
         (files w' = files w \/
          exists part, files w' = <[tmp := Inode part (clock E)]> (files w)) /\
         trace w' = trace w ++ [Mkdir dir; WriteFile tmp body])
   \/ (exists err, r = throw err /\
         files w' = <[tmp := Inode body (clock E)]> (files w) /\
         trace w' = trace w ++ [Mkdir dir; WriteFile tmp body; Rename tmp (filePath d)])
   \/ (r = ok tt /\
       files w' = <[filePath d := Inode body (clock E)]>
                    (delete tmp (<[tmp := Inode body (clock E)]> (files w))) /\
       trace w' = trace w ++ [Mkdir dir; WriteFile tmp body; Rename tmp (filePath d)])).
Proof.
  intros Hrun tmp dir. revert Hrun.
  unfold Scheduler.writeToDisk, mkdir, writeFile, rename, fsCall. run_method.
  fold tmp dir.
  destruct (fault E (Mkdir dir)) as [f|].
  { intros [= <- <- <-]. split_and!; try done. left. eauto. }
  cbn [files logCall].
  destruct (files w !! dir) as [existing|].
  { intros [= <- <- <-]. split_and!; try done. left. eauto. }
  destruct (fault E (WriteFile tmp body)) as [f|].
  { intros [= <- <- <-]. split_and!; try by destruct (residue f).
    right. left. exists (SystemError (code f) (WriteFile tmp body)).
    split; [done|]. destruct (residue f) as [part|]; cbn; split.
    - right. by exists part.
    - by rewrite <- app_assoc.
    - by left.
    - by rewrite <- app_assoc. }
  cbn [files logCall setFiles trace].
  destruct (fault E (Rename tmp (filePath d))) as [f|].
  { intros [= <- <- <-]. split_and!; try done. right. right. left.
    eexists. split; [done|]. cbn. split; [done|]. by rewrite <- !app_assoc. }
  cbn [files logCall setFiles trace]. rewrite lookup_insert_eq.
  intros [= <- <- <-]. split_and!; try done. right. right. right.
  split; [done|]. cbn. split; [done|]. by rewrite <- !app_assoc.
Qed.

(** What [_downloadFile] can do: fail somewhere along the four system
    calls, or succeed and emit ['updated']. *)
Lemma downloadFile_cases emitErrors emitUpdate E d w d' w' r :
  Scheduler._downloadFile emitErrors emitUpdate E d w = (d', w', r) ->
  let tmp := tmpPath (filePath d) (clock E) in
  let dir := dirname (filePath d) in
  d' = d /\ timers w' = timers w /\
  ((exists err body calls,
      r = throw err /\
      (files w' = files w \/
       exists part, files w' = <[tmp := Inode part (clock E)]> (files w)) /\
      trace w' = trace w ++ calls /\
      calls `prefix_of`
        [HttpGet (url d); Mkdir dir; WriteFile tmp body; Rename tmp (filePath d)])
   \/ (exists statusCode body,
         r = ok tt /\
         remote E (url d) = ok (statusCode, body) /\
         200 <= statusCode < 300 /\
         files w' = <[filePath d := Inode body (clock E)]>
                      (delete tmp (<[tmp := Inode body (clock E)]> (files w))) /\
         trace w' = trace w ++
           [HttpGet (url d); Mkdir dir; WriteFile tmp body; Rename tmp (filePath d)] /\
         emitted w' = emitted w ++ [Updated (filePath d) (url d) (clock E)] /\
         called w' = called w ++
           map (fun l => (l, Updated (filePath d) (url d) (clock E)))
               (Scheduler.listenersOf updated d))).
Proof.
  intros Hrun tmp dir. revert Hrun.
  unfold Scheduler._downloadFile.
  rewrite bind_this. unfold bind at 1. unfold tryCatch at 1. rewrite fetchBody_run.
  destruct (remote E (url d)) as [err|[statusCode body]] eqn:Hremote.
  { unfold throw.
    destruct (report_run (A := string) emitErrors "download" d err E d
                (logCall (HttpGet (url d)) w)) as (w1 & e1 & -> & Hf & Ht & Htm).
    intros [= <- <- <-]. split_and!; try done. left.
    exists e1, EmptyString, [HttpGet (url d)].
    split_and!; [done | by left | by rewrite Ht |].
    by eexists. }
  destruct ((statusCode <? 200) || (300 <=? statusCode)) eqn:Hstatus.
  { unfold throw.
    destruct (report_run (A := string) emitErrors "download" d
                (HttpError statusCode (url d)) E d
                (logCall (HttpGet (url d)) w)) as (w1 & e1 & -> & Hf & Ht & Htm).
    intros [= <- <- <-]. split_and!; try done. left.
    exists e1, EmptyString, [HttpGet (url d)].
    split_and!; [done | by left | by rewrite Ht |].
    by eexists. }
  unfold ok at 1. cbn beta iota.
  unfold bind at 1. unfold tryCatch at 1.
  destruct (Scheduler.writeToDisk d body E d (logCall (HttpGet (url d)) w))
    as [[d1 w1] r1] eqn:Hwrite.
  apply writeToDisk_cases in Hwrite as (-> & Hem & Hca & Htm & Hcases).
  fold tmp dir in Hcases. cbn [files logCall trace] in Hcases.
  unfold throw, ok in Hcases.
  destruct Hcases as [(err & -> & Hf & Ht)|[(err & -> & Hf & Ht)|
                     [(err & -> & Hf & Ht)|(-> & Hf & Ht)]]].
  - destruct (report_run (A := unit) emitErrors "write" d err E d w1)
      as (w2 & e2 & -> & Hf2 & Ht2 & Htm2).
    intros [= <- <- <-]. split_and!; [done | by rewrite Htm2, Htm |]. left.
    exists e2, body, [HttpGet (url d); Mkdir dir].
    split_and!; [done | left; by rewrite Hf2, Hf | | by eexists].
    rewrite Ht2, Ht. by rewrite <- app_assoc.
  - destruct (report_run (A := unit) emitErrors "write" d err E d w1)
      as (w2 & e2 & -> & Hf2 & Ht2 & Htm2).
    intros [= <- <- <-]. split_and!; [done | by rewrite Htm2, Htm |]. left.
    exists e2, body, [HttpGet (url d); Mkdir dir; WriteFile tmp body].
    split_and!; [done | by rewrite Hf2 | | by eexists].
    rewrite Ht2, Ht. by rewrite <- app_assoc.
  - destruct (report_run (A := unit) emitErrors "write" d err E d w1)
      as (w2 & e2 & -> & Hf2 & Ht2 & Htm2).
    intros [= <- <- <-]. split_and!; [done | by rewrite Htm2, Htm |]. left.
    exists e2, body,
      [HttpGet (url d); Mkdir dir; WriteFile tmp body; Rename tmp (filePath d)].
    split_and!; [done | right; exists body; by rewrite Hf2 | | done].
    rewrite Ht2, Ht. by rewrite <- app_assoc.
  - rewrite bind_ask, emit_updated_run.
    intros [= <- <- <-]. split_and!; [done | done |]. right.
    exists statusCode, body. cbn [files trace emitted called logEvent].
    split_and!;
      [ done | done | apply orb_false_iff in Hstatus as [H1 H2]; lia
      | lia | by rewrite Hf | rewrite Ht; by rewrite <- app_assoc
      | by rewrite Hem | by rewrite Hca ].
Qed.

(** ** The temporary file sits next to the destination *)

Lemma list_ascii_of_append s t :
  list_ascii_of_string (String.append s t)
  = list_ascii_of_string s ++ list_ascii_of_string t.
Proof. induction s as [|c s IH]; simpl; [done | by rewrite IH]. Qed.

Lemma allChars_Forall p s :
  allChars p s = true -> Forall (fun c => p c = true) (list_ascii_of_string s).
Proof.
  induction s as [|c s IH]; simpl; [constructor|].
  intros [Hc Hs]%andb_true_iff. constructor; [done | by apply IH].
Qed.

Lemma digits_no_slash u :
  allChars (fun c => negb (isSlash c)) (NilEmpty.string_of_uint u) = true.
Proof. induction u; simpl; [done|..]; exact IHu. Qed.

Lemma uint_no_slash u :
  allChars (fun c => negb (isSlash c)) (NilZero.string_of_uint u) = true.
Proof. destruct u; try done; apply (digits_no_slash (_ u)). Qed.

Lemma decimal_no_slash n :
  allChars (fun c => negb (isSlash c)) (decimal n) = true.
Proof.
  unfold decimal. destruct (Z.to_int n) as [u|u]; simpl; apply uint_no_slash.
Qed.

Lemma dropWhile_app_all {A} (p : A -> bool) l r :
  Forall (fun x => p x = true) l -> dropWhile p (l ++ r) = dropWhile p r.
Proof. induction 1 as [|x l Hx Hl IH]; simpl; [done | by rewrite Hx]. Qed.

Lemma dropWhile_stops {A} (p : A -> bool) l :
  match l with x :: _ => p x = false | [] => True end -> dropWhile p l = l.
Proof. destruct l as [|x l]; simpl; [done | by intros ->]. Qed.

Lemma dirname_tmpPath f now :
  namesFile f = true -> dirname (tmpPath f now) = dirname f.
Proof.
  unfold namesFile, tmpPath. destruct f as [|c0 rest]; [done|].
  set (suffix := String.append ".tmp-" (decimal now)).
  rewrite append_cons. cbn [dirname list_ascii_of_string rev].
  rewrite list_ascii_of_append, rev_app_distr.
  set (R := rev (list_ascii_of_string rest)).
  set (S := rev (list_ascii_of_string suffix)).
  assert (Forall (fun c => negb (isSlash c) = true) S) as Hs.
  { apply Forall_rev, allChars_Forall. simpl. apply decimal_no_slash. }
  assert (S <> []) as Hne.
  { subst S suffix. rewrite append_cons. cbn [list_ascii_of_string rev].
    by destruct (rev (list_ascii_of_string (String.append "tmp-" (decimal now)))). }
  intros Hfile.
  assert (dropWhile isSlash (S ++ R) = S ++ R) as ->.
  { apply dropWhile_stops. destruct S as [|x S']; [done|]. simpl.
    apply Forall_cons in Hs as [Hx _]. by apply negb_true_iff. }
  rewrite (dropWhile_app_all (fun c => negb (isSlash c)) S R Hs).
  assert (dropWhile isSlash R = R) as ->; [|done].
  apply dropWhile_stops. destruct R as [|x R']; [done|].
  simpl in Hfile. by apply negb_true_iff.
Qed.

(** C2. Every download writes its payload to the temporary file
    [<destination>.tmp-<now>] only, a path that differs from the
    destination and lies in the destination's directory, and touches the
    destination by nothing but the rename of that file onto it; so
    whenever the download fails, at whichever step, the destination holds
    exactly what it held before, and when it succeeds the destination
    holds the whole payload.  No other file changes. *)
Theorem C2_download_never_writes_destination
    (emitErrors emitUpdate : bool) (E : env) (d d' : ScheduledFileDownloader)
    (w w' : world) (r : result unit) :
  Scheduler._downloadFile emitErrors emitUpdate E d w = (d', w', r) ->
  let tmp := tmpPath (filePath d) (clock E) in
  tmp <> filePath d /\
  (namesFile (filePath d) = true -> dirname tmp = dirname (filePath d)) /\
  (exists calls,
     trace w' = trace w ++ calls /\
     (forall path body, WriteFile path body ∈ calls -> path = tmp) /\
     (forall src dst, Rename src dst ∈ calls -> src = tmp /\ dst = filePath d)) /\
  (forall err, r = throw err -> files w' !! filePath d = files w !! filePath d) /\
  (r = ok tt ->
   exists statusCode body,
     remote E (url d) = ok (statusCode, body) /\
     files w' !! filePath d = Some (Inode body (clock E))) /\
  (forall path, path <> tmp -> path <> filePath d ->
     files w' !! path = files w !! path).
Proof.
  intros Hrun tmp.
  pose proof (tmpPath_fresh (filePath d) (clock E)) as Hfresh. fold tmp in Hfresh.
  apply downloadFile_cases in Hrun as (-> & _ & Hcases). fold tmp in Hcases.
  split; [done|]. split; [apply dirname_tmpPath|].
  destruct Hcases as [(err & body & calls & -> & Hfiles & Htrace & [rest Hprefix])|
                      (statusCode & body & -> & Hremote & _ & Hfiles & Htrace & _)].
  - split; [|split; [|split]].
    + exists calls. split; [done|].
      assert (forall c, c ∈ calls ->
                c ∈ [HttpGet (url d); Mkdir (dirname (filePath d));
                     WriteFile tmp body; Rename tmp (filePath d)]) as Hin.
      { intros c Hc. rewrite Hprefix. apply elem_of_app. by left. }
      split.
      * intros path b Hc. apply Hin in Hc.
        repeat (apply elem_of_cons in Hc as [Hc|Hc]; [by simplify_eq|]).
        by apply elem_of_nil in Hc.
      * intros src dst Hc. apply Hin in Hc.
        repeat (apply elem_of_cons in Hc as [Hc|Hc]; [by simplify_eq|]).
        by apply elem_of_nil in Hc.
    + intros _ _. destruct Hfiles as [->|(part & ->)]; [done|].
      by rewrite lookup_insert_ne.
    + unfold throw, ok. done.
    + intros path Hp _.
      destruct Hfiles as [->|(part & ->)]; [done|]. by rewrite lookup_insert_ne.
  - split; [|split; [|split]].
    + eexists. split; [exact Htrace|]. split.
      * intros path b Hc.
        repeat (apply elem_of_cons in Hc as [Hc|Hc]; [by simplify_eq|]).
        by apply elem_of_nil in Hc.
      * intros src dst Hc.
        repeat (apply elem_of_cons in Hc as [Hc|Hc]; [by simplify_eq|]).
        by apply elem_of_nil in Hc.
    + unfold throw, ok. done.
    + intros _. exists statusCode, body. split; [done|].
      rewrite Hfiles. apply lookup_insert_eq.
    + intros path Hp Hd. rewrite Hfiles.
      rewrite lookup_insert_ne by done. rewrite lookup_delete_ne by done.
      by rewrite lookup_insert_ne.
Qed.

Lemma C2_witness :
  namesFile Fixtures.manufGz = true /\
  snd (Scheduler._downloadFile true true (Fixtures.envDiskFull "new-archive" "new-")
         Fixtures.aDownloader Fixtures.diskWithArchive)
  = throw (SystemError "ENOSPC" (WriteFile "data/manuf.gz.tmp-1000" "new-archive")) /\
  dirname "data/manuf.gz.tmp-1000" = dirname "data/manuf.gz" /\
  files (snd (fst (Scheduler._downloadFile true true
                     (Fixtures.envDiskFull "new-archive" "new-")
                     Fixtures.aDownloader Fixtures.diskWithArchive)))
    !! Fixtures.manufGz
  = Some (Inode "gz-bytes" 900) /\
  files (snd (fst (Scheduler._downloadFile true true
                     (Fixtures.envDiskFull "new-archive" "new-")
                     Fixtures.aDownloader Fixtures.diskWithArchive)))
    !! "data/manuf.gz.tmp-1000"%string
  = Some (Inode "new-" 1000).
Proof.
  set (run := Scheduler._downloadFile true true
                (Fixtures.envDiskFull "new-archive" "new-")
                Fixtures.aDownloader Fixtures.diskWithArchive).
  assert (run = (fst (fst run), snd (fst run), snd run)) as Hrun
    by by destruct run as [[? ?] ?].
  assert (snd run
          = throw (SystemError "ENOSPC"
                     (WriteFile "data/manuf.gz.tmp-1000" "new-archive"))) as Hr
    by (vm_compute; reflexivity).
  pose proof (C2_download_never_writes_destination true true
                (Fixtures.envDiskFull "new-archive" "new-") Fixtures.aDownloader _
                Fixtures.diskWithArchive _ _ Hrun)
    as (_ & Hdir & _ & Hkeep & _).
  split; [reflexivity|]. split; [exact Hr|].
  split; [exact (Hdir eq_refl)|].
  split; [|vm_compute; reflexivity].
  transitivity (files Fixtures.diskWithArchive !! filePath Fixtures.aDownloader);
    [exact (Hkeep _ Hr) | vm_compute; reflexivity].
Defined.

(** ** Staleness *)

(** C7. [_isExpired] makes one [stat] call on the destination and
    answers by it: [true] when the call fails with [ENOENT]; [true] when
    it gives a last-modified time earlier than the most recent trigger
    time the cron library computes at the current moment, [false] when
    the time is not earlier; any other failure of the call is thrown on
    to the caller, never turned into an answer. *)
Theorem C7_isExpired_is_staleness
    (E : env) (d d' : ScheduledFileDownloader) (w w' : world) (r : result bool) :
  Scheduler._isExpired E d w = (d', w', r) ->
  exists st : result Z,
    stat (filePath d) E d w = (d', w', st) /\
    d' = d /\ w' = logCall (Stat (filePath d)) w /\
    (forall c call, st = throw (SystemError c call) -> c = ENOENT -> r = ok true) /\
    (forall c call, st = throw (SystemError c call) -> c <> ENOENT ->
       r = throw (SystemError c call)) /\
    (files w !! filePath d = None -> fault E (Stat (filePath d)) = None -> r = ok true) /\
    (forall mtime lastDue,
       st = ok mtime -> cronPrev E (cron d) (clock E) = Some lastDue ->
       (mtime < lastDue -> r = ok true) /\ (lastDue <= mtime -> r = ok false)) /\
    (forall err, r = throw err -> err = CronError \/ st = throw err).
Proof.
  unfold Scheduler._isExpired. rewrite bind_this.
  unfold bind at 1. unfold tryCatch at 1. unfold bind at 1.
  unfold stat, fsCall.
  destruct (fault E (Stat (filePath d))) as [f|] eqn:Hfault.
  { unfold throw at 1. cbn beta iota. cbn [Scheduler.isNotFound].
    destruct (String.eqb (code f) ENOENT) eqn:Hcode;
      [apply String.eqb_eq in Hcode | apply String.eqb_neq in Hcode];
      run_method; intros [= <- <- <-]; eexists; (split; [done|]);
      split_and!; try done;
      try (intros c call [= <- <-] ?; done);
      try (intros mtime lastDue [=]);
      try (intros err [= <-]; by right). }
  cbn [files logCall].
  destruct (files w !! filePath d) as [ino|] eqn:Hfile.
  - run_method.
    destruct (cronPrev E (cron d) (clock E)) as [lastDue|] eqn:Hcron;
      intros [= <- <- <-]; eexists; (split; [done|]);
      split_and!; try done;
      try (intros err [= <-]; by left).
    intros mtime lastDue' [= <-] [= <-]. split; intros Hcmp; do 2 f_equal; lia.
  - run_method. intros [= <- <- <-]. eexists. split; [done|].
    split_and!; try done;
      try (intros c call [= <- <-] ?; done);
      try (intros mtime lastDue [=]).
Qed.

Lemma C7_witness :
  Scheduler._isExpired (Fixtures.envOnline "new-archive") Fixtures.aDownloader
    Fixtures.diskWithArchive
  = (Fixtures.aDownloader, logCall (Stat Fixtures.manufGz) Fixtures.diskWithArchive,
     ok false) /\
  Scheduler._isExpired (Fixtures.envOnline "new-archive") Fixtures.aDownloader
    Fixtures.emptyDisk
  = (Fixtures.aDownloader, logCall (Stat Fixtures.manufGz) Fixtures.emptyDisk,
     ok true) /\
  exists st : result Z,
    stat Fixtures.manufGz (Fixtures.envOnline "new-archive") Fixtures.aDownloader
      Fixtures.emptyDisk
    = (Fixtures.aDownloader, logCall (Stat Fixtures.manufGz) Fixtures.emptyDisk, st).
Proof.
  split; [vm_compute; reflexivity|].
  assert (Scheduler._isExpired (Fixtures.envOnline "new-archive") Fixtures.aDownloader
            Fixtures.emptyDisk
          = (Fixtures.aDownloader, logCall (Stat Fixtures.manufGz) Fixtures.emptyDisk,
             ok true)) as Hrun by (vm_compute; reflexivity).
  split; [exact Hrun|].
  destruct (C7_isExpired_is_staleness _ _ _ _ _ _ Hrun) as (st & Hst & _).
  exists st. exact Hst.
Defined.

(** ** The ['updated'] notification *)

Lemma isExpired_missing E d w :
  fault E (Stat (filePath d)) = None -> files w !! filePath d = None ->
  Scheduler._isExpired E d w = (d, logCall (Stat (filePath d)) w, ok true).
Proof.
  intros Hfault Hfile. unfold Scheduler._isExpired. rewrite bind_this.
  unfold bind at 1. unfold tryCatch at 1. unfold bind at 1.
  unfold stat, fsCall. rewrite Hfault. cbn [files logCall]. by rewrite Hfile.
Qed.

Lemma writeToDisk_ok E d body s w :
  (forall c, fault E c = None) -> files w !! dirname (filePath d) = None ->
  exists w',
    Scheduler.writeToDisk d body E s w = (s, w', ok tt) /\
    emitted w' = emitted w /\ called w' = called w.
Proof.
  intros Hfault Hdir.
  unfold Scheduler.writeToDisk, mkdir, writeFile, rename, fsCall. run_method.
  rewrite !Hfault. cbn [files logCall setFiles]. rewrite Hdir, lookup_insert_eq.
  eexists. split; [reflexivity|]. done.
Qed.

Lemma downloadFile_ok emitErrors emitUpdate E d w statusCode body :
  (forall c, fault E c = None) -> files w !! dirname (filePath d) = None ->
  remote E (url d) = ok (statusCode, body) -> 200 <= statusCode < 300 ->
  exists w', Scheduler._downloadFile emitErrors emitUpdate E d w = (d, w', ok tt).
Proof.
  intros Hfault Hdir Hremote Hstatus. unfold Scheduler._downloadFile.
  rewrite bind_this. unfold bind at 1. unfold tryCatch at 1.
  unfold ok in Hremote. rewrite fetchBody_run, Hremote. cbn beta iota.
  assert ((statusCode <? 200) || (300 <=? statusCode) = false) as ->
    by (apply orb_false_iff; lia).
  unfold ok at 1. cbn beta iota. unfold bind at 1. unfold tryCatch at 1.
  destruct (writeToDisk_ok E d body d (logCall (HttpGet (url d)) w) Hfault Hdir)
    as (w1 & -> & _).
  unfold ok at 1. cbn beta iota. rewrite bind_ask, emit_updated_run. eauto.
Qed.

(** [init] with a stale file and a download that succeeds. *)
Lemma init_after_download E d w w1 w2 :
  Scheduler._isExpired E d w = (d, w1, ok true) ->
  Scheduler._downloadFile (negb (throwErrorsOnInit d)) false E d w1 = (d, w2, ok tt) ->
  exists d' w',
    Scheduler.init E d w = (d', w', ok tt) /\
    emitted w' = emitted w2 /\ called w' = called w2.
Proof.
  intros Hexp Hdl. unfold Scheduler.init. rewrite bind_this.
  unfold bind at 1. unfold tryCatch at 1. rewrite Hexp.
  unfold ok at 1. cbn beta iota.
  unfold bind at 1. unfold when. unfold tryCatch at 1. rewrite Hdl.
  unfold ok at 1. cbn beta iota.
  unfold Scheduler._scheduleRecurringJob.
  destruct (scheduleJob E (cron d)); eexists _, _; (split; [reflexivity|]); done.
Qed.

(** C10. [_downloadFile] ignores its [emitUpdate] option: the call with
    the option off is the call with the option on; every download that
    succeeds emits ['updated'] and calls the listeners of that event; so
    does the first download made inside [init], which passes
    [emitUpdate: false]; and on the integration's first start, where the
    rebuild handler is registered before [init] runs, a stale data file
    and a download that succeeds have that handler called during
    initialisation. *)
Theorem C10_updated_emitted_on_init :
  (forall emitErrors, Scheduler._downloadFile emitErrors false
                      = Scheduler._downloadFile emitErrors true) /\
  (forall emitErrors emitUpdate E d w d' w',
     Scheduler._downloadFile emitErrors emitUpdate E d w = (d', w', ok tt) ->
     emitted w' = emitted w ++ [Updated (filePath d) (url d) (clock E)] /\
     called w' = called w ++
       map (fun l => (l, Updated (filePath d) (url d) (clock E)))
           (Scheduler.listenersOf updated d)) /\
  (forall E d w w1 w2,
     Scheduler._isExpired E d w = (d, w1, ok true) ->
     Scheduler._downloadFile (negb (throwErrorsOnInit d)) false E d w1
     = (d, w2, ok tt) ->
     exists d' w',
       Scheduler.init E d w = (d', w', ok tt) /\
       emitted w' = emitted w1 ++ [Updated (filePath d) (url d) (clock E)] /\
       called w' = called w1 ++
         map (fun l => (l, Updated (filePath d) (url d) (clock E)))
             (Scheduler.listenersOf updated d)) /\
  (forall E w manufFilePath statusCode body,
     (forall c, fault E c = None) ->
     files w !! manufFilePath = None ->
     files w !! dirname manufFilePath = None ->
     remote E Integration.MANUF_GZ_URL = ok (statusCode, body) ->
     200 <= statusCode < 300 ->
     exists s' w' r,
       Integration.maybeInitializeParserAndDownloader manufFilePath true E
         (Integration.mkState None None) w = (s', w', r) /\
       emitted w' = emitted w ++
         [Updated manufFilePath Integration.MANUF_GZ_URL (clock E)] /\
       called w' = called w ++
         [(manufFileUpdated,
           Updated manufFilePath Integration.MANUF_GZ_URL (clock E))]).
Proof.
  split; [reflexivity|].
  assert (forall emitErrors emitUpdate E d w d' w',
     Scheduler._downloadFile emitErrors emitUpdate E d w = (d', w', ok tt) ->
     emitted w' = emitted w ++ [Updated (filePath d) (url d) (clock E)] /\
     called w' = called w ++
       map (fun l => (l, Updated (filePath d) (url d) (clock E)))
           (Scheduler.listenersOf updated d)) as Hemits.
  { intros emitErrors emitUpdate E d w d' w' Hrun.
    apply downloadFile_cases in Hrun as (_ & _ & [(err & ? & ? & Hr & _)|Hok]).
    - unfold throw, ok in Hr. done.
    - destruct Hok as (? & ? & _ & _ & _ & _ & _ & He & Hc). done. }
  split; [exact Hemits|].
  assert (forall E d w w1 w2,
     Scheduler._isExpired E d w = (d, w1, ok true) ->
     Scheduler._downloadFile (negb (throwErrorsOnInit d)) false E d w1
     = (d, w2, ok tt) ->
     exists d' w',
       Scheduler.init E d w = (d', w', ok tt) /\
       emitted w' = emitted w1 ++ [Updated (filePath d) (url d) (clock E)] /\
       called w' = called w1 ++
         map (fun l => (l, Updated (filePath d) (url d) (clock E)))
             (Scheduler.listenersOf updated d)) as Hinit.
  { intros E d w w1 w2 Hexp Hdl.
    destruct (init_after_download E d w w1 w2 Hexp Hdl) as (d' & w' & Hrun & He & Hc).
    destruct (Hemits _ _ _ _ _ _ _ Hdl) as [He2 Hc2].
    exists d', w'. split; [done|].
    by rewrite He, Hc. }
  split; [exact Hinit|].
  intros E w path statusCode body Hfault Hfile Hdir Hremote Hstatus.
  set (d1 := mkDownloader Integration.MANUF_GZ_URL path Integration.FILE_UPDATE_CRON
               true None
               [(updated, manufFileUpdated); (errorEvent, manufFileUpdateError)]).
  pose proof (isExpired_missing E d1 w (Hfault _) Hfile) as Hexp.
  destruct (downloadFile_ok (negb (throwErrorsOnInit d1)) false E d1
              (logCall (Stat (filePath d1)) w) statusCode body Hfault Hdir Hremote
              Hstatus) as (w2 & Hdl).
  destruct (Hinit E d1 w _ w2 Hexp Hdl) as (d' & w3 & Hrun & He & Hc).
  unfold Integration.maybeInitializeParserAndDownloader.
  rewrite bind_this. cbn [Integration.fileDownloader Integration.parser].
  unfold bind at 1. unfold when. unfold Integration.onDownloader at 1.
  unfold bind at 1. unfold Scheduler.on at 1. unfold assign at 1.
  unfold ok at 1. cbn beta iota.
  unfold bind at 1. unfold Scheduler.on at 1. unfold assign at 1.
  unfold ok at 1. cbn beta iota.
  unfold tryCatch at 1.
  change (setListeners _ (setListeners _ _)) with d1.
  rewrite Hrun. unfold ok at 1. cbn beta iota.
  unfold Integration.onParser.
  destruct (Parser.init E (newMacParser path) w3) as [[p4 w4] r4] eqn:Hparse.
  apply init_effects in Hparse as (_ & _ & He4 & Hc4 & _).
  eexists _, _, _. split; [reflexivity|].
  rewrite He4, Hc4, He, Hc. done.
Qed.

Lemma C10_witness :
  files Fixtures.emptyDisk !! Fixtures.manufGz = None /\
  remote (Fixtures.envOnline "new-archive") Integration.MANUF_GZ_URL
  = ok (200, "new-archive"%string) /\
  exists s' w' r,
    Integration.maybeInitializeParserAndDownloader Fixtures.manufGz true
      (Fixtures.envOnline "new-archive") (Integration.mkState None None)
      Fixtures.emptyDisk = (s', w', r) /\
    emitted w' = emitted Fixtures.emptyDisk ++
      [Updated Fixtures.manufGz Integration.MANUF_GZ_URL 1000] /\
    called w' = called Fixtures.emptyDisk ++
      [(manufFileUpdated, Updated Fixtures.manufGz Integration.MANUF_GZ_URL 1000)].
Proof.
  split; [reflexivity|]. split; [reflexivity|].
  destruct C10_updated_emitted_on_init as (_ & _ & _ & Hstart).
  apply (Hstart (Fixtures.envOnline "new-archive") Fixtures.emptyDisk
           Fixtures.manufGz 200 "new-archive"%string).
  - intros c. reflexivity.
  - reflexivity.
  - reflexivity.
  - reflexivity.
  - lia.
Defined.
(** ** The invariant of the index *)

Lemma trimEnd_split s :
  exists blanks,
    s = String.append (trimEnd s) blanks /\ allChars isWhiteSpace blanks = true.
Proof.
  induction s as [|c r (blanks & Hr & Hb)]; [by exists EmptyString|].
  cbn [trimEnd]. destruct (isWhiteSpace c && isEmpty (trimEnd r)) eqn:Hc.
  - apply andb_true_iff in Hc as [Hc He].
    exists (String c blanks). split.
    + destruct (trimEnd r); [|done].
      change (String.append EmptyString blanks) with blanks in Hr.
      change (String.append EmptyString (String c blanks)) with (String c blanks).
      by rewrite <- Hr.
    + simpl. by rewrite Hc.
  - exists blanks. split; [|done]. rewrite append_cons. by rewrite <- Hr.
Qed.

Lemma space_not_hex c : isWhiteSpace c = true -> isHex c = false.
Proof.
  destruct c as [[] [] [] [] [] [] [] []]; intros H; vm_compute in H;
    try discriminate H; reflexivity.
Qed.

Lemma countChars_append p a b :
  countChars p (String.append a b) = (countChars p a + countChars p b)%nat.
Proof. induction a as [|c r IH]; simpl; [done|]. rewrite IH. lia. Qed.

Lemma countChars_none p q s :
  (forall c, q c = true -> p c = false) -> allChars q s = true -> countChars p s = 0%nat.
Proof.
  intros Hqp. induction s as [|c r IH]; simpl; [done|].
  intros [Hc Hr]%andb_true_iff. by rewrite (Hqp c Hc), (IH Hr).
Qed.

(** A hex part that the BigInt conversion accepts is made of hex digits,
    followed by white space or by nothing. *)
Lemma rawIntOf_shape hex raw :
  rawIntOf hex = ok raw ->
  exists digits blanks,
    hex = String.append digits blanks /\
    allChars isHex digits = true /\ allChars isWhiteSpace blanks = true /\
    String.length hex = (countChars isHex hex + String.length blanks)%nat.
Proof.
  unfold rawIntOf. destruct hex as [|c r]; cbn [isEmpty].
  { intros _. by exists EmptyString, EmptyString. }
  unfold bigIntOfHex.
  destruct (negb (isEmpty (trimEnd (String c r))) && allChars isHex (trimEnd (String c r)))
    eqn:Hok; [|done].
  intros _. apply andb_true_iff in Hok as [_ Hdigits].
  destruct (trimEnd_split (String c r)) as (blanks & Hsplit & Hblanks).
  exists (trimEnd (String c r)), blanks. split; [done|]. split; [done|]. split; [done|].
  rewrite Hsplit at 1 2. rewrite length_append, countChars_append.
  rewrite (countChars_all _ _ Hdigits).
  by rewrite (countChars_none isHex isWhiteSpace blanks space_not_hex Hblanks), Nat.add_0_r.
Qed.

Lemma stored_line_shape rawLine b v e :
  parseLine rawLine = Put b v e ->
  let hex := compactHexOf (prefix e) in
  b = prefixBitsOf (prefix e) /\
  (forall s, b <> Infinity s) /\
  (forall hexPart cidrPart rest,
     splitChar "/" (prefix e) = hexPart :: cidrPart :: rest ->
     cidrPart <> EmptyString -> b = parseInt cidrPart) /\
  (hasCidr (prefix e) = false -> b = Num (4 * Z.of_nat (String.length hex))) /\
  (exists digits blanks,
     hex = String.append digits blanks /\
     allChars isHex digits = true /\ allChars isWhiteSpace blanks = true /\
     String.length hex = (countChars isHex hex + String.length blanks)%nat) /\
  (forall z, b = Num z -> 0 <= z -> Z.of_nat (String.length hex) < 2 ^ 51 ->
     0 <= v < 2 ^ z).
Proof.
  intros Hput hex. apply parseLine_Put in Hput as [Hb (raw & Hraw & Hv)].
  fold hex in Hraw, Hv. split; [done|]. split.
  { intros s Hs. rewrite Hs, prefixIntOf_Infinity in Hv. done. }
  split.
  { intros hexPart cidrPart rest Hsplit Hcidr. rewrite Hb. unfold prefixBitsOf.
    rewrite Hsplit. by destruct cidrPart. }
  split.
  { intros Hno. rewrite Hb, (prefixBitsOf_default _ Hno). fold hex. f_equal. lia. }
  split; [by apply (rawIntOf_shape hex raw)|].
  intros z Hz Hpos Hshort. rewrite Hz in Hv.
  apply rawIntOf_bounds in Hraw.
  eapply prefixIntOf_fits; [| |exact Hpos|exact Hv]; [by rewrite Z.mul_comm|].
  change (2 ^ 53) with (2 ^ 51 * 4). lia.
Qed.

(** C9 (amended). For every text [_parseManuf] accepts, every stored
    entry sits under the bit count of its own prefix token as the parser
    reads it.  With a [/bitCount] suffix that is [parseInt] of the suffix,
    whatever it gives: [NaN] when the suffix is not a number, otherwise the
    double nearest to the integer written, negative or beyond 48 as it may
    be, since no range check is made; never an infinity, which aborts the
    build.  Without a suffix it is four times the number of characters of
    the hex part once the separators are stripped: its hex digits, and
    the white space that trails them, if any.  Whenever the bit count is a
    non-negative integer, prefixValue fits in prefixBits bits (for a hex
    part of fewer than 2^51 characters).  And no two entries share a
    [(prefixBits, prefixValue)] key: each prefix length has one bucket,
    each key one entry. *)
Theorem C9_stored_entries_invariant (text : string) (byBits : index) :
  parseText text = ok byBits ->
  NoDup (JSMap.keys byBits) /\
  (forall b v e1 e2,
     hitAt byBits b v = Some e1 -> hitAt byBits b v = Some e2 -> e1 = e2) /\
  (forall b v e,
     hitAt byBits b v = Some e ->
     let hex := compactHexOf (prefix e) in
     b = prefixBitsOf (prefix e) /\
     (forall s, b <> Infinity s) /\
     (forall hexPart cidrPart rest,
        splitChar "/" (prefix e) = hexPart :: cidrPart :: rest ->
        cidrPart <> EmptyString -> b = parseInt cidrPart) /\
     (hasCidr (prefix e) = false -> b = Num (4 * Z.of_nat (String.length hex))) /\
     (exists digits blanks,
        hex = String.append digits blanks /\
        allChars isHex digits = true /\ allChars isWhiteSpace blanks = true /\
        String.length hex = (countChars isHex hex + String.length blanks)%nat) /\
     (forall z, b = Num z -> 0 <= z -> Z.of_nat (String.length hex) < 2 ^ 51 ->
        0 <= v < 2 ^ z)).
Proof.
  intros Hbuilt. split; [by eapply parseText_keys_NoDup|].
  split; [intros b v e1 e2 H1 H2; congruence|].
  apply (parseLines_stored (splitLines text) [] byBits
           (fun b v e =>
              let hex := compactHexOf (prefix e) in
              b = prefixBitsOf (prefix e) /\
              (forall s, b <> Infinity s) /\
              (forall hexPart cidrPart rest,
                 splitChar "/" (prefix e) = hexPart :: cidrPart :: rest ->
                 cidrPart <> EmptyString -> b = parseInt cidrPart) /\
              (hasCidr (prefix e) = false ->
               b = Num (4 * Z.of_nat (String.length hex))) /\
              (exists digits blanks,
                 hex = String.append digits blanks /\
                 allChars isHex digits = true /\ allChars isWhiteSpace blanks = true /\
                 String.length hex = (countChars isHex hex + String.length blanks)%nat) /\
              (forall z, b = Num z -> 0 <= z ->
                 Z.of_nat (String.length hex) < 2 ^ 51 -> 0 <= v < 2 ^ z))).
  - intros l b v e. apply stored_line_shape.
  - intros b v e Hhit. done.
  - exact Hbuilt.
Qed.

Lemma C9_witness :
  parseText Fixtures.ieeeText = ok (Fixtures.indexOf Fixtures.ieeeText) /\
  hitAt (Fixtures.indexOf Fixtures.ieeeText) (Num 36) 29118464
  = Some Fixtures.acmeEntry /\
  Num 36 = prefixBitsOf "00:1B:C5:00:00:00/36" /\
  Num 36 = parseInt "36" /\
  0 <= 29118464 < 2 ^ 36.
Proof.
  assert (parseText Fixtures.ieeeText = ok (Fixtures.indexOf Fixtures.ieeeText))
    as Hbuilt by (vm_compute; reflexivity).
  assert (hitAt (Fixtures.indexOf Fixtures.ieeeText) (Num 36) 29118464
          = Some Fixtures.acmeEntry) as Hhit by (vm_compute; reflexivity).
  split; [exact Hbuilt|]. split; [exact Hhit|].
  destruct (C9_stored_entries_invariant _ _ Hbuilt) as (_ & _ & Hinv).
  destruct (Hinv _ _ _ Hhit) as (Hb & _ & Hcidr & _ & _ & Hfits).
  split; [exact Hb|]. split.
  - apply (Hcidr "00:1B:C5:00:00:00"%string "36"%string [] eq_refl). discriminate.
  - apply (Hfits 36 eq_refl); [lia | vm_compute; reflexivity].
Defined.

(** The bit count is stored as parsed: [/56] gives a prefix length of
    56, beyond the 48 bits of an address, and [/xy] one that is no
    integer at all. *)
Lemma C9_counterexample_unchecked_length :
  parseText Fixtures.cisco56Line = ok (Fixtures.indexOf Fixtures.cisco56Line) /\
  hitAt (Fixtures.indexOf Fixtures.cisco56Line) (Num 56) 51539607552
  = Some (Entry "00:00:0C/56" "Cisco" EmptyString) /\
  ~ (1 <= 56 <= 48) /\
  parseText Fixtures.ciscoNaNLine = ok (Fixtures.indexOf Fixtures.ciscoNaNLine) /\
  hitAt (Fixtures.indexOf Fixtures.ciscoNaNLine) NaN 12
  = Some (Entry "00:00:0C/xy" "Cisco" EmptyString).
Proof.
  split; [vm_compute; reflexivity|]. split; [vm_compute; reflexivity|].
  split; [lia|]. split; vm_compute; reflexivity.
Qed.

(** * Further properties of the parser *)

(** ** Which line owns a key *)

Lemma hitAt_putEntry_other b v e (byBits : index) b' v' :
  (b', v') <> (b, v) -> hitAt (putEntry b v e byBits) b' v' = hitAt byBits b' v'.
Proof.
  intros Hne. unfold hitAt, putEntry, JSMap.has.
  destruct (decide (b' = b)) as [->|Hb].
  - assert (v' <> v) as Hv by congruence.
    destruct (JSMap.get b byBits) as [bucket|] eqn:Hg.
    + rewrite Hg, get_set_same. by rewrite lookup_insert_ne.
    + rewrite !get_set_same. by rewrite lookup_insert_ne.
  - destruct (JSMap.get b byBits) as [bucket|] eqn:Hg.
    + rewrite Hg. by rewrite get_set_other.
    + rewrite get_set_same. by rewrite !get_set_other.
Qed.

Lemma parseLines_untouched_key lines (acc byBits : index) b v :
  (forall l e, l ∈ lines -> parseLine l <> Put b v e) ->
  parseLines lines acc = ok byBits ->
  hitAt byBits b v = hitAt acc b v.
Proof.
  revert acc. induction lines as [|l rest IH]; intros acc Hnone; simpl.
  - by intros [= <-].
  - assert (forall l' e, l' ∈ rest -> parseLine l' <> Put b v e) as Hrest.
    { intros l' e Hin. apply Hnone. by apply list_elem_of_further. }
    destruct (parseLine l) as [|b' v' e'|err] eqn:Hl; [by apply IH| |done].
    intros Hrun. rewrite (IH _ Hrest Hrun). apply hitAt_putEntry_other.
    intros [= <- <-]. eapply Hnone; [apply list_elem_of_here | exact Hl].
Qed.

(** X1. Last line wins: when several lines of the file give the same
    (prefixBits, prefixInt) key, the index holds the entry of the last of
    them; the earlier ones are overwritten without an error. *)
Theorem X1_last_line_wins
    (before after : list string) (line : string) (acc byBits : index)
    (b : number) (v : Z) (e : entry) :
  parseLine line = Put b v e ->
  (forall l e', l ∈ after -> parseLine l <> Put b v e') ->
  parseLines (before ++ line :: after) acc = ok byBits ->
  hitAt byBits b v = Some e.
Proof.
  intros Hline Hafter. rewrite parseLines_app.
  destruct (parseLines before acc) as [err|mid]; [done|]. simpl. rewrite Hline.
  intros Hrun. rewrite (parseLines_untouched_key _ _ _ _ _ Hafter Hrun).
  apply hitAt_putEntry_same.
Qed.

Lemma X1_witness :
  parseLine "00:00:0C NewName" = Put (Num 24) 12 (Entry "00:00:0C" "NewName" EmptyString) /\
  parseLines (["00-00-0C OldName"; "# note"] ++ "00:00:0C NewName" :: ["00:00:0D Other"]) []
  = ok (Fixtures.indexOf Samples.renamedText) /\
  hitAt (Fixtures.indexOf Samples.renamedText)
        (Num 24) 12
  = Some (Entry "00:00:0C" "NewName" EmptyString).
Proof.
  assert (parseLine "00:00:0C NewName"
          = Put (Num 24) 12 (Entry "00:00:0C" "NewName" EmptyString)) as Hline
    by (vm_compute; reflexivity).
  assert (parseLines (["00-00-0C OldName"; "# note"] ++ "00:00:0C NewName"
                        :: ["00:00:0D Other"]) []
          = ok (Fixtures.indexOf Samples.renamedText)) as Hrun
    by (vm_compute; reflexivity).
  split; [exact Hline|]. split; [exact Hrun|].
  apply (X1_last_line_wins ["00-00-0C OldName"; "# note"]%string
           ["00:00:0D Other"]%string "00:00:0C NewName" [] _ _ _ _ Hline);
    [|exact Hrun].
  intros l e' Hin. apply list_elem_of_singleton in Hin as ->. vm_compute. discriminate.
Defined.

(** ** The key of an address *)

(** Every stored entry sits under the key its own token computes. *)
Lemma stored_key_of_token text byBits b v e :
  parseText text = ok byBits -> hitAt byBits b v = Some e ->
  b = prefixBitsOf (prefix e) /\
  exists raw,
    rawIntOf (compactHexOf (prefix e)) = ok raw /\
    prefixIntOf raw (Num (Z.of_nat (String.length (compactHexOf (prefix e))) * 4)) b
    = ok v.
Proof.
  intros Hbuilt. revert b v e.
  apply (parseLines_stored (splitLines text) [] byBits
           (fun b v e =>
              b = prefixBitsOf (prefix e) /\
              exists raw,
                rawIntOf (compactHexOf (prefix e)) = ok raw /\
                prefixIntOf raw
                  (Num (Z.of_nat (String.length (compactHexOf (prefix e))) * 4)) b
                = ok v)).
  - intros l b v e. apply parseLine_Put.
  - intros b v e Hhit. done.
  - exact Hbuilt.
Qed.

(** X2. An entry written without a [/bitCount] suffix covers every
    address that begins with its hex digits: in a built index whose
    prefix lengths are all integers from 0 to 48, [lookup] of a 12-digit
    address whose leading digits are the entry's digits computes the
    entry's own key at the entry's length, and so never answers [null]. *)
Theorem X2_entry_covers_its_digits
    (E : env) (p : MacParser) (w : world) (text mac tail : string)
    (b : number) (v : Z) (e : entry) :
  parseText text = ok (_entries p) ->
  _sortedLens p = sortedLensOf (_entries p) ->
  _ready p = true ->
  forallb isAddressLength (JSMap.keys (_entries p)) = true ->
  hitAt (_entries p) b v = Some e ->
  hasCidr (prefix e) = false ->
  allChars isUpperHex (compactHexOf (prefix e)) = true ->
  compactOf mac = String.append (compactHexOf (prefix e)) tail ->
  String.length (compactOf mac) = 12%nat ->
  allChars isUpperHex tail = true ->
  exists (addr : Z) (e' : entry),
    bigIntOfHex (compactOf mac) = Some addr /\
    b = Num (4 * Z.of_nat (String.length (compactHexOf (prefix e)))) /\
    keyOf addr b = ok v /\
    keyAt addr (4 * Z.of_nat (String.length (compactHexOf (prefix e)))) = v /\
    Parser.lookup mac E p w = (p, w, ok (Some e')).
Proof.
  intros Hbuilt Hlens Hready Hrange Hhit Hno Hhex Hmac Hlen Htail.
  set (H := compactHexOf (prefix e)) in *.
  set (h := Z.of_nat (String.length H)).
  destruct (stored_key_of_token _ _ _ _ _ Hbuilt Hhit) as (Hb & raw & Hraw & Hv).
  fold H in Hraw, Hv. rewrite (rawIntOf_upperHex H Hhex) in Hraw. injection Hraw as <-.
  rewrite (prefixBitsOf_default _ Hno) in Hb. fold H in Hb.
  rewrite Hb, prefixIntOf_same in Hv. injection Hv as <-.
  replace (Z.of_nat (String.length H) * 4) with (4 * h) in Hb by (subst h; lia).
  subst b.
  assert (allChars isUpperHex (compactOf mac) = true) as Hall
    by (rewrite Hmac, allChars_append, Hhex, Htail; done).
  assert (compactOf mac <> EmptyString) as Hne
    by (intros Heq; rewrite Heq in Hlen; discriminate).
  pose proof (bigIntOfHex_upperHex _ Hne Hall) as Haddr.
  pose proof (bigIntOfHex_bounds _ _ Haddr) as Haddr48.
  set (addr := hexFrom 0 (compactOf mac)) in *.
  assert (0 <= 4 * h <= 48) as Hh48.
  { rewrite Hmac, length_append in Hlen. subst h. lia. }
  assert (keyAt addr (4 * h) = hexFrom 0 H) as Hkey.
  { subst addr. rewrite Hmac, hexFrom_append, hexFrom_acc.
    pose proof (hexFrom_bounds tail (allChars_impl _ _ tail upperHex_isHex Htail) 0
                  ltac:(lia)) as Hb.
    rewrite Hmac, length_append in Hlen.
    unfold keyAt. subst h.
    replace (48 - 4 * Z.of_nat (String.length H))
      with (4 * Z.of_nat (String.length tail)) by lia.
    rewrite Z.shiftr_div_pow2 by lia.
    replace (2 ^ (4 * Z.of_nat (String.length tail)))
      with (16 ^ Z.of_nat (String.length tail))
      by (replace 16 with (2 ^ 4) by reflexivity; rewrite <- Z.pow_mul_r by lia; done).
    assert (0 < 16 ^ Z.of_nat (String.length tail)) by (apply Z.pow_pos_nonneg; lia).
    rewrite Z.div_add_l by lia. rewrite Z.div_small by lia. lia. }
  pose proof (parseText_keys_NoDup _ _ Hbuilt) as Hnd.
  pose proof (forallb_impl _ _ _ addressLength_integer Hrange) as Hint.
  destruct (sortedLensOf_descending _ Hint Hnd) as (zs & Hzs & Hsorted & Hmem).
  pose proof (address_lengths _ _ Hrange Hmem) as Hzs48.
  destruct (scanLens_keyAt (_entries p) addr zs ltac:(lia) Hzs48 Hsorted)
    as (r & Hscan & _ & Hnone).
  assert (Num (4 * h) ∈ JSMap.keys (_entries p)) as Hin.
  { unfold hitAt in Hhit.
    destruct (JSMap.get (Num (4 * h)) (_entries p)) eqn:Hg; [|done].
    by apply get_Some_key in Hg. }
  destruct r as [e'|].
  - exists addr, e'. split; [done|]. split; [done|].
    split; [by rewrite keyOf_address, Hkey by lia|]. split; [done|].
    rewrite lookup_ready by done. unfold lookupIn.
    assert (validCompact (compactOf mac) = true) as ->
      by (apply validCompact_spec; split; [lia | done]).
    simpl. rewrite Haddr, Hlens, Hzs. by rewrite Hscan.
  - exfalso. destruct Hnone as [Hnone _]. specialize (Hnone eq_refl (4 * h)).
    rewrite Hkey in Hnone. rewrite Hnone in Hhit; [done|]. by apply Hmem.
Qed.

Lemma X2_witness :
  hitAt (_entries (Fixtures.readyParser Fixtures.ieeeText)) (Num 24) 7109
  = Some Fixtures.ieeeEntry /\
  compactOf "00:1b:c5:aa:bb:cc" = String.append (compactHexOf "00:1B:C5") "AABBCC" /\
  exists (addr : Z) (e' : entry),
    keyOf addr (Num 24) = ok 7109 /\
    Parser.lookup "00:1b:c5:aa:bb:cc" (Fixtures.envWithText Fixtures.ieeeText)
      (Fixtures.readyParser Fixtures.ieeeText) Fixtures.diskWithArchive
    = (Fixtures.readyParser Fixtures.ieeeText, Fixtures.diskWithArchive, ok (Some e')).
Proof.
  assert (hitAt (_entries (Fixtures.readyParser Fixtures.ieeeText)) (Num 24) 7109
          = Some Fixtures.ieeeEntry) as Hhit by (vm_compute; reflexivity).
  split; [exact Hhit|]. split; [reflexivity|].
  destruct (X2_entry_covers_its_digits (Fixtures.envWithText Fixtures.ieeeText)
              (Fixtures.readyParser Fixtures.ieeeText) Fixtures.diskWithArchive
              Fixtures.ieeeText "00:1b:c5:aa:bb:cc" "AABBCC" (Num 24) 7109
              Fixtures.ieeeEntry eq_refl eq_refl eq_refl eq_refl Hhit eq_refl eq_refl
              eq_refl eq_refl eq_refl)
    as (addr & e' & _ & _ & Hkey & _ & Hrun).
  exists addr, e'. split; [exact Hkey | exact Hrun].
Defined.

(** X3. An address of fewer than twelve digits is compared as the
    number its digits spell, not as the leading digits of an address:
    with [n] digits the key is 0 at every prefix length up to [48 − 4·n],
    so a bare six-digit OUI can only hit, at 24 bits or fewer, an entry
    whose prefix value is 0. *)
Theorem X3_short_address_key_is_zero (compact : string) (addr b : Z) :
  validCompact compact = true ->
  bigIntOfHex compact = Some addr ->
  b <= 48 - 4 * Z.of_nat (String.length compact) ->
  keyAt addr b = 0 /\
  (0 <= b -> keyOf addr (Num b) = ok 0).
Proof.
  intros Hvalid Haddr Hb. apply bigIntOfHex_bounds in Haddr.
  apply validCompact_spec in Hvalid as [Hlen _].
  assert (keyAt addr b = 0) as Hkey.
  { unfold keyAt. rewrite Z.shiftr_div_pow2 by lia.
    apply Z.div_small. split; [lia|].
    eapply Z.lt_le_trans; [apply Haddr|]. apply Z.pow_le_mono_r; lia. }
  split; [done|]. intros Hpos. rewrite keyOf_address by lia. by rewrite Hkey.
Qed.

Lemma X3_witness :
  validCompact (compactOf "AC-DE-48") = true /\
  bigIntOfHex (compactOf "AC-DE-48") = Some 11329096 /\
  keyAt 11329096 24 = 0 /\
  keyOf 11329096 (Num 24) = ok 0 /\
  snd (Parser.lookup "AC-DE-48" (Fixtures.envWithText "AC-DE-48 Private")
         (Fixtures.readyParser "AC-DE-48 Private") Fixtures.diskWithArchive)
  = ok None.
Proof.
  assert (24 <= 48 - 4 * Z.of_nat (String.length (compactOf "AC-DE-48"))) as Hb
    by (vm_compute; discriminate).
  destruct (X3_short_address_key_is_zero (compactOf "AC-DE-48") 11329096 24
              eq_refl eq_refl Hb) as [Hkey Hcode].
  split; [reflexivity|]. split; [reflexivity|]. split; [exact Hkey|].
  split; [apply Hcode; lia|]. vm_compute. reflexivity.
Defined.

(** ** Files without entries, files with a bad token *)

Lemma parseLines_all_skipped lines acc :
  (forall l, l ∈ lines -> parseLine l = Skip) -> parseLines lines acc = ok acc.
Proof.
  induction lines as [|l rest IH]; intros Hall; simpl; [done|].
  rewrite (Hall l (list_elem_of_here _ _)). apply IH.
  intros l' Hin. apply Hall. by apply list_elem_of_further.
Qed.

Lemma lookupIn_empty mac : lookupIn [] (sortedLensOf []) mac = ok None.
Proof.
  unfold lookupIn. destruct (validCompact (compactOf mac)) eqn:Hv; [|done].
  simpl. destruct (valid_address _ Hv) as (addr & -> & _). done.
Qed.

(** X4. A file made of blank lines, comment lines and one-field lines
    only builds the empty index, and a parser initialised from it
    answers [null] to every string, without raising. *)
Theorem X4_file_without_entries
    (E : env) (p : MacParser) (w : world) (gz : inode) (text : string) :
  _ready p = false ->
  fault E (Access (manufPath p)) = None ->
  fault E (ReadFile (manufPath p)) = None ->
  files w !! manufPath p = Some gz ->
  gunzipSync E (data gz) = Some text ->
  (forall l, l ∈ splitLines text -> parseLine l = Skip) ->
  exists p' w',
    Parser.init E p w = (p', w', ok tt) /\
    _ready p' = true /\ _entries p' = [] /\ _sortedLens p' = [] /\
    forall mac E2 w2, Parser.lookup mac E2 p' w2 = (p', w2, ok None).
Proof.
  intros Hready Hf1 Hf2 Hfile Hz Hskip.
  pose proof (parseLines_all_skipped (splitLines text) [] Hskip) as Hparse.
  unfold Parser.init, Parser._ensureManufFile, Parser._parseManuf,
    access, readFileSync, gunzip, fsCall. run_method.
  rewrite Hready, Hf1. cbn [files logCall]. rewrite Hfile, Hf2.
  cbn [files logCall]. rewrite Hfile, Hz. fold (parseText text).
  unfold parseText. unfold ok in Hparse. rewrite Hparse.
  eexists _, _. split; [reflexivity|]. split_and!; try done.
  intros mac E2 w2. rewrite lookup_ready by done. cbn [_entries _sortedLens setReady
    setSortedLens setEntries]. by rewrite lookupIn_empty.
Qed.

Lemma X4_witness :
  (forall l, l ∈ splitLines Samples.textWithoutEntries
             -> parseLine l = Skip) /\
  exists p' w',
    Parser.init (Fixtures.envWithText Samples.textWithoutEntries)
      (newMacParser Fixtures.manufGz) Fixtures.diskWithArchive = (p', w', ok tt) /\
    _entries p' = [] /\
    forall mac E2 w2, Parser.lookup mac E2 p' w2 = (p', w2, ok None).
Proof.
  assert (forall l, l ∈ splitLines Samples.textWithoutEntries
                    -> parseLine l = Skip) as Hskip.
  { intros l Hin. vm_compute in Hin.
    repeat (apply elem_of_cons in Hin as [->|Hin]; [vm_compute; reflexivity|]).
    by apply elem_of_nil in Hin. }
  split; [exact Hskip|].
  destruct (X4_file_without_entries
              (Fixtures.envWithText Samples.textWithoutEntries)
              (newMacParser Fixtures.manufGz) Fixtures.diskWithArchive
              (Inode "gz-bytes" 900) _ eq_refl eq_refl eq_refl eq_refl eq_refl Hskip)
    as (p' & w' & Hrun & _ & He & _ & Hnull).
  exists p', w'. split; [exact Hrun|]. split; [exact He | exact Hnull].
Defined.

Lemma anyChar_trimEnd (q : ascii -> bool) s :
  (forall c, q c = true -> isWhiteSpace c = false) ->
  anyChar q s = true -> anyChar q (trimEnd s) = true.
Proof.
  intros Hq. induction s as [|c r IH]; simpl; [done|].
  intros [Hc|Hr]%orb_true_iff.
  - rewrite (Hq c Hc). simpl. by rewrite Hc.
  - specialize (IH Hr).
    destruct (isWhiteSpace c && isEmpty (trimEnd r)) eqn:Hw.
    + apply andb_true_iff in Hw as [_ Hw]. by destruct (trimEnd r).
    + simpl. rewrite IH. apply orb_true_r.
Qed.

Lemma anyChar_not_all (p : ascii -> bool) s :
  anyChar (fun c => negb (p c)) s = true -> allChars p s = false.
Proof.
  induction s as [|c r IH]; simpl; [done|].
  intros [Hc|Hr]%orb_true_iff.
  - apply negb_true_iff in Hc. by rewrite Hc.
  - rewrite (IH Hr). apply andb_false_r.
Qed.

Lemma anyChar_impl (p q : ascii -> bool) s :
  (forall c, p c = true -> q c = true) -> anyChar p s = true -> anyChar q s = true.
Proof.
  intros Hpq. induction s as [|c r IH]; simpl; [done|].
  intros [Hc|Hr]%orb_true_iff; [by rewrite (Hpq c Hc) | rewrite (IH Hr); apply orb_true_r].
Qed.

(** X5. A line with two fields or more whose prefix token is fatal: when
    the hex part of the token is made of 7-bit characters and holds,
    after the separators are stripped, a character that is neither a hex
    digit nor white space, the BigInt conversion throws a SyntaxError, the
    loop stops there, and the lines after it are never read. *)
Theorem X5_bad_token_aborts_build
    (before after : list string) (rawLine : string) (acc mid : index) :
  parseLines before acc = ok mid ->
  isEmpty (trim rawLine) || startsWithChar "#" (trim rawLine) = false ->
  (2 <= length (lineParts (trim rawLine)))%nat ->
  let token := trim (nthPart 0 (lineParts (trim rawLine))) in
  allChars isAscii (nthPart 0 (splitChar "/" token)) = true ->
  anyChar (fun c => negb (isHex c) && negb (isWhiteSpace c)) (compactHexOf token) = true ->
  parseLines (before ++ rawLine :: after) acc
  = throw (SyntaxError (String.append "0x" (compactHexOf token))).
Proof.
  intros Hbefore Hline Hparts token Hascii Hbad. rewrite parseLines_app, Hbefore. simpl.
  unfold parseLine. rewrite Hline.
  assert ((length (lineParts (trim rawLine)) <? 2)%nat = false) as ->
    by (apply Nat.ltb_ge; lia).
  fold token. set (hex := compactHexOf token) in *.
  assert (rawIntOf hex = throw (SyntaxError (String.append "0x" hex))) as ->; [|done].
  unfold rawIntOf. destruct hex as [|c r] eqn:Hhex; [done|]. cbn [isEmpty].
  assert (bigIntOfHex (String c r) = None) as ->; [|done].
  unfold bigIntOfHex.
  assert (allChars isHex (trimEnd (String c r)) = false) as ->;
    [|by rewrite andb_false_r].
  apply anyChar_not_all.
  apply (anyChar_impl (fun c => negb (isHex c) && negb (isWhiteSpace c))).
  { intros c0 Hc0. by apply andb_true_iff in Hc0 as [? _]. }
  apply anyChar_trimEnd; [|done].
  intros c0 Hc0. apply andb_true_iff in Hc0 as [_ Hc0]. by apply negb_true_iff.
Qed.

Lemma X5_witness :
  parseLines ["00:00:0C Cisco"%string] [] = ok (Fixtures.indexOf "00:00:0C Cisco") /\
  allChars isAscii "vendor" = true /\
  parseLines (["00:00:0C Cisco"%string] ++ "vendor list"%string :: ["AC-DE-48 Private"%string]) []
  = throw (SyntaxError "0xVENDOR").
Proof.
  assert (parseLines ["00:00:0C Cisco"%string] [] = ok (Fixtures.indexOf "00:00:0C Cisco"))
    as Hbefore by (vm_compute; reflexivity).
  split; [exact Hbefore|]. split; [reflexivity|].
  exact (X5_bad_token_aborts_build ["00:00:0C Cisco"%string] ["AC-DE-48 Private"%string]
           "vendor list" [] _ Hbefore eq_refl (le_n 2) eq_refl eq_refl).
Defined.

(** ** The fields of a stored entry *)

Lemma consHead_Forall (P : string -> Prop) c l :
  (forall piece, P piece -> P (String c piece)) -> P (String c EmptyString) ->
  Forall P l -> Forall P (consHead c l).
Proof.
  intros Hcons Hone Hall. destruct Hall as [|h t Hh Ht]; simpl.
  - by constructor.
  - constructor; [by apply Hcons | done].
Qed.

Lemma splitChar_pieces sep s :
  Forall (fun piece => includesChar sep piece = false) (splitChar sep s).
Proof.
  induction s as [|c r IH]; simpl; [by repeat constructor|].
  destruct (Ascii.eqb c sep) eqn:Hc; [by constructor|].
  apply consHead_Forall; [| |done]; unfold includesChar; simpl;
    rewrite Ascii.eqb_sym, Hc; done.
Qed.

Lemma splitSpacesFrom_pieces inRun s :
  Forall (fun piece => anyChar isWhiteSpace piece = false) (splitSpacesFrom inRun s).
Proof.
  revert inRun. induction s as [|c r IH]; intros inRun; simpl; [by repeat constructor|].
  destruct (isWhiteSpace c) eqn:Hc.
  - destruct inRun; [apply IH | constructor; [done | apply IH]].
  - apply consHead_Forall; [| |apply IH]; simpl; rewrite Hc; done.
Qed.

Lemma no_part_is_a_tab line :
  existsb (String.eqb (String TAB EmptyString)) (lineParts line) = false.
Proof.
  apply not_true_is_false. intros Hex.
  apply existsb_exists in Hex as (piece & Hin & Heq).
  apply String.eqb_eq in Heq. subst piece. apply list_elem_of_In in Hin.
  unfold lineParts in Hin. destruct (includesChar TAB line).
  - pose proof (splitChar_pieces TAB line) as Hall.
    rewrite Forall_forall in Hall. by specialize (Hall _ Hin).
  - pose proof (splitSpacesFrom_pieces false line) as Hall.
    rewrite Forall_forall in Hall. by specialize (Hall _ Hin).
Qed.

(** X6. The fields of a stored entry: [prefix] and [vendor] are the first
    two fields of the line, trimmed, and [comment] is the remaining fields
    joined by single spaces, then trimmed.  The tab of the join is dead
    code: no field is ever a lone tab, so the fields of a tab-separated
    annotation come back separated by spaces, not tabs. *)
Theorem X6_entry_fields (rawLine : string) (b : number) (v : Z) (e : entry) :
  parseLine rawLine = Put b v e ->
  existsb (String.eqb (String TAB EmptyString)) (lineParts (trim rawLine)) = false /\
  prefix e = trim (nthPart 0 (lineParts (trim rawLine))) /\
  vendor e = trim (nthPart 1 (lineParts (trim rawLine))) /\
  comment e = trim (join " " (drop 2 (lineParts (trim rawLine)))).
Proof.
  intros Hput. split; [apply no_part_is_a_tab|]. revert Hput. unfold parseLine.
  destruct (isEmpty (trim rawLine) || startsWithChar "#" (trim rawLine)); [done|].
  destruct (length (lineParts (trim rawLine)) <? 2)%nat; [done|].
  rewrite no_part_is_a_tab.
  destruct (rawIntOf _) as [err|raw]; [done|].
  destruct (prefixIntOf raw _ _) as [err|pv]; [done|].
  by intros [= <- <- <-].
Qed.

Lemma X6_witness :
  parseLine Samples.tabbedLine
  = Put (Num 24) 12 (Entry "00:00:0C" "Cisco" "Early cards") /\
  comment (Entry "00:00:0C" "Cisco" "Early cards")
  = trim (join " " (drop 2 (lineParts (trim Samples.tabbedLine)))).
Proof.
  assert (parseLine Samples.tabbedLine
          = Put (Num 24) 12 (Entry "00:00:0C" "Cisco" "Early cards")) as Hput
    by (vm_compute; reflexivity).
  split; [exact Hput|].
  exact (proj2 (proj2 (proj2 (X6_entry_fields _ _ _ _ Hput)))).
Defined.

(** ** The search order, whatever the keys *)

Lemma insertBy_Permutation cmp x l : Permutation (insertBy cmp x l) (x :: l).
Proof.
  induction l as [|y r IH]; simpl; [done|].
  destruct (gt (cmp y x) (Num 0)); [done|].
  rewrite IH. apply perm_swap.
Qed.

Lemma sortBy_Permutation cmp l acc :
  Permutation (fold_left (fun a x => insertBy cmp x a) l acc) (acc ++ l).
Proof.
  revert acc. induction l as [|x r IH]; intros acc; simpl.
  - by rewrite app_nil_r.
  - rewrite IH, insertBy_Permutation. simpl. apply Permutation_middle.
Qed.

(** X7. [_sortedLens] holds every prefix length of [_entries] exactly
    once, for every index a text can build, a [NaN] length included, so
    that the length of every stored entry occurs in it; and when every
    length is an integer, [_sortedLens] is strictly descending. *)
Theorem X7_search_order_covers_index (text : string) (byBits : index) :
  parseText text = ok byBits ->
  Permutation (sortedLensOf byBits) (JSMap.keys byBits) /\
  NoDup (sortedLensOf byBits) /\
  (forall b v e, hitAt byBits b v = Some e -> b ∈ sortedLensOf byBits) /\
  (forallb isInteger (JSMap.keys byBits) = true ->
   exists zs, sortedLensOf byBits = map Num zs /\ StronglySorted Z.gt zs).
Proof.
  intros Hbuilt.
  assert (Permutation (sortedLensOf byBits) (JSMap.keys byBits)) as Hperm
    by apply (sortBy_Permutation compareDesc (JSMap.keys byBits) []).
  pose proof (parseText_keys_NoDup _ _ Hbuilt) as Hnd.
  split; [done|]. split; [by rewrite Hperm|]. split.
  - intros b v e Hhit. rewrite Hperm. unfold hitAt in Hhit.
    destruct (JSMap.get b byBits) eqn:Hg; [|done]. by apply get_Some_key in Hg.
  - intros Hint. destruct (sortedLensOf_descending _ Hint Hnd) as (zs & Hzs & Hs & _).
    by exists zs.
Qed.

Lemma X7_witness :
  parseText Samples.mixedText = ok (Fixtures.indexOf Samples.mixedText) /\
  Permutation (sortedLensOf (Fixtures.indexOf Samples.mixedText)) [NaN; Num 24; Num 36] /\
  parseText Fixtures.ieeeText = ok (Fixtures.indexOf Fixtures.ieeeText) /\
  exists zs,
    sortedLensOf (Fixtures.indexOf Fixtures.ieeeText) = map Num zs /\
    StronglySorted Z.gt zs.
Proof.
  assert (parseText Samples.mixedText = ok (Fixtures.indexOf Samples.mixedText))
    as Hmixed by (vm_compute; reflexivity).
  assert (parseText Fixtures.ieeeText = ok (Fixtures.indexOf Fixtures.ieeeText))
    as Hieee by (vm_compute; reflexivity).
  split; [exact Hmixed|].
  split; [exact (proj1 (X7_search_order_covers_index _ _ Hmixed))|].
  split; [exact Hieee|].
  exact (proj2 (proj2 (proj2 (X7_search_order_covers_index _ _ Hieee))) eq_refl).
Defined.

(** ** Separators and letter case *)

Lemma upperChar_idem c : upperChar (upperChar c) = upperChar c.
Proof. destruct c as [[] [] [] [] [] [] [] []]; reflexivity. Qed.

Lemma isSeparator_upperChar c : isSeparator (upperChar c) = isSeparator c.
Proof. destruct c as [[] [] [] [] [] [] [] []]; reflexivity. Qed.

Lemma toUpperCase_idem s : toUpperCase (toUpperCase s) = toUpperCase s.
Proof. induction s as [|c r IH]; simpl; [done|]. by rewrite upperChar_idem, IH. Qed.

Lemma strip_toUpperCase s :
  stripSeparators (toUpperCase s) = toUpperCase (stripSeparators s).
Proof.
  unfold stripSeparators. induction s as [|c r IH]; simpl; [done|].
  rewrite isSeparator_upperChar. destruct (isSeparator c); simpl; by rewrite IH.
Qed.

Lemma strip_idem s : stripSeparators (stripSeparators s) = stripSeparators s.
Proof.
  unfold stripSeparators. induction s as [|c r IH]; simpl; [done|].
  destruct (isSeparator c) eqn:Hc; simpl; [done|]. by rewrite Hc, IH.
Qed.

Lemma compactOf_idem s : compactOf (compactOf s) = compactOf s.
Proof.
  unfold compactOf. by rewrite strip_toUpperCase, strip_idem, toUpperCase_idem.
Qed.

Lemma compactOf_toUpperCase s : compactOf (toUpperCase s) = compactOf s.
Proof. unfold compactOf. by rewrite strip_toUpperCase, toUpperCase_idem. Qed.

Lemma lookup_by_compact mac1 mac2 :
  compactOf mac1 = compactOf mac2 -> Parser.lookup mac1 = Parser.lookup mac2.
Proof. intros Heq. unfold Parser.lookup, lookupIn. by rewrite Heq. Qed.

(** X8. The answer of [lookup] depends on the address only through
    its hex digits: the fully stripped, upper-cased spelling of an address,
    and its upper-cased spelling with the separators left in, are looked
    up exactly as the address itself, in every state of parser and world. *)
Theorem X8_lookup_ignores_separators_and_case (mac : string) :
  Parser.lookup (compactOf mac) = Parser.lookup mac /\
  Parser.lookup (toUpperCase mac) = Parser.lookup mac /\
  Parser.lookup (stripSeparators mac) = Parser.lookup mac.
Proof.
  split; [|split]; apply lookup_by_compact.
  - apply compactOf_idem.
  - apply compactOf_toUpperCase.
  - unfold compactOf. by rewrite strip_idem.
Qed.

(** ** Initialising and rebuilding *)

(** [reinitialize]: either a throw that leaves the parser alone, or the
    index of the file. *)
Lemma reinitialize_cases E p w :
  (exists w' err, Parser.reinitialize E p w = (p, w', throw err) /\ files w' = files w)
  \/
  (exists gz text byBits w',
     files w !! manufPath p = Some gz /\
     gunzipSync E (data gz) = Some text /\
     parseText text = ok byBits /\
     Parser.reinitialize E p w
     = (mkMacParser (manufPath p) true byBits (sortedLensOf byBits), w', ok tt) /\
     files w' = files w).
Proof.
  destruct (Parser.reinitialize E p w) as [[p1 w1] r1] eqn:Hrun.
  unfold Parser.reinitialize in Hrun. unfold bind at 1 in Hrun.
  destruct (ensureManufFile_run E p w) as (r0 & Hens). rewrite Hens in Hrun.
  destruct r0 as [err|[]].
  { injection Hrun as <- <- <-. left. by eexists _, _. }
  unfold bind at 1 in Hrun.
  destruct (parseManuf_cases E p (logCall (Access (manufPath p)) w))
    as [(e & He)|(gz & text & byBits & Hgz & Hz & Hp & He)]; rewrite He in Hrun.
  - injection Hrun as <- <- <-. left. by eexists _, _.
  - injection Hrun as <- <- <-. right. exists gz, text, byBits. eexists.
    split_and!; [exact Hgz | done | done | reflexivity | reflexivity].
Qed.

Lemma init_unready E p w :
  _ready p = false -> Parser.init E p w = Parser.reinitialize E p w.
Proof. intros Hr. unfold Parser.init. rewrite bind_this. by rewrite Hr. Qed.

Lemma reinitialize_ok E q v gz text byBits :
  fault E (Access (manufPath q)) = None ->
  fault E (ReadFile (manufPath q)) = None ->
  files v !! manufPath q = Some gz ->
  gunzipSync E (data gz) = Some text ->
  parseText text = ok byBits ->
  Parser.reinitialize E q v
  = (mkMacParser (manufPath q) true byBits (sortedLensOf byBits),
     logCall (ReadFile (manufPath q)) (logCall (Access (manufPath q)) v), ok tt).
Proof.
  intros Hf1 Hf2 Hfile Hz Hp.
  unfold Parser.reinitialize, Parser._ensureManufFile, Parser._parseManuf,
    access, readFileSync, gunzip, fsCall. run_method.
  rewrite Hf1. cbn [files logCall]. rewrite Hfile, Hf2.
  cbn [files logCall]. rewrite Hfile, Hz. unfold ok in Hp. by rewrite Hp.
Qed.

Lemma reinitialize_ok_inv E p w p' w' :
  Parser.reinitialize E p w = (p', w', ok tt) ->
  fault E (Access (manufPath p)) = None /\
  fault E (ReadFile (manufPath p)) = None /\
  exists gz text byBits,
    files w !! manufPath p = Some gz /\
    gunzipSync E (data gz) = Some text /\
    parseText text = ok byBits /\
    p' = mkMacParser (manufPath p) true byBits (sortedLensOf byBits) /\
    files w' = files w.
Proof.
  unfold Parser.reinitialize, Parser._ensureManufFile, Parser._parseManuf,
    access, readFileSync, gunzip, fsCall. run_method.
  destruct (fault E (Access (manufPath p))); [done|]. cbn [files logCall].
  destruct (files w !! manufPath p) as [gz|] eqn:Hfile; [|done].
  destruct (fault E (ReadFile (manufPath p))); [done|]. cbn [files logCall].
  rewrite Hfile.
  destruct (gunzipSync E (data gz)) as [text|] eqn:Hz; [|done].
  destruct (parseText text) as [err|byBits] eqn:Hp; [done|].
  intros [= <- <-]. split; [done|]. split; [done|]. by exists gz, text, byBits.
Qed.

(** X9. A rebuild replaces the index wholesale: what [reinitialize]
    installs is decided by the data file alone.  Started from any other
    parser on the same path, whatever its index and whether it was ready,
    with the same files, it ends in the same parser; so a second rebuild on
    an unchanged file changes nothing. *)
Theorem X9_rebuild_depends_on_file_only
    (E : env) (p p' : MacParser) (w w' : world) :
  Parser.reinitialize E p w = (p', w', ok tt) ->
  _ready p' = true /\ manufPath p' = manufPath p /\
  _sortedLens p' = sortedLensOf (_entries p') /\
  (forall q v,
     manufPath q = manufPath p -> files v = files w ->
     exists v', Parser.reinitialize E q v = (p', v', ok tt)) /\
  (exists w'', Parser.reinitialize E p' w' = (p', w'', ok tt)).
Proof.
  intros Hrun.
  apply reinitialize_ok_inv in Hrun
    as (Hf1 & Hf2 & gz & text & byBits & Hgz & Hz & Hp & -> & Hfiles).
  assert (forall q v,
            manufPath q = manufPath p -> files v = files w ->
            exists v',
              Parser.reinitialize E q v
              = (mkMacParser (manufPath p) true byBits (sortedLensOf byBits), v', ok tt))
    as Hany.
  { intros q v Hpath Hv. eexists. rewrite <- Hpath.
    apply (reinitialize_ok E q v gz text byBits); rewrite ?Hpath, ?Hv; done. }
  split; [done|]. split; [done|]. split; [done|]. split; [exact Hany|].
  by apply Hany.
Qed.

Lemma X9_witness :
  Parser.reinitialize (Fixtures.envWithText Fixtures.ieeeText)
    (Fixtures.readyParser Fixtures.xeroxLine) Fixtures.diskWithArchive
  = (Fixtures.readyParser Fixtures.ieeeText,
     logCall (ReadFile Fixtures.manufGz)
       (logCall (Access Fixtures.manufGz) Fixtures.diskWithArchive),
     ok tt) /\
  exists v',
    Parser.reinitialize (Fixtures.envWithText Fixtures.ieeeText)
      (newMacParser Fixtures.manufGz) Fixtures.diskWithArchive
    = (Fixtures.readyParser Fixtures.ieeeText, v', ok tt).
Proof.
  assert (Parser.reinitialize (Fixtures.envWithText Fixtures.ieeeText)
            (Fixtures.readyParser Fixtures.xeroxLine) Fixtures.diskWithArchive
          = (Fixtures.readyParser Fixtures.ieeeText,
             logCall (ReadFile Fixtures.manufGz)
               (logCall (Access Fixtures.manufGz) Fixtures.diskWithArchive),
             ok tt)) as Hrun by (vm_compute; reflexivity).
  split; [exact Hrun|].
  destruct (X9_rebuild_depends_on_file_only _ _ _ _ _ Hrun) as (_ & _ & _ & Hany & _).
  exact (Hany (newMacParser Fixtures.manufGz) Fixtures.diskWithArchive
           eq_refl eq_refl).
Defined.

(** X10. [init] and [reinitialize] are all or nothing: when either throws,
    the parser is exactly what it was (a parser that was serving an index
    keeps serving it, one that was not ready stays not ready and tries
    again at the next call) and no file has changed; when [init] returns
    on a parser that was not ready, the parser is ready and holds the index
    of the whole file. *)
Theorem X10_init_all_or_nothing (E : env) (p p' : MacParser) (w w' : world) :
  (forall err, Parser.init E p w = (p', w', throw err) ->
     p' = p /\ _ready p = false /\ files w' = files w) /\
  (forall err, Parser.reinitialize E p w = (p', w', throw err) ->
     p' = p /\ files w' = files w) /\
  (Parser.init E p w = (p', w', ok tt) -> _ready p = false ->
     _ready p' = true /\
     exists gz text,
       files w !! manufPath p = Some gz /\
       gunzipSync E (data gz) = Some text /\
       parseText text = ok (_entries p') /\
       _sortedLens p' = sortedLensOf (_entries p')).
Proof.
  assert (forall err, Parser.reinitialize E p w = (p', w', throw err) ->
            p' = p /\ files w' = files w) as Hre.
  { intros err Hrun.
    destruct (reinitialize_cases E p w)
      as [(w1 & e & He & Hf)|(gz & text & byBits & w1 & _ & _ & _ & He & _)];
      rewrite He in Hrun; [|done]. by injection Hrun as <- <- _. }
  split; [|split; [exact Hre|]].
  - intros err Hrun. destruct (_ready p) eqn:Hr.
    + by rewrite init_ready in Hrun.
    + rewrite init_unready in Hrun by done.
      destruct (Hre err Hrun) as [-> Hf]. done.
  - intros Hrun Hr. rewrite init_unready in Hrun by done.
    destruct (reinitialize_cases E p w)
      as [(w1 & e & He & Hf)|(gz & text & byBits & w1 & Hgz & Hz & Hp & He & _)];
      rewrite He in Hrun; [done|]. injection Hrun as <- <-.
    split; [done|]. by exists gz, text.
Qed.

Lemma X10_witness :
  Parser.reinitialize (Fixtures.envWithText "vendor list")
    (Fixtures.readyParser Fixtures.ieeeText) Fixtures.diskWithArchive
  = (Fixtures.readyParser Fixtures.ieeeText,
     logCall (ReadFile Fixtures.manufGz)
       (logCall (Access Fixtures.manufGz) Fixtures.diskWithArchive),
     throw (SyntaxError "0xVENDOR")) /\
  files (logCall (ReadFile Fixtures.manufGz)
           (logCall (Access Fixtures.manufGz) Fixtures.diskWithArchive))
  = files Fixtures.diskWithArchive.
Proof.
  assert (Parser.reinitialize (Fixtures.envWithText "vendor list")
            (Fixtures.readyParser Fixtures.ieeeText) Fixtures.diskWithArchive
          = (Fixtures.readyParser Fixtures.ieeeText,
             logCall (ReadFile Fixtures.manufGz)
               (logCall (Access Fixtures.manufGz) Fixtures.diskWithArchive),
             throw (SyntaxError "0xVENDOR"))) as Hrun by (vm_compute; reflexivity).
  split; [exact Hrun|].
  destruct (X10_init_all_or_nothing (Fixtures.envWithText "vendor list")
              (Fixtures.readyParser Fixtures.ieeeText)
              (Fixtures.readyParser Fixtures.ieeeText) Fixtures.diskWithArchive
              (logCall (ReadFile Fixtures.manufGz)
                 (logCall (Access Fixtures.manufGz) Fixtures.diskWithArchive)))
    as (_ & Hre & _).
  exact (proj2 (Hre _ Hrun)).
Defined.

Lemma init_ok_ready E p w p' w' :
  Parser.init E p w = (p', w', ok tt) -> _ready p' = true.
Proof.
  intros Hrun. destruct (_ready p) eqn:Hr.
  - rewrite init_ready in Hrun by done. by injection Hrun as <- _.
  - rewrite init_unready in Hrun by done.
    destruct (reinitialize_cases E p w)
      as [(w1 & e & He & Hf)|(gz & text & byBits & w1 & _ & _ & _ & He & _)];
      rewrite He in Hrun; [done|]. by injection Hrun as <- _.
Qed.

Lemma lookup_ok_ready E p w mac p' w' r :
  Parser.lookup mac E p w = (p', w', ok r) -> _ready p' = true.
Proof.
  unfold Parser.lookup. unfold bind at 1.
  destruct (Parser.init E p w) as [[p1 w1] [err|[]]] eqn:Hinit; [done|].
  apply init_ok_ready in Hinit. rewrite bind_this. unfold liftR.
  by intros [= <- _ _].
Qed.

(** X11. Once a [lookup] has returned (an entry or [null]), the
    parser is initialised for good: every later [lookup], of any string, in
    any environment, leaves parser and world untouched, system-call trace
    included. *)
Theorem X11_lookup_initialises_once
    (E : env) (p p' : MacParser) (w w' : world) (mac : string) (r : option entry) :
  Parser.lookup mac E p w = (p', w', ok r) ->
  _ready p' = true /\
  forall mac2 E2 w2,
    Parser.lookup mac2 E2 p' w2
    = (p', w2, lookupIn (_entries p') (_sortedLens p') mac2).
Proof.
  intros Hrun. apply lookup_ok_ready in Hrun. split; [done|].
  intros mac2 E2 w2. by apply lookup_ready.
Qed.

Lemma X11_witness :
  Parser.lookup "00:00:00:12:34:56" (Fixtures.envWithText Fixtures.xeroxLine)
    (newMacParser Fixtures.manufGz) Fixtures.diskWithArchive
  = (Fixtures.readyParser Fixtures.xeroxLine,
     logCall (ReadFile Fixtures.manufGz)
       (logCall (Access Fixtures.manufGz) Fixtures.diskWithArchive),
     ok (Some Fixtures.xeroxEntry)) /\
  Parser.lookup "ff:ff:ff:00:00:00" (Fixtures.envWithText Fixtures.ieeeText)
    (Fixtures.readyParser Fixtures.xeroxLine) Fixtures.emptyDisk
  = (Fixtures.readyParser Fixtures.xeroxLine, Fixtures.emptyDisk,
     lookupIn (_entries (Fixtures.readyParser Fixtures.xeroxLine))
       (_sortedLens (Fixtures.readyParser Fixtures.xeroxLine)) "ff:ff:ff:00:00:00").
Proof.
  assert (Parser.lookup "00:00:00:12:34:56" (Fixtures.envWithText Fixtures.xeroxLine)
            (newMacParser Fixtures.manufGz) Fixtures.diskWithArchive
          = (Fixtures.readyParser Fixtures.xeroxLine,
             logCall (ReadFile Fixtures.manufGz)
               (logCall (Access Fixtures.manufGz) Fixtures.diskWithArchive),
             ok (Some Fixtures.xeroxEntry))) as Hrun by (vm_compute; reflexivity).
  split; [exact Hrun|].
  exact (proj2 (X11_lookup_initialises_once _ _ _ _ _ _ _ Hrun) _ _ _).
Defined.

(** X12. [getVendor] keeps one parser for the process: the first call
    creates it with the path of its own options, and once a call has
    returned, every later call answers from that parser's index with no
    I/O, whatever path its options name; the answer is the vendor of the
    entry [lookup] finds, [null] when it finds none. *)
Theorem X12_getVendor_singleton
    (E : env) (s s' : option MacParser) (w w' : world)
    (defaultPath mac : string) (manufPath1 : option string) (r : option string) :
  Static.getVendor defaultPath mac manufPath1 E s w = (s', w', ok r) ->
  exists p',
    s' = Some p' /\ _ready p' = true /\
    (s = None -> manufPath p' = default defaultPath manufPath1) /\
    forall mac2 manufPath2 E2 w2,
      Static.getVendor defaultPath mac2 manufPath2 E2 s' w2
      = (s', w2,
         match lookupIn (_entries p') (_sortedLens p') mac2 with
         | inl e => inl e
         | inr hit => inr (vendor <$> hit)
         end).
Proof.
  unfold Static.getVendor.
  set (p := match s with Some p => p | None => newMacParser _ end).
  destruct (Parser.lookup mac E p w) as [[p1 w1] r1] eqn:Hrun.
  destruct r1 as [err|hit]; [done|]. intros [= <- <- <-].
  pose proof (lookup_ok_ready _ _ _ _ _ _ _ Hrun) as Hready.
  exists p1. split; [done|]. split; [done|]. split.
  - intros ->. subst p. unfold Parser.lookup in Hrun. unfold bind at 1 in Hrun.
    destruct (Parser.init E (newMacParser (default defaultPath manufPath1)) w)
      as [[p2 w2] [e|[]]] eqn:Hinit; [done|].
    apply init_effects in Hinit as (Hpath & _). rewrite bind_this in Hrun.
    unfold liftR in Hrun. by injection Hrun as <- _ _.
  - intros mac2 manufPath2 E2 w2. by rewrite lookup_ready.
Qed.

Lemma X12_witness :
  Static.getVendor "manuf.gz" "00:00:00:12:34:56" (Some Fixtures.manufGz)
    (Fixtures.envWithText Fixtures.xeroxLine) None Fixtures.diskWithArchive
  = (Some (Fixtures.readyParser Fixtures.xeroxLine),
     logCall (ReadFile Fixtures.manufGz)
       (logCall (Access Fixtures.manufGz) Fixtures.diskWithArchive),
     ok (Some "Xerox"%string)) /\
  exists p',
    _ready p' = true /\
    Static.getVendor "manuf.gz" "00:00:00:12:34:56" (Some "elsewhere.gz"%string)
      (Fixtures.envWithText Fixtures.ieeeText) (Some p') Fixtures.emptyDisk
    = (Some p', Fixtures.emptyDisk,
       match lookupIn (_entries p') (_sortedLens p') "00:00:00:12:34:56" with
       | inl e => inl e
       | inr hit => inr (vendor <$> hit)
       end).
Proof.
  assert (Static.getVendor "manuf.gz" "00:00:00:12:34:56" (Some Fixtures.manufGz)
            (Fixtures.envWithText Fixtures.xeroxLine) None Fixtures.diskWithArchive
          = (Some (Fixtures.readyParser Fixtures.xeroxLine),
             logCall (ReadFile Fixtures.manufGz)
               (logCall (Access Fixtures.manufGz) Fixtures.diskWithArchive),
             ok (Some "Xerox"%string))) as Hrun by (vm_compute; reflexivity).
  split; [exact Hrun|].
  destruct (X12_getVendor_singleton _ _ _ _ _ _ _ _ _ Hrun)
    as (p' & [= <-] & Hready & _ & Hlater).
  exists (Fixtures.readyParser Fixtures.xeroxLine). split; [exact Hready|].
  exact (Hlater _ _ _ _).
Defined.

(** * Further properties of the downloader *)

(** ** How a failure is reported *)

Lemma report_run_silent {A} stage d0 err E d w :
  @Scheduler.report A false stage d0 err E d w = (d, w, throw err).
Proof. reflexivity. Qed.

Lemma report_run_heard {A} stage d0 err E d w :
  Scheduler.listenersOf errorEvent d <> [] ->
  @Scheduler.report A true stage d0 err E d w
  = (d, logEvent (Failed err stage (url d0)) (Scheduler.listenersOf errorEvent d) w,
     throw err).
Proof.
  intros Hls. unfold Scheduler.report, Scheduler.emit. run_method. cbn [nameOf].
  by destruct (Scheduler.listenersOf errorEvent d).
Qed.

Lemma report_any_type {A B} emitErrors stage d0 err E d w d' w' err' :
  @Scheduler.report A emitErrors stage d0 err E d w = (d', w', throw err') ->
  @Scheduler.report B emitErrors stage d0 err E d w = (d', w', throw err').
Proof.
  unfold Scheduler.report. run_method.
  destruct emitErrors; cbn beta iota; [|by intros [= <- <- <-]].
  destruct (Scheduler.emit _ E d w) as [[d3 w3] [e3|[]]];
    cbn beta iota; by intros [= <- <- <-].
Qed.

(** Every failure of [_downloadFile] goes through one of its two [catch]
    blocks. *)
Lemma downloadFile_failure emitErrors emitUpdate E d w d' w' err :
  Scheduler._downloadFile emitErrors emitUpdate E d w = (d', w', throw err) ->
  exists w1 err0 stage,
    @Scheduler.report unit emitErrors stage d err0 E d w1 = (d', w', throw err) /\
    emitted w1 = emitted w /\ called w1 = called w /\ timers w1 = timers w /\
    ((stage = "download"%string /\ w1 = logCall (HttpGet (url d)) w /\
      snd (Scheduler.fetchBody d E d w) = throw err0)
     \/
     (stage = "write"%string /\
      exists body,
        snd (Scheduler.fetchBody d E d w) = ok body /\
        Scheduler.writeToDisk d body E d (logCall (HttpGet (url d)) w)
        = (d, w1, throw err0))).
Proof.
  unfold Scheduler._downloadFile.
  rewrite bind_this. unfold bind at 1. unfold tryCatch at 1.
  destruct (Scheduler.fetchBody d E d w) as [[d1 w1] r1] eqn:Hfetch.
  pose proof (fetchBody_run E d d w) as Hf. rewrite Hfetch in Hf.
  injection Hf as -> -> Hr1. cbn [snd].
  destruct r1 as [err0|body].
  { destruct (report_run (A := string) emitErrors "download" d err0 E d
                (logCall (HttpGet (url d)) w)) as (w2 & e2 & Hrep & _).
    rewrite Hrep. unfold throw at 1. cbn beta iota. intros [= <- <- <-].
    exists (logCall (HttpGet (url d)) w), err0, "download"%string.
    split; [exact (report_any_type _ _ _ _ _ _ _ _ _ _ Hrep)|].
    split_and!; [done | done | done | by left]. }
  unfold bind at 1. unfold tryCatch at 1.
  destruct (Scheduler.writeToDisk d body E d (logCall (HttpGet (url d)) w))
    as [[d2 w2] r2] eqn:Hwrite.
  pose proof Hwrite as Hcases.
  apply writeToDisk_cases in Hcases as (-> & Hem & Hca & Htm & _).
  destruct r2 as [err0|[]].
  - intros Hrep.
    destruct (report_run (A := unit) emitErrors "write" d err0 E d w2)
      as (w3 & e3 & Hrep' & _).
    rewrite Hrep' in Hrep. unfold throw in Hrep. cbn beta iota in Hrep.
    injection Hrep as <- <- <-.
    exists w2, err0, "write"%string. split; [exact Hrep'|].
    split_and!; [done | done | done |].
    right. split; [done|]. exists body. done.
  - cbn beta iota. rewrite bind_ask, emit_updated_run. unfold throw, ok. done.
Qed.

Lemma writeToDisk_error E d body s w s' w' err :
  Scheduler.writeToDisk d body E s w = (s', w', throw err) ->
  exists c call,
    err = SystemError c call /\
    call ∈ [Mkdir (dirname (filePath d));
            WriteFile (tmpPath (filePath d) (clock E)) body;
            Rename (tmpPath (filePath d) (clock E)) (filePath d)].
Proof.
  unfold Scheduler.writeToDisk, mkdir, writeFile, rename, fsCall. run_method.
  destruct (fault E (Mkdir _)) as [f|].
  { intros [= _ _ <-]. eexists _, _. split; [done|]. apply list_elem_of_here. }
  cbn [files logCall]. destruct (files w !! dirname (filePath d)).
  { intros [= _ _ <-]. eexists _, _. split; [done|]. apply list_elem_of_here. }
  destruct (fault E (WriteFile _ _)) as [f|].
  { intros [= _ _ <-]. eexists _, _. split; [done|].
    apply list_elem_of_further, list_elem_of_here. }
  cbn [files logCall setFiles trace].
  destruct (fault E (Rename _ _)) as [f|].
  { intros [= _ _ <-]. eexists _, _. split; [done|].
    do 2 apply list_elem_of_further. apply list_elem_of_here. }
  cbn [files logCall setFiles trace]. by rewrite lookup_insert_eq.
Qed.

(** With a listener on ['error'], a failed download has emitted one
    ['error'] event, carrying the error thrown. *)
Lemma failed_download_event E d w w' err :
  Scheduler.listenersOf errorEvent d <> [] ->
  forall emitUpdate d',
    Scheduler._downloadFile true emitUpdate E d w = (d', w', throw err) ->
    exists stage, emitted w' = emitted w ++ [Failed err stage (url d)].
Proof.
  intros Hls emitUpdate d' Hrun.
  apply downloadFile_failure in Hrun as (w1 & err0 & stage & Hrep & Hem & _).
  rewrite report_run_heard in Hrep by done. injection Hrep as <- <- <-.
  exists stage. cbn [emitted logEvent]. by rewrite Hem.
Qed.

(** X13. With a listener on ['error'], a failed [_downloadFile] emits
    exactly one ['error'] event, carrying the error it then throws and the
    stage it failed in.  Stage [download] means the request failed or the
    status was outside 200-299, and then no file system call was made at
    all; stage [write] means a 2xx answer was received and [mkdir], the
    write of the temporary file or the rename failed. *)
Theorem X13_failure_reported_with_stage
    (emitUpdate : bool) (E : env) (d d' : ScheduledFileDownloader) (w w' : world)
    (err : error) :
  Scheduler.listenersOf errorEvent d <> [] ->
  Scheduler._downloadFile true emitUpdate E d w = (d', w', throw err) ->
  exists stage,
    emitted w' = emitted w ++ [Failed err stage (url d)] /\
    called w' = called w ++
      map (fun l => (l, Failed err stage (url d))) (Scheduler.listenersOf errorEvent d) /\
    ((stage = "download"%string /\
      trace w' = trace w ++ [HttpGet (url d)] /\ files w' = files w /\
      (remote E (url d) = throw err \/
       exists statusCode body,
         remote E (url d) = ok (statusCode, body) /\
         (statusCode < 200 \/ 300 <= statusCode) /\
         err = HttpError statusCode (url d)))
     \/
     (stage = "write"%string /\
      exists statusCode body c call,
        remote E (url d) = ok (statusCode, body) /\
        200 <= statusCode < 300 /\
        err = SystemError c call /\
        call ∈ [Mkdir (dirname (filePath d));
                WriteFile (tmpPath (filePath d) (clock E)) body;
                Rename (tmpPath (filePath d) (clock E)) (filePath d)])).
Proof.
  intros Hls Hrun.
  apply downloadFile_failure in Hrun
    as (w1 & err0 & stage & Hrep & Hem & Hca & _ & Hstage).
  rewrite report_run_heard in Hrep by done. injection Hrep as <- <- <-.
  exists stage. cbn [emitted called logEvent]. rewrite Hem, Hca.
  split; [done|]. split; [done|].
  rewrite fetchBody_run in Hstage. cbn [snd] in Hstage.
  destruct Hstage as [(-> & -> & Hfetch)|(-> & body & Hfetch & Hwrite)];
    unfold throw, ok in Hfetch.
  - left. split; [done|]. split; [done|]. split; [done|].
    destruct (remote E (url d)) as [e|[statusCode buf]];
      [left; by injection Hfetch as ->|].
    destruct ((statusCode <? 200) || (300 <=? statusCode)) eqn:Hs; [|done].
    right. exists statusCode, buf. split; [done|].
    injection Hfetch as <-. split; [|done].
    apply orb_true_iff in Hs as [Hs|Hs]; lia.
  - right. split; [done|].
    destruct (remote E (url d)) as [e|[statusCode buf]]; [done|].
    destruct ((statusCode <? 200) || (300 <=? statusCode)) eqn:Hs; [done|].
    injection Hfetch as ->.
    apply writeToDisk_error in Hwrite as (c & call & -> & Hcall).
    exists statusCode, body, c, call. split; [done|]. split; [|done].
    apply orb_false_iff in Hs as [H1 H2]. lia.
Qed.

Lemma X13_witness :
  Scheduler.listenersOf errorEvent Fixtures.aDownloader <> [] /\
  snd (Scheduler._downloadFile true true (Fixtures.envDiskFull "new-archive" "new-")
         Fixtures.aDownloader Fixtures.diskWithArchive)
  = throw (SystemError "ENOSPC" (WriteFile "data/manuf.gz.tmp-1000" "new-archive")) /\
  exists stage,
    emitted (snd (fst (Scheduler._downloadFile true true
                         (Fixtures.envDiskFull "new-archive" "new-")
                         Fixtures.aDownloader Fixtures.diskWithArchive)))
    = emitted Fixtures.diskWithArchive ++
      [Failed (SystemError "ENOSPC" (WriteFile "data/manuf.gz.tmp-1000" "new-archive"))
              stage (url Fixtures.aDownloader)].
Proof.
  assert (Scheduler.listenersOf errorEvent Fixtures.aDownloader <> []) as Hls
    by (vm_compute; discriminate).
  set (run := Scheduler._downloadFile true true
                (Fixtures.envDiskFull "new-archive" "new-")
                Fixtures.aDownloader Fixtures.diskWithArchive).
  assert (snd run
          = throw (SystemError "ENOSPC"
                     (WriteFile "data/manuf.gz.tmp-1000" "new-archive"))) as Hr
    by (vm_compute; reflexivity).
  assert (run = (fst (fst run), snd (fst run),
                 throw (SystemError "ENOSPC"
                          (WriteFile "data/manuf.gz.tmp-1000" "new-archive")))) as Hrun
    by (rewrite <- Hr; by destruct run as [[? ?] ?]).
  split; [exact Hls|]. split; [exact Hr|].
  destruct (X13_failure_reported_with_stage true
              (Fixtures.envDiskFull "new-archive" "new-") Fixtures.aDownloader _
              Fixtures.diskWithArchive _ _ Hls Hrun) as (stage & Hem & _).
  exists stage. exact Hem.
Defined.

Lemma isExpired_run E d w :
  exists r, Scheduler._isExpired E d w = (d, logCall (Stat (filePath d)) w, r).
Proof.
  unfold Scheduler._isExpired. rewrite bind_this.
  unfold bind at 1. unfold tryCatch at 1. unfold bind at 1.
  unfold stat, fsCall.
  destruct (fault E (Stat (filePath d))) as [f|].
  { unfold throw at 1. cbn beta iota. destruct (Scheduler.isNotFound _);
      run_method; eauto. }
  cbn [files logCall]. destruct (files w !! filePath d) as [ino|]; run_method.
  - destruct (cronPrev E (cron d) (clock E)); eauto.
  - eauto.
Qed.

(** X14. In throwing mode ([throwErrorsOnInit] on) [init] reports by
    exceptions only: when it throws, no event at all has been emitted, no
    listener called, and the scheduling step has not run (the downloader
    and the timers are what they were); when it returns, the scheduling
    step has run, so that the job is the one the scheduling library gave
    for the cron expression, or null when it gave none, and the only
    event that can have been emitted is ['updated']. *)
Theorem X14_throwing_init_emits_no_error
    (E : env) (d d' : ScheduledFileDownloader) (w w' : world) (r : result unit) :
  throwErrorsOnInit d = true ->
  Scheduler.init E d w = (d', w', r) ->
  (forall err, r = throw err ->
     d' = d /\ emitted w' = emitted w /\ called w' = called w /\
     timers w' = timers w) /\
  (r = ok tt ->
     job d' = (if scheduleJob E (cron d) then Some (cron d) else None) /\
     (emitted w' = emitted w \/
      emitted w' = emitted w ++ [Updated (filePath d) (url d) (clock E)])).
Proof.
  intros Hmode. unfold Scheduler.init. rewrite bind_this.
  unfold bind at 1. unfold tryCatch at 1. rewrite Hmode.
  destruct (isExpired_run E d w) as (r0 & ->).
  destruct r0 as [err|expired].
  { run_method. intros [= <- <- <-]. split; [|done]. by intros err' _. }
  cbn beta iota. unfold bind at 1. unfold when.
  destruct expired.
  - unfold tryCatch at 1. cbn [negb].
    destruct (Scheduler._downloadFile false false E d (logCall (Stat (filePath d)) w))
      as [[d1 w1] r1] eqn:Hdl.
    destruct r1 as [err|[]].
    + apply downloadFile_failure in Hdl
        as (w2 & err0 & stage & Hrep & He & Hc & Ht & _).
      rewrite report_run_silent in Hrep. injection Hrep as <- <- <-.
      run_method. intros [= <- <- <-].
      split; [|done]. by intros err' _.
    + apply downloadFile_cases in Hdl as (-> & Ht & [(e & ? & ? & Hr & _)|Hok]);
        [unfold throw in Hr; done|].
      destruct Hok as (? & ? & _ & _ & _ & _ & _ & He & Hc).
      unfold Scheduler._scheduleRecurringJob. cbn beta iota.
      destruct (scheduleJob E (cron d)); intros [= <- <- <-];
        (split; [done|]); intros _; (split; [done|]); by right.
  - run_method. unfold Scheduler._scheduleRecurringJob.
    destruct (scheduleJob E (cron d)); intros [= <- <- <-];
      (split; [done|]); intros _; (split; [done|]); by left.
Qed.

Lemma X14_witness :
  throwErrorsOnInit Samples.strictDownloader = true /\
  Scheduler.init (Fixtures.envWithText Fixtures.xeroxLine) Samples.strictDownloader
    Fixtures.emptyDisk
  = (Samples.strictDownloader,
     logCall (HttpGet (url Samples.strictDownloader))
       (logCall (Stat Fixtures.manufGz) Fixtures.emptyDisk),
     throw (TransportError "ECONNREFUSED")) /\
  emitted (logCall (HttpGet (url Samples.strictDownloader))
             (logCall (Stat Fixtures.manufGz) Fixtures.emptyDisk))
  = emitted Fixtures.emptyDisk /\
  job (fst (fst (Scheduler.init Samples.envUnschedulable Samples.strictDownloader
                   Fixtures.diskWithArchive)))
  = None.
Proof.
  assert (Scheduler.init (Fixtures.envWithText Fixtures.xeroxLine)
            Samples.strictDownloader Fixtures.emptyDisk
          = (Samples.strictDownloader,
             logCall (HttpGet (url Samples.strictDownloader))
               (logCall (Stat Fixtures.manufGz) Fixtures.emptyDisk),
             throw (TransportError "ECONNREFUSED"))) as Hrun
    by (vm_compute; reflexivity).
  split; [reflexivity|]. split; [exact Hrun|].
  destruct (X14_throwing_init_emits_no_error (Fixtures.envWithText Fixtures.xeroxLine)
              Samples.strictDownloader _ Fixtures.emptyDisk _ _ eq_refl Hrun)
    as (Hthrow & _).
  split; [exact (proj1 (proj2 (Hthrow _ eq_refl)))|].
  set (run := Scheduler.init Samples.envUnschedulable Samples.strictDownloader
                Fixtures.diskWithArchive).
  assert (snd run = ok tt) as Hr by (vm_compute; reflexivity).
  assert (run = (fst (fst run), snd (fst run), ok tt)) as Hrun2
    by (rewrite <- Hr; by destruct run as [[? ?] ?]).
  destruct (X14_throwing_init_emits_no_error Samples.envUnschedulable
              Samples.strictDownloader _ Fixtures.diskWithArchive _ _ eq_refl Hrun2)
    as (_ & Hret).
  exact (proj1 (Hret eq_refl)).
Defined.

(** X15. The callback of the recurring job never throws, whatever
    fails and whether or not anybody listens to ['error'].  With a listener
    on ['error'] each run emits exactly one event: ['updated'] after a
    download that succeeded, ['error'] after one that failed, and in that
    case the destination file is what it was. *)
Theorem X15_tick_never_throws
    (E : env) (d d' : ScheduledFileDownloader) (w w' : world) (r : result unit) :
  Scheduler.tick E d w = (d', w', r) ->
  r = ok tt /\ d' = d /\ timers w' = timers w /\
  (Scheduler.listenersOf errorEvent d <> [] ->
   exists ev,
     emitted w' = emitted w ++ [ev] /\
     (isFailed ev = true -> files w' !! filePath d = files w !! filePath d) /\
     (isFailed ev = false -> ev = Updated (filePath d) (url d) (clock E))).
Proof.
  unfold Scheduler.tick, tryCatch.
  destruct (Scheduler._downloadFile true true E d w) as [[d1 w1] r1] eqn:Hdl.
  pose proof Hdl as Hcases.
  apply downloadFile_cases in Hcases as (-> & Ht & Hcases).
  destruct r1 as [err|[]].
  - run_method. intros [= <- <- <-]. split_and!; try done. intros Hls.
    destruct (failed_download_event E d w w1 err Hls true d Hdl) as (stage & Hem).
    exists (Failed err stage (url d)). split; [done|]. split; [|done].
    intros _. destruct Hcases as [(e & body & calls & _ & Hfiles & _)|Hok].
    + destruct Hfiles as [->|(part & ->)]; [done|].
      rewrite lookup_insert_ne; [done|]. apply tmpPath_fresh.
    + destruct Hok as (? & ? & Hr & _). done.
  - intros [= <- <- <-]. split_and!; try done. intros _.
    destruct Hcases as [(e & ? & ? & Hr & _)|Hok]; [unfold throw in Hr; done|].
    destruct Hok as (? & ? & _ & _ & _ & _ & _ & He & _).
    eexists. split; [exact He|]. done.
Qed.

Lemma X15_witness :
  Scheduler.listenersOf errorEvent Fixtures.aDownloader <> [] /\
  snd (Scheduler.tick (Fixtures.envDiskFull "new-archive" "new-")
         Fixtures.aDownloader Fixtures.diskWithArchive) = ok tt /\
  exists ev,
    emitted (snd (fst (Scheduler.tick (Fixtures.envDiskFull "new-archive" "new-")
                         Fixtures.aDownloader Fixtures.diskWithArchive)))
    = emitted Fixtures.diskWithArchive ++ [ev].
Proof.
  assert (Scheduler.listenersOf errorEvent Fixtures.aDownloader <> []) as Hls
    by (vm_compute; discriminate).
  set (run := Scheduler.tick (Fixtures.envDiskFull "new-archive" "new-")
                Fixtures.aDownloader Fixtures.diskWithArchive).
  assert (run = (fst (fst run), snd (fst run), snd run)) as Hrun
    by by destruct run as [[? ?] ?].
  destruct (X15_tick_never_throws (Fixtures.envDiskFull "new-archive" "new-")
              Fixtures.aDownloader _ Fixtures.diskWithArchive _ _ Hrun)
    as (Hr & _ & _ & Hev).
  split; [exact Hls|]. split; [exact Hr|].
  destruct (Hev Hls) as (ev & Hem & _). exists ev. exact Hem.
Defined.

(** X16. In notifying mode ([throwErrorsOnInit] off) with a listener on
    ['error'], [init] always returns and always gets to the scheduling
    step, whatever the staleness check, the server or the disk do: every
    failure ends up as an ['error'] event, and the job is the one the
    scheduling library gives for the cron expression, null when it gives
    none. *)
Theorem X16_notifying_init_always_returns
    (E : env) (d : ScheduledFileDownloader) (w : world) :
  throwErrorsOnInit d = false ->
  Scheduler.listenersOf errorEvent d <> [] ->
  exists w',
    Scheduler.init E d w
    = (setJob (if scheduleJob E (cron d) then Some (cron d) else None) d, w', ok tt).
Proof.
  intros Hmode Hls. unfold Scheduler.init. rewrite bind_this.
  unfold bind at 1. unfold tryCatch at 1. rewrite Hmode.
  destruct (isExpired_run E d w) as (r0 & ->).
  assert (forall w0,
            exists w', Scheduler._scheduleRecurringJob E d w0
                       = (setJob (if scheduleJob E (cron d) then Some (cron d) else None) d,
                          w', ok tt)) as Hschedule.
  { intros w0. unfold Scheduler._scheduleRecurringJob.
    destruct (scheduleJob E (cron d)); eauto. }
  assert (forall w0,
            exists w',
              (when true
                 (tryCatch (Scheduler._downloadFile (negb false) false)
                    (fun _ : error => ret tt)) ;; Scheduler._scheduleRecurringJob)
                E d w0
              = (setJob (if scheduleJob E (cron d) then Some (cron d) else None) d,
                 w', ok tt)) as Hdownload.
  { intros w0. unfold bind at 1. unfold when, tryCatch.
    destruct (Scheduler._downloadFile (negb false) false E d w0) as [[d1 w1] r1] eqn:Hdl.
    apply downloadFile_cases in Hdl as (-> & _).
    destruct r1 as [err|[]]; run_method; apply Hschedule. }
  destruct r0 as [err|expired].
  - unfold bind at 1. unfold Scheduler.emit. cbn [nameOf].
    destruct (Scheduler.listenersOf errorEvent d) as [|l ls] eqn:Hl; [done|].
    run_method. apply Hdownload.
  - cbn beta iota. destruct expired; [apply Hdownload|].
    run_method. apply Hschedule.
Qed.

Lemma X16_witness :
  throwErrorsOnInit Fixtures.aDownloader = false /\
  (exists w',
     Scheduler.init (Fixtures.envWithText Fixtures.xeroxLine) Fixtures.aDownloader
       Fixtures.emptyDisk
     = (setJob (Some (cron Fixtures.aDownloader)) Fixtures.aDownloader, w', ok tt)) /\
  (exists w',
     Scheduler.init Samples.envUnschedulable Fixtures.aDownloader Fixtures.emptyDisk
     = (setJob None Fixtures.aDownloader, w', ok tt)).
Proof.
  assert (Scheduler.listenersOf errorEvent Fixtures.aDownloader <> []) as Hls
    by (vm_compute; discriminate).
  split; [reflexivity|]. split.
  - exact (X16_notifying_init_always_returns (Fixtures.envWithText Fixtures.xeroxLine)
             Fixtures.aDownloader Fixtures.emptyDisk eq_refl Hls).
  - exact (X16_notifying_init_always_returns Samples.envUnschedulable
             Fixtures.aDownloader Fixtures.emptyDisk eq_refl Hls).
Defined.

(** X17. A download that succeeded leaves a fresh file: if the cron
    library's most recent trigger time is not later than the clock, the
    staleness check made right after the download answers [false]. *)
Theorem X17_fresh_after_download
    (emitErrors emitUpdate : bool) (E : env) (d d' : ScheduledFileDownloader)
    (w w' : world) (lastDue : Z) :
  Scheduler._downloadFile emitErrors emitUpdate E d w = (d', w', ok tt) ->
  fault E (Stat (filePath d)) = None ->
  cronPrev E (cron d) (clock E) = Some lastDue ->
  lastDue <= clock E ->
  Scheduler._isExpired E d' w' = (d', logCall (Stat (filePath d)) w', ok false).
Proof.
  intros Hrun Hfault Hcron Hdue.
  apply downloadFile_cases in Hrun as (-> & _ & [(e & ? & ? & Hr & _)|Hok]);
    [unfold throw in Hr; done|].
  destruct Hok as (statusCode & body & _ & _ & _ & Hfiles & _).
  unfold Scheduler._isExpired. rewrite bind_this.
  unfold bind at 1. unfold tryCatch at 1. unfold bind at 1.
  unfold stat, fsCall. rewrite Hfault. cbn [files logCall].
  rewrite Hfiles, lookup_insert_eq. run_method. rewrite Hcron. cbn [mtime].
  do 2 f_equal. apply Z.ltb_ge. done.
Qed.

Lemma X17_witness :
  snd (Scheduler._downloadFile true true (Fixtures.envOnline "new-archive")
         Fixtures.aDownloader Fixtures.emptyDisk) = ok tt /\
  snd (Scheduler._isExpired (Fixtures.envOnline "new-archive") Fixtures.aDownloader
         Fixtures.emptyDisk) = ok true /\
  snd (Scheduler._isExpired (Fixtures.envOnline "new-archive")
         (fst (fst (Scheduler._downloadFile true true (Fixtures.envOnline "new-archive")
                      Fixtures.aDownloader Fixtures.emptyDisk)))
         (snd (fst (Scheduler._downloadFile true true (Fixtures.envOnline "new-archive")
                      Fixtures.aDownloader Fixtures.emptyDisk))))
  = ok false.
Proof.
  set (run := Scheduler._downloadFile true true (Fixtures.envOnline "new-archive")
                Fixtures.aDownloader Fixtures.emptyDisk).
  assert (snd run = ok tt) as Hr by (vm_compute; reflexivity).
  assert (run = (fst (fst run), snd (fst run), ok tt)) as Hrun
    by (rewrite <- Hr; by destruct run as [[? ?] ?]).
  split; [exact Hr|]. split; [vm_compute; reflexivity|].
  rewrite (X17_fresh_after_download true true (Fixtures.envOnline "new-archive")
             Fixtures.aDownloader _ Fixtures.emptyDisk _ 500 Hrun eq_refl eq_refl);
    [reflexivity|]. vm_compute. discriminate.
Defined.

(** ** The name of the temporary file *)

Lemma append_inj_r f a b : String.append f a = String.append f b -> a = b.
Proof. induction f as [|c f IH]; simpl; [done|]. intros [= H]. by apply IH. Qed.

Lemma to_int_proper n :
  Z.to_int n <> Decimal.Pos Decimal.Nil /\ Z.to_int n <> Decimal.Neg Decimal.Nil.
Proof.
  destruct n as [|p|p]; simpl; split; try discriminate; intros [= H];
    by apply DecimalPos.Unsigned.to_uint_nonnil in H.
Qed.

Lemma decimal_inj n1 n2 : decimal n1 = decimal n2 -> n1 = n2.
Proof.
  unfold decimal. intros Heq. apply DecimalZ.to_int_inj.
  destruct (to_int_proper n1) as [Hp1 Hn1], (to_int_proper n2) as [Hp2 Hn2].
  pose proof (NilZero.isi _ Hp1 Hn1) as H1. pose proof (NilZero.isi _ Hp2 Hn2) as H2.
  rewrite Heq in H1. congruence.
Qed.

(** X18. The temporary file is named after the destination and the
    clock: two downloads to the same destination write the same temporary
    file exactly when they read the same clock value, so that attempts
    started at different clock values never write to each other's
    temporary file. *)
Theorem X18_tmpPath_by_clock (f : string) (now1 now2 : Z) :
  tmpPath f now1 = tmpPath f now2 <-> now1 = now2.
Proof.
  split; [|by intros ->]. unfold tmpPath. intros Heq.
  apply append_inj_r, append_inj_r in Heq. by apply decimal_inj.
Qed.

(** * Properties of the entry point *)

Lemma lookupEach_ready E p w entities :
  _ready p = true ->
  EntryPoint.lookupEach entities E p w
  = (p, w, lookupAllIn (_entries p) (_sortedLens p) entities).
Proof.
  intros Hready. induction entities as [|value rest IH]; [done|].
  cbn [EntryPoint.lookupEach lookupAllIn]. unfold bind at 1.
  rewrite lookup_ready by done.
  destruct (lookupIn (_entries p) (_sortedLens p) value) as [err|result]; [done|].
  cbn [rbind]. unfold bind at 1. rewrite IH.
  by destruct (lookupAllIn (_entries p) (_sortedLens p) rest).
Qed.

Lemma lookupAllIn_shape entries lens entities rs :
  lookupAllIn entries lens entities = ok rs ->
  map fst rs = entities /\
  Forall2 (fun value r => lookupIn entries lens value = ok (oui <$> snd r)) entities rs.
Proof.
  revert rs. induction entities as [|value rest IH]; intros rs; simpl.
  - intros [= <-]. split; [done | constructor].
  - destruct (lookupIn entries lens value) as [err|result] eqn:Hl; [done|]. simpl.
    destruct (lookupAllIn entries lens rest) as [err|rs'] eqn:Hrest; [done|]. simpl.
    intros [= <-]. destruct (IH rs' eq_refl) as [Hm Hf].
    split.
    + simpl. rewrite Hm. by destruct result.
    + constructor; [by destruct result | done].
Qed.

(** X19. Once downloader and parser are both in place and the parser
    is initialised, [doLookup] does no I/O and changes nothing: it calls
    back with one result per entity, in the order of the entities, each
    the answer of [lookup] on the index in force ([data: null] for a
    miss), or it rejects with the first error a lookup raises. *)
Theorem X19_doLookup_serves_from_memory
    (E : env) (s : Integration.state) (w : world) (p : MacParser)
    (d : ScheduledFileDownloader) (manufFilePath : string) (entities : list string)
    (autoUpdate : bool) :
  Integration.parser s = Some p ->
  Integration.fileDownloader s = Some d ->
  _ready p = true ->
  EntryPoint.doLookup manufFilePath entities autoUpdate E s w
  = (s, w, match lookupAllIn (_entries p) (_sortedLens p) entities with
           | inl err => inl err
           | inr lookupResults => inr (cbResults lookupResults)
           end) /\
  forall lookupResults,
    lookupAllIn (_entries p) (_sortedLens p) entities = ok lookupResults ->
    map fst lookupResults = entities /\
    Forall2 (fun value r =>
               lookupIn (_entries p) (_sortedLens p) value = ok (oui <$> snd r))
            entities lookupResults.
Proof.
  intros Hp Hd Hready. split; [|apply lookupAllIn_shape].
  unfold EntryPoint.doLookup. unfold bind at 1. unfold tryCatch at 1.
  unfold bind at 1. unfold Integration.maybeInitializeParserAndDownloader.
  rewrite bind_this, Hd, Hp. run_method. rewrite Hp.
  unfold Integration.onParser. rewrite lookupEach_ready by done.
  destruct s as [sp sd]. cbn in Hp, Hd. subst sp sd. cbn.
  by destruct (lookupAllIn (_entries p) (_sortedLens p) entities).
Qed.

Lemma X19_witness :
  _ready (Fixtures.readyParser Fixtures.ieeeText) = true /\
  EntryPoint.doLookup Fixtures.manufGz ["00:1b:c5:00:01:22"; "junk"; "00:1b:c5:ff:00:00"]%string
    true (Fixtures.envWithText Fixtures.xeroxLine)
    (Integration.mkState (Some (Fixtures.readyParser Fixtures.ieeeText))
       (Some Samples.strictDownloader))
    Fixtures.emptyDisk
  = (Integration.mkState (Some (Fixtures.readyParser Fixtures.ieeeText))
       (Some Samples.strictDownloader),
     Fixtures.emptyDisk,
     ok (cbResults
           [("00:1b:c5:00:01:22"%string,
             Some (LookupData ["Acme"%string] Fixtures.acmeEntry));
            ("junk"%string, None);
            ("00:1b:c5:ff:00:00"%string,
             Some (LookupData ["IEEE"%string] Fixtures.ieeeEntry))])).
Proof.
  split; [reflexivity|].
  destruct (X19_doLookup_serves_from_memory (Fixtures.envWithText Fixtures.xeroxLine)
              (Integration.mkState (Some (Fixtures.readyParser Fixtures.ieeeText))
                 (Some Samples.strictDownloader))
              Fixtures.emptyDisk (Fixtures.readyParser Fixtures.ieeeText)
              Samples.strictDownloader Fixtures.manufGz
              ["00:1b:c5:00:01:22"; "junk"; "00:1b:c5:ff:00:00"]%string true
              eq_refl eq_refl eq_refl) as [Hrun _].
  rewrite Hrun. vm_compute. reflexivity.
Defined.

Lemma reinitialize_trace E p w p' w' r :
  Parser.reinitialize E p w = (p', w', r) ->
  exists rest,
    trace w' = trace w ++ Access (manufPath p) :: rest /\
    Forall (readsOnly (manufPath p)) rest.
Proof.
  unfold Parser.reinitialize. unfold bind at 1.
  destruct (ensureManufFile_run E p w) as (r0 & ->).
  destruct r0 as [err|[]].
  { intros [= _ <- _]. exists []. split; [done | constructor]. }
  unfold bind at 1.
  destruct (parseManuf_cases E p (logCall (Access (manufPath p)) w))
    as [(e & ->)|(gz & text & byBits & _ & _ & _ & ->)].
  - intros [= _ <- _]. exists [ReadFile (manufPath p)]. split.
    + cbn. by rewrite <- app_assoc.
    + constructor; [by right | constructor].
  - run_method. intros [= _ <- _]. exists [ReadFile (manufPath p)]. split.
    + cbn. by rewrite <- app_assoc.
    + constructor; [by right | constructor].
Qed.

(** X20. With automatic updates off no downloader is ever created, so
    the shortcut for an initialised module is never taken: every [doLookup]
    throws the parser it had away, builds a new one and initialises it,
    which checks and reads the data file again, and leaves the module
    without a downloader for the next call to do the same.  An error of
    that initialisation goes to the callback. *)
Theorem X20_no_caching_without_autoUpdate
    (E : env) (s : Integration.state) (w : world)
    (manufFilePath : string) (entities : list string) :
  Integration.fileDownloader s = None ->
  exists p1 w1 r1 r,
    Parser.init E (newMacParser manufFilePath) w = (p1, w1, r1) /\
    EntryPoint.doLookup manufFilePath entities false E s w
    = (Integration.mkState (Some p1) None, w1, r) /\
    (exists rest,
       trace w1 = trace w ++ Access manufFilePath :: rest /\
       Forall (readsOnly manufFilePath) rest) /\
    (forall err, r1 = throw err -> r = ok (cbError err)) /\
    (r1 = ok tt ->
     r = match lookupAllIn (_entries p1) (_sortedLens p1) entities with
         | inl err => inl err
         | inr lookupResults => inr (cbResults lookupResults)
         end).
Proof.
  intros Hd.
  destruct (Parser.init E (newMacParser manufFilePath) w) as [[p1 w1] r1] eqn:Hinit.
  assert (exists rest,
            trace w1 = trace w ++ Access manufFilePath :: rest /\
            Forall (readsOnly manufFilePath) rest) as Htrace.
  { rewrite init_unready in Hinit by done. by apply reinitialize_trace in Hinit. }
  assert (exists r,
            EntryPoint.doLookup manufFilePath entities false E s w
            = (Integration.mkState (Some p1) None, w1, r) /\
            (forall err, r1 = throw err -> r = ok (cbError err)) /\
            (r1 = ok tt ->
             r = match lookupAllIn (_entries p1) (_sortedLens p1) entities with
                 | inl err => inl err
                 | inr lookupResults => inr (cbResults lookupResults)
                 end)) as (r & Hrun & Herr & Hok).
  { unfold EntryPoint.doLookup. unfold bind at 1. unfold tryCatch at 1.
    unfold bind at 1. unfold Integration.maybeInitializeParserAndDownloader.
    rewrite bind_this, Hd. unfold bind at 1. unfold when. unfold ret at 1.
    unfold ok at 1. cbn beta iota.
    unfold Integration.onParser at 1. rewrite Hinit. rewrite Hd.
    destruct r1 as [err|[]].
    - run_method. eexists. split; [reflexivity|]. split; [|done].
      by intros err' [= <-].
    - pose proof (init_ok_ready _ _ _ _ _ Hinit) as Hready.
      run_method. cbn [Integration.parser Integration.fileDownloader].
      unfold Integration.onParser. rewrite lookupEach_ready by done.
      cbn [Integration.parser Integration.fileDownloader].
      destruct (lookupAllIn (_entries p1) (_sortedLens p1) entities) as [err|rs].
      + eexists. split; [reflexivity|]. split; [done|]. done.
      + eexists. split; [reflexivity|]. split; [done|]. done. }
  exists p1, w1, r1, r. done.
Qed.

Lemma X20_witness :
  Integration.fileDownloader
    (Integration.mkState (Some (Fixtures.readyParser Fixtures.ieeeText)) None) = None /\
  exists p1 w1 r,
    EntryPoint.doLookup Fixtures.manufGz ["00:00:00:12:34:56"%string] false
      (Fixtures.envWithText Fixtures.xeroxLine)
      (Integration.mkState (Some (Fixtures.readyParser Fixtures.ieeeText)) None)
      Fixtures.diskWithArchive
    = (Integration.mkState (Some p1) None, w1, r) /\
    exists rest,
      trace w1 = trace Fixtures.diskWithArchive ++ Access Fixtures.manufGz :: rest.
Proof.
  split; [reflexivity|].
  destruct (X20_no_caching_without_autoUpdate (Fixtures.envWithText Fixtures.xeroxLine)
              (Integration.mkState (Some (Fixtures.readyParser Fixtures.ieeeText)) None)
              Fixtures.diskWithArchive Fixtures.manufGz ["00:00:00:12:34:56"%string]
              eq_refl) as (p1 & w1 & r1 & r & _ & Hrun & (rest & Htrace & _) & _).
  exists p1, w1, r. split; [exact Hrun|]. exists rest. exact Htrace.
Defined.

Lemma no_listeners_left (ls : list (eventName * listener)) (n : eventName) :
  map snd (List.filter (fun nl => bool_decide (fst nl = n))
    (List.filter (fun nl => negb (bool_decide (fst nl = errorEvent)))
       (List.filter (fun nl => negb (bool_decide (fst nl = updated))) ls))) = [].
Proof.
  induction ls as [|[[] l] ls IH]; [done|..]; cbn; exact IH.
Qed.

(** X21. When the downloader's [init] throws on start-up, [doLookup]
    hands the error to its callback and attempts no lookup; the parser
    variable is what it was (null on a first start), and the downloader it
    leaves in the module has no listener on ['updated'] or ['error'] any
    more. *)
Theorem X21_failed_downloader_start
    (E : env) (s : Integration.state) (w w2 : world)
    (manufFilePath : string) (entities : list string)
    (d2 : ScheduledFileDownloader) (err : error) :
  Integration.parser s = None \/ Integration.fileDownloader s = None ->
  Scheduler.init E
    (mkDownloader Integration.MANUF_GZ_URL manufFilePath Integration.FILE_UPDATE_CRON
       true None [(updated, manufFileUpdated); (errorEvent, manufFileUpdateError)])
    w = (d2, w2, throw err) ->
  exists d3,
    EntryPoint.doLookup manufFilePath entities true E s w
    = (Integration.mkState (Integration.parser s) (Some d3), w2, ok (cbError err)) /\
    Scheduler.listenersOf updated d3 = [] /\
    Scheduler.listenersOf errorEvent d3 = [].
Proof.
  intros Hnull Hinit.
  unfold EntryPoint.doLookup. unfold bind at 1. unfold tryCatch at 1.
  unfold bind at 1. unfold Integration.maybeInitializeParserAndDownloader.
  rewrite bind_this.
  assert (forall (A : Type) (a b : M Integration.state A),
            match Integration.fileDownloader s, Integration.parser s with
            | Some _, Some _ => a
            | _, _ => b
            end = b) as ->.
  { intros A a b. destruct Hnull as [-> | ->]; [by destruct (Integration.fileDownloader s)|done]. }
  unfold bind at 1. unfold when. unfold Integration.onDownloader at 1.
  unfold bind at 1. unfold Scheduler.on at 1. unfold assign at 1.
  unfold ok at 1. cbn beta iota.
  unfold bind at 1. unfold Scheduler.on at 1. unfold assign at 1.
  unfold ok at 1. cbn beta iota.
  unfold tryCatch at 1.
  change (setListeners _ (setListeners _ _))
    with (mkDownloader Integration.MANUF_GZ_URL manufFilePath
            Integration.FILE_UPDATE_CRON true None
            [(updated, manufFileUpdated); (errorEvent, manufFileUpdateError)]).
  rewrite Hinit. unfold throw at 1. cbn beta iota.
  unfold Scheduler.removeAllListeners. run_method.
  eexists. split; [reflexivity|].
  unfold Scheduler.listenersOf, setListeners. cbn [listeners].
  split; apply no_listeners_left.
Qed.

Lemma X21_witness :
  exists d3,
    EntryPoint.doLookup Fixtures.manufGz ["00:00:00:12:34:56"%string] true
      (Fixtures.envWithText Fixtures.xeroxLine) (Integration.mkState None None)
      Fixtures.emptyDisk
    = (Integration.mkState None (Some d3),
       logCall (HttpGet Integration.MANUF_GZ_URL)
         (logCall (Stat Fixtures.manufGz) Fixtures.emptyDisk),
       ok (cbError (TransportError "ECONNREFUSED"))) /\
    Scheduler.listenersOf updated d3 = [].
Proof.
  destruct (X21_failed_downloader_start (Fixtures.envWithText Fixtures.xeroxLine)
              (Integration.mkState None None) Fixtures.emptyDisk
              (logCall (HttpGet Integration.MANUF_GZ_URL)
                 (logCall (Stat Fixtures.manufGz) Fixtures.emptyDisk))
              Fixtures.manufGz ["00:00:00:12:34:56"%string]
              (mkDownloader Integration.MANUF_GZ_URL Fixtures.manufGz
                 Integration.FILE_UPDATE_CRON true None
                 [(updated, manufFileUpdated); (errorEvent, manufFileUpdateError)])
              (TransportError "ECONNREFUSED") (or_introl eq_refl))
    as (d3 & Hrun & Hup & _).
  - vm_compute. reflexivity.
  - exists d3. split; [exact Hrun | exact Hup].
Defined.

(** X22. The rebuild handler never throws and never touches the
    downloader or the files.  Without a parser it does nothing.  With one,
    either the rebuild fails and the parser is exactly what it was, index
    and readiness included, or the parser is ready on the index of the
    data file as it is now. *)
Theorem X22_rebuild_handler_is_safe
    (E : env) (s s' : Integration.state) (w w' : world) (r : result unit) :
  EntryPoint.manufFileUpdated_handler E s w = (s', w', r) ->
  r = ok tt /\
  Integration.fileDownloader s' = Integration.fileDownloader s /\
  files w' = files w /\
  (Integration.parser s = None -> s' = s /\ w' = w) /\
  (forall p, Integration.parser s = Some p ->
     Integration.parser s' = Some p \/
     exists gz text byBits,
       files w !! manufPath p = Some gz /\
       gunzipSync E (data gz) = Some text /\
       parseText text = ok byBits /\
       Integration.parser s'
       = Some (mkMacParser (manufPath p) true byBits (sortedLensOf byBits))).
Proof.
  unfold EntryPoint.manufFileUpdated_handler. rewrite bind_this. unfold tryCatch.
  destruct (Integration.parser s) as [p|] eqn:Hp.
  - unfold Integration.onParser.
    destruct (reinitialize_cases E p w)
      as [(w1 & e & -> & Hf)|(gz & text & byBits & w1 & Hgz & Hz & Hparse & -> & Hf)].
    + run_method. intros [= <- <- <-]. split_and!; try done.
      intros p0 [= <-]. by left.
    + intros [= <- <- <-]. split_and!; try done.
      intros p0 [= <-]. right. by exists gz, text, byBits.
  - run_method. intros [= <- <- <-]. split_and!; try done.
Qed.

Lemma X22_witness :
  EntryPoint.manufFileUpdated_handler (Fixtures.envWithText "vendor list")
    (Integration.mkState (Some (Fixtures.readyParser Fixtures.ieeeText))
       (Some Samples.strictDownloader))
    Fixtures.diskWithArchive
  = (Integration.mkState (Some (Fixtures.readyParser Fixtures.ieeeText))
       (Some Samples.strictDownloader),
     logCall (ReadFile Fixtures.manufGz)
       (logCall (Access Fixtures.manufGz) Fixtures.diskWithArchive),
     ok tt) /\
  files (logCall (ReadFile Fixtures.manufGz)
           (logCall (Access Fixtures.manufGz) Fixtures.diskWithArchive))
  = files Fixtures.diskWithArchive.
Proof.
  assert (EntryPoint.manufFileUpdated_handler (Fixtures.envWithText "vendor list")
            (Integration.mkState (Some (Fixtures.readyParser Fixtures.ieeeText))
               (Some Samples.strictDownloader))
            Fixtures.diskWithArchive
          = (Integration.mkState (Some (Fixtures.readyParser Fixtures.ieeeText))
               (Some Samples.strictDownloader),
             logCall (ReadFile Fixtures.manufGz)
               (logCall (Access Fixtures.manufGz) Fixtures.diskWithArchive),
             ok tt)) as Hrun by (vm_compute; reflexivity).
  split; [exact Hrun|].
  exact (proj1 (proj2 (proj2 (X22_rebuild_handler_is_safe _ _ _ _ _ _ Hrun)))).
Defined.

(** X23. [doLookup] can end without calling back.  When downloader and
    parser are both set but the parser never got initialised (its [init]
    failed on start-up, after the downloader's had succeeded), the module
    counts as initialised: the next [doLookup] goes straight to the
    lookups, the first of them runs [init] again, and if that throws, the
    error escapes [doLookup] as a rejection instead of reaching [cb]. *)
Theorem X23_doLookup_can_reject
    (E : env) (s : Integration.state) (w w1 : world) (p p1 : MacParser)
    (d : ScheduledFileDownloader) (manufFilePath value : string)
    (rest : list string) (autoUpdate : bool) (err : error) :
  Integration.parser s = Some p ->
  Integration.fileDownloader s = Some d ->
  Parser.init E p w = (p1, w1, throw err) ->
  EntryPoint.doLookup manufFilePath (value :: rest) autoUpdate E s w
  = (Integration.mkState (Some p) (Some d), w1, throw err).
Proof.
  intros Hp Hd Hinit.
  assert (p1 = p) as ->.
  { destruct (_ready p) eqn:Hr; [by rewrite init_ready in Hinit|].
    rewrite init_unready in Hinit by done.
    destruct (reinitialize_cases E p w)
      as [(w2 & e & He & _)|(gz & text & byBits & w2 & _ & _ & _ & He & _)];
      rewrite He in Hinit; [|done]. by injection Hinit as <- _ _. }
  unfold EntryPoint.doLookup. unfold bind at 1. unfold tryCatch at 1.
  unfold bind at 1. unfold Integration.maybeInitializeParserAndDownloader.
  rewrite bind_this, Hd, Hp. run_method. rewrite Hp.
  unfold Integration.onParser. cbn [EntryPoint.lookupEach].
  unfold Parser.lookup. run_method. rewrite Hinit. by rewrite Hd.
Qed.

Lemma X23_witness :
  fst (fst (EntryPoint.doLookup Fixtures.manufGz ["00:00:00:12:34:56"%string] true
              Samples.envCorruptArchive (Integration.mkState None None)
              Fixtures.emptyDisk))
  = Integration.mkState (Some (newMacParser Fixtures.manufGz))
      (Some (setJob (Some Integration.FILE_UPDATE_CRON)
               (mkDownloader Integration.MANUF_GZ_URL Fixtures.manufGz
                  Integration.FILE_UPDATE_CRON true None
                  [(updated, manufFileUpdated); (errorEvent, manufFileUpdateError)]))) /\
  snd (EntryPoint.doLookup Fixtures.manufGz ["00:00:00:12:34:56"%string] true
         Samples.envCorruptArchive (Integration.mkState None None) Fixtures.emptyDisk)
  = ok (cbError ZlibError) /\
  snd (EntryPoint.doLookup Fixtures.manufGz ["00:00:00:12:34:56"%string] true
         Samples.envCorruptArchive
         (fst (fst (EntryPoint.doLookup Fixtures.manufGz ["00:00:00:12:34:56"%string]
                      true Samples.envCorruptArchive (Integration.mkState None None)
                      Fixtures.emptyDisk)))
         (snd (fst (EntryPoint.doLookup Fixtures.manufGz ["00:00:00:12:34:56"%string]
                      true Samples.envCorruptArchive (Integration.mkState None None)
                      Fixtures.emptyDisk))))
  = throw ZlibError.
Proof.
  set (first := EntryPoint.doLookup Fixtures.manufGz ["00:00:00:12:34:56"%string] true
                  Samples.envCorruptArchive (Integration.mkState None None)
                  Fixtures.emptyDisk).
  assert (fst (fst first)
          = Integration.mkState (Some (newMacParser Fixtures.manufGz))
              (Some (setJob (Some Integration.FILE_UPDATE_CRON)
                       (mkDownloader Integration.MANUF_GZ_URL Fixtures.manufGz
                          Integration.FILE_UPDATE_CRON true None
                          [(updated, manufFileUpdated);
                           (errorEvent, manufFileUpdateError)])))) as Hstate
    by (vm_compute; reflexivity).
  split; [exact Hstate|]. split; [vm_compute; reflexivity|].
  rewrite Hstate.
  set (w1 := snd (fst first)).
  assert (Parser.init Samples.envCorruptArchive (newMacParser Fixtures.manufGz) w1
          = (newMacParser Fixtures.manufGz,
             logCall (ReadFile Fixtures.manufGz) (logCall (Access Fixtures.manufGz) w1),
             throw ZlibError)) as Hinit by (vm_compute; reflexivity).
  rewrite (X23_doLookup_can_reject Samples.envCorruptArchive
             (Integration.mkState (Some (newMacParser Fixtures.manufGz))
                (Some (setJob (Some Integration.FILE_UPDATE_CRON)
                         (mkDownloader Integration.MANUF_GZ_URL Fixtures.manufGz
                            Integration.FILE_UPDATE_CRON true None
                            [(updated, manufFileUpdated);
                             (errorEvent, manufFileUpdateError)]))))
             w1 _ (newMacParser Fixtures.manufGz) (newMacParser Fixtures.manufGz) _
             Fixtures.manufGz "00:00:00:12:34:56" [] true ZlibError
             eq_refl eq_refl Hinit).
  reflexivity.
Defined.
(** * Bit counts beyond the longest BigInt *)

Lemma shl_too_long x n : 0 < x -> maxBigIntBits <= n -> shl x n = None.
Proof.
  intros Hx Hn. unfold shl.
  assert ((x =? 0) = false) as -> by (apply Z.eqb_neq; lia).
  assert (0 < maxBigIntBits) by done.
  assert ((0 <? n) = true) as -> by (apply Z.ltb_lt; lia).
  assert (0 < bitLength x) as Hbits.
  { pose proof (bitLength_spec x Hx) as Hb.
    destruct (Z_lt_le_dec 0 (bitLength x)); [done|].
    assert (2 ^ bitLength x <= 1); [|lia].
    destruct (Z_lt_le_dec (bitLength x) 0); [rewrite Z.pow_neg_r by done; lia|].
    replace (bitLength x) with 0 by lia. done. }
  assert ((maxBigIntBits <? bitLength x + n) = true) as ->; [|done].
  apply Z.ltb_lt. lia.
Qed.

(** A count at or beyond the longest BigInt, once it is a double. *)
Lemma long_count x :
  maxBigIntBits <= x ->
  roundDouble x = Infinity false \/ exists m, maxBigIntBits <= m /\ roundDouble x = Num m.
Proof.
  intros Hx. assert (0 < maxBigIntBits) by done.
  assert (maxBigIntBits < 2 ^ 53) as Hmax by done.
  destruct (Z_lt_le_dec (Z.abs x) (2 ^ 53)) as [Hs|Hl].
  - right. exists x. split; [done|]. by apply roundDouble_small.
  - destruct (roundDouble_large x Hl) as [Hr|(m & Hm & Hr)].
    + left. rewrite Hr. f_equal. apply Z.ltb_ge. lia.
    + right. exists m. split; [lia|]. rewrite Hr. f_equal.
      rewrite Z.sgn_pos by lia. lia.
Qed.

(** Below 2^1023 the nearest double is finite. *)
Lemma roundDouble_finite z : Z.abs z < 2 ^ 1023 -> exists y, roundDouble z = Num y.
Proof.
  intros Hz. unfold roundDouble. set (a := Z.abs z) in *.
  set (e := Z.log2 a - 52).
  destruct (Z.leb_spec e 0) as [He|He]; [by eexists|].
  assert (0 < a) as Ha.
  { destruct (Z.eq_dec a 0) as [Heq|]; [|lia]. subst e. rewrite Heq in He. simpl in He. lia. }
  pose proof (Z.log2_spec a Ha) as [Hlo Hhi].
  assert (Z.log2 a < 1023) as Hlog by (apply Z.log2_lt_pow2; lia).
  set (q := Z.shiftr a e).
  set (q' := if (_ || _) then q + 1 else q).
  assert (q < 2 ^ 53) as Hq.
  { subst q. rewrite Z.shiftr_div_pow2 by lia.
    apply Z.div_lt_upper_bound; [apply Z.pow_pos_nonneg; lia|].
    rewrite <- Z.pow_add_r by lia. replace (e + 53) with (Z.succ (Z.log2 a)) by lia.
    done. }
  assert (q' <= 2 ^ 53) as Hq' by (subst q'; destruct (_ || _); lia).
  assert (Z.shiftl q' e < 2 ^ 1024) as Hm.
  { rewrite Z.shiftl_mul_pow2 by lia.
    assert (0 < 2 ^ e) by (apply Z.pow_pos_nonneg; lia).
    apply Z.le_lt_trans with (2 ^ 53 * 2 ^ e); [nia|].
    rewrite <- Z.pow_add_r by lia. apply Z.pow_lt_mono_r; lia. }
  assert ((2 ^ 1024 <=? Z.shiftl q' e) = false) as -> by (apply Z.leb_gt; lia).
  by eexists.
Qed.

(** [48 - b] as a double, for [b] that far beyond 48. *)
Lemma long_count_opp b :
  maxBigIntBits + 48 <= b ->
  sub (Num 48) (Num b) = Infinity true \/
  exists m, maxBigIntBits <= m /\ sub (Num 48) (Num b) = Num (- m).
Proof.
  intros Hb. assert (0 < maxBigIntBits) by done.
  assert (maxBigIntBits < 2 ^ 53) as Hmax by done.
  cbn [sub].
  destruct (Z_lt_le_dec (Z.abs (48 - b)) (2 ^ 53)) as [Hs|Hl].
  - right. exists (b - 48). split; [lia|]. rewrite roundDouble_small by done.
    f_equal. lia.
  - destruct (roundDouble_large (48 - b) Hl) as [Hr|(m & Hm & Hr)].
    + left. rewrite Hr. f_equal. apply Z.ltb_lt. lia.
    + right. exists m. split; [lia|]. rewrite Hr. f_equal.
      rewrite Z.sgn_neg by lia. lia.
Qed.

Lemma keyOf_too_long addr b :
  0 < addr -> maxBigIntBits + 48 <= b -> keyOf addr (Num b) = throw RangeError.
Proof.
  intros Ha Hb. unfold keyOf.
  destruct (long_count_opp b Hb) as [->|(m & Hm & ->)]; [done|].
  cbn [bigIntOfNumber orRangeError rbind ok]. unfold shr.
  rewrite Z.opp_involutive. by rewrite shl_too_long.
Qed.

(** X24. A prefix length far beyond 48 breaks [lookup].  When the first
    length of [_sortedLens] is an integer of [maxBigIntBits + 48] or more,
    the key of line 51 is a left shift of the address that no BigInt can
    hold: on an initialised parser [lookup] of every valid address other
    than zero raises a RangeError, before any shorter length is tried, and
    leaves parser and world as they were. *)
Theorem X24_overlong_length_breaks_lookup
    (E : env) (p : MacParser) (w : world) (mac : string) (addr b : Z)
    (rest : list number) :
  _ready p = true ->
  _sortedLens p = Num b :: rest ->
  maxBigIntBits + 48 <= b ->
  validCompact (compactOf mac) = true ->
  bigIntOfHex (compactOf mac) = Some addr ->
  addr <> 0 ->
  keyOf addr (Num b) = throw RangeError /\
  Parser.lookup mac E p w = (p, w, throw RangeError).
Proof.
  intros Hready Hlens Hb Hvalid Haddr Hne.
  pose proof (bigIntOfHex_bounds _ _ Haddr) as Hrange.
  assert (keyOf addr (Num b) = throw RangeError) as Hkey
    by (apply keyOf_too_long; lia).
  split; [done|].
  rewrite lookup_ready by done. unfold lookupIn.
  rewrite Hvalid, Haddr, Hlens. cbn [negb scanLens]. by rewrite Hkey.
Qed.

Lemma X24_witness :
  parseText Samples.overlongLine = ok (_entries (Fixtures.readyParser Samples.overlongLine)) /\
  _sortedLens (Fixtures.readyParser Samples.overlongLine) = [Num 4000000000] /\
  maxBigIntBits + 48 <= 4000000000 /\
  Parser.lookup "00:00:00:00:00:01" (Fixtures.envWithText Samples.overlongLine)
    (Fixtures.readyParser Samples.overlongLine) Fixtures.diskWithArchive
  = (Fixtures.readyParser Samples.overlongLine, Fixtures.diskWithArchive,
     throw RangeError).
Proof.
  assert (maxBigIntBits + 48 <= 4000000000) as Hb by (vm_compute; discriminate).
  split; [vm_compute; reflexivity|]. split; [vm_compute; reflexivity|].
  split; [exact Hb|].
  apply (X24_overlong_length_breaks_lookup (Fixtures.envWithText Samples.overlongLine)
           (Fixtures.readyParser Samples.overlongLine) Fixtures.diskWithArchive
           "00:00:00:00:00:01" 1 4000000000 [] eq_refl);
    [vm_compute; reflexivity | exact Hb | reflexivity | reflexivity | discriminate].
Defined.

(** X25. A [/bitCount] suffix far beyond the hex digits is fatal or
    silent according to the digits.  For a line of two fields or more
    whose bit count is an integer that exceeds four times the length of the
    hex part by [maxBigIntBits] or more: when the hex value is not zero the
    left shift of line 106 raises a RangeError and the build stops
    there; when it is zero the line is stored, under that bit count, with
    the key 0. *)
Theorem X25_overlong_suffix
    (before after : list string) (rawLine : string) (acc mid : index) (raw b : Z) :
  parseLines before acc = ok mid ->
  isEmpty (trim rawLine) || startsWithChar "#" (trim rawLine) = false ->
  (2 <= length (lineParts (trim rawLine)))%nat ->
  let token := trim (nthPart 0 (lineParts (trim rawLine))) in
  rawIntOf (compactHexOf token) = ok raw ->
  prefixBitsOf token = Num b ->
  maxBigIntBits + 4 * Z.of_nat (String.length (compactHexOf token)) <= b ->
  b < 2 ^ 1023 ->
  (raw <> 0 ->
   parseLine rawLine = Raise RangeError /\
   parseLines (before ++ rawLine :: after) acc = throw RangeError) /\
  (raw = 0 -> exists e, parseLine rawLine = Put (Num b) 0 e /\ prefix e = token).
Proof.
  intros Hbefore Hline Hparts token Hraw Hbits Hb Hfinite.
  pose proof (rawIntOf_bounds _ _ Hraw) as Hrange.
  set (h := Z.of_nat (String.length (compactHexOf token))) in *.
  assert (0 < maxBigIntBits) as Hmax by done.
  assert (parseLine rawLine
          = match prefixIntOf raw (Num (h * 4)) (Num b) with
            | inl e => Raise e
            | inr prefixInt =>
                Put (Num b) prefixInt
                  (Entry token (trim (nthPart 1 (lineParts (trim rawLine))))
                     (trim (join (if existsb (String.eqb (String TAB EmptyString))
                                       (lineParts (trim rawLine))
                                  then String TAB EmptyString else " "%string)
                              (drop 2 (lineParts (trim rawLine))))))
            end) as Hparse.
  { unfold parseLine. rewrite Hline.
    assert ((length (lineParts (trim rawLine)) <? 2)%nat = false) as ->
      by (apply Nat.ltb_ge; lia).
    fold token. unfold ok in Hraw. rewrite Hraw, Hbits. done. }
  assert (gt (Num (h * 4)) (Num b) = false) as Hgt by (apply Z.ltb_ge; lia).
  assert (lt (Num (h * 4)) (Num b) = true) as Hlt by (apply Z.ltb_lt; lia).
  split.
  - intros Hne.
    assert (prefixIntOf raw (Num (h * 4)) (Num b) = throw RangeError) as Hshift.
    { unfold prefixIntOf. rewrite Hgt, Hlt. cbn [sub].
      destruct (long_count (b - h * 4) ltac:(lia)) as [->|(m & Hm & ->)]; [done|].
      cbn [bigIntOfNumber orRangeError rbind ok]. rewrite shl_too_long; [done|lia..]. }
    rewrite Hshift in Hparse. split; [done|].
    rewrite parseLines_app, Hbefore. simpl. by rewrite Hparse.
  - intros ->.
    assert (prefixIntOf 0 (Num (h * 4)) (Num b) = ok 0) as Hshift.
    { unfold prefixIntOf. rewrite Hgt, Hlt. cbn [sub].
      destruct (roundDouble_finite (b - h * 4)) as (m & ->); [lia|]. done. }
    rewrite Hshift in Hparse. eexists. split; [exact Hparse|done].
Qed.

Lemma X25_witness :
  parseLines (["00:00:00 Xerox"%string] ++ "00:00:0C/4000000000 Cisco"%string
                :: ["AC-DE-48 Private"%string]) []
  = throw RangeError /\
  parseLine Samples.overlongLine
  = Put (Num 4000000000) 0 (Entry "00:00:00/4000000000" "Big" EmptyString).
Proof.
  assert (parseLines ["00:00:00 Xerox"%string] [] = ok (Fixtures.indexOf "00:00:00 Xerox"))
    as Hbefore by (vm_compute; reflexivity).
  assert (maxBigIntBits + 4 * 6 <= 4000000000) as Hb by (vm_compute; discriminate).
  assert (4000000000 < 2 ^ 1023) as Hsmall by (vm_compute; reflexivity).
  split.
  - refine (proj2 (proj1 (X25_overlong_suffix ["00:00:00 Xerox"%string]
                            ["AC-DE-48 Private"%string] "00:00:0C/4000000000 Cisco"
                            [] _ 12 4000000000 Hbefore eq_refl (le_n 2) eq_refl eq_refl
                            Hb Hsmall) _)). discriminate.
  - destruct (proj2 (X25_overlong_suffix [] [] Samples.overlongLine [] []
                       0 4000000000 eq_refl eq_refl (le_n 2) eq_refl eq_refl Hb Hsmall)
                eq_refl) as (e & Hput & Hprefix).
    rewrite Hput. vm_compute in Hput. by injection Hput as <-.
Defined.
(** * A bit count written in decimal *)

Lemma digitsFrom_uint u acc :
  digitsFrom acc (NilEmpty.string_of_uint u)
  = acc * 10 ^ Z.of_N (DecimalPos.Unsigned.usize u)
    + Z.of_N (DecimalPos.Unsigned.of_lu (Decimal.rev u)).
Proof.
  revert acc. induction u as [|u IH|u IH|u IH|u IH|u IH|u IH|u IH|u IH|u IH|u IH];
    intros acc;
    [simpl; lia|..];
    unfold Decimal.rev; cbn [Decimal.revapp];
    rewrite DecimalPos.Unsigned.of_lu_revapp;
    cbn [NilEmpty.string_of_uint digitsFrom];
    (match goal with
     | |- context [isDigit ?c] => change (isDigit c) with true; cbn iota
     end);
    rewrite IH;
    cbn [DecimalPos.Unsigned.usize DecimalPos.Unsigned.of_lu];
    rewrite N2Z.inj_add, N2Z.inj_mul, N2Z.inj_pow, N2Z.inj_succ;
    rewrite Z.pow_succ_r by lia;
    (match goal with
     | |- context [digitVal ?c] =>
         let v := eval vm_compute in (digitVal c) in change (digitVal c) with v
     end);
    cbn [Z.of_N N.mul N.add Pos.mul Pos.add]; lia.
Qed.

Lemma uint_head u :
  u <> Decimal.Nil ->
  exists c r, NilEmpty.string_of_uint u = String c r /\ isDigit c = true.
Proof. destruct u; [done|..]; intros _; eexists _, _; split; reflexivity. Qed.

Lemma parseInt_unsigned c r :
  isDigit c = true -> parseInt (String c r) = roundDouble (digitsFrom 0 (String c r)).
Proof.
  destruct c as [[] [] [] [] [] [] [] []]; intros H; vm_compute in H;
    try discriminate H; reflexivity.
Qed.

Lemma parseInt_negative c r :
  isDigit c = true ->
  parseInt (String "-" (String c r)) = roundDouble (- digitsFrom 0 (String c r)).
Proof.
  destruct c as [[] [] [] [] [] [] [] []]; intros H; vm_compute in H;
    try discriminate H; reflexivity.
Qed.

Lemma digitsFrom_positive p :
  digitsFrom 0 (NilEmpty.string_of_uint (Pos.to_uint p)) = Z.pos p.
Proof.
  rewrite digitsFrom_uint, <- DecimalPos.Unsigned.of_uint_alt, DecimalPos.Unsigned.of_to.
  simpl. lia.
Qed.

(** [parseInt] reads the decimal writing of an integer back. *)
Lemma parseInt_decimal n : parseInt (decimal n) = roundDouble n.
Proof.
  unfold decimal. destruct n as [|p|p]; [reflexivity|..];
    cbn [Z.to_int NilZero.string_of_int];
    pose proof (DecimalPos.Unsigned.to_uint_nonnil p) as Hnil;
    destruct (uint_head _ Hnil) as (c & r & Hs & Hc);
    pose proof (digitsFrom_positive p) as Hv;
    unfold NilZero.string_of_uint;
    destruct (Pos.to_uint p) eqn:Hu; try done;
    rewrite Hs in *.
  all: try (rewrite parseInt_unsigned by done; by rewrite Hv).
  all: try (rewrite parseInt_negative by done; by rewrite Hv).
Qed.

Lemma splitChar_none sep s : includesChar sep s = false -> splitChar sep s = [s].
Proof.
  unfold includesChar. induction s as [|c r IH]; [done|]. cbn [anyChar splitChar].
  intros [Hc Hr]%orb_false_iff. rewrite Ascii.eqb_sym, Hc, (IH Hr). done.
Qed.

Lemma splitChar_first sep s rest :
  includesChar sep s = false ->
  splitChar sep (String.append s (String sep rest)) = s :: splitChar sep rest.
Proof.
  unfold includesChar. induction s as [|c r IH].
  - intros _. change (String.append EmptyString (String sep rest)) with (String sep rest).
    cbn [splitChar]. by rewrite Ascii.eqb_refl.
  - cbn [anyChar]. intros [Hc Hr]%orb_false_iff.
    rewrite append_cons. cbn [splitChar]. rewrite Ascii.eqb_sym, Hc, (IH Hr). done.
Qed.

Lemma decimal_one_piece n : splitChar "/" (decimal n) = [decimal n].
Proof.
  apply splitChar_none. unfold includesChar.
  pose proof (decimal_no_slash n) as Hno.
  induction (decimal n) as [|c r IH]; [done|]. cbn [allChars anyChar] in *.
  apply andb_true_iff in Hno as [Hc Hr]. rewrite (IH Hr), orb_false_r.
  unfold isSlash in Hc. apply negb_true_iff in Hc. by rewrite Ascii.eqb_sym.
Qed.

Lemma decimal_not_empty n : decimal n <> EmptyString.
Proof.
  unfold decimal. destruct n as [|p|p]; [done|..]; cbn [Z.to_int NilZero.string_of_int];
    [|done].
  pose proof (DecimalPos.Unsigned.to_uint_nonnil p) as Hnil.
  destruct (uint_head _ Hnil) as (c & r & Hs & _).
  unfold NilZero.string_of_uint. destruct (Pos.to_uint p); try done; by rewrite Hs.
Qed.

(** X26. A bit count written in decimal is read as written: for a
    prefix token made of a hex part without slash, a slash and the decimal
    writing of an integer [n] between [-2^53] and [2^53], the bit count the
    parser takes is [n], and the hex part is what stands before the
    slash. *)
Theorem X26_decimal_suffix_is_the_bit_count (hexPart : string) (n : Z) :
  includesChar "/" hexPart = false ->
  Z.abs n < 2 ^ 53 ->
  let token := String.append hexPart (String "/" (decimal n)) in
  parseInt (decimal n) = Num n /\
  hasCidr token = true /\
  prefixBitsOf token = Num n /\
  compactHexOf token = toUpperCase (stripSeparators hexPart).
Proof.
  intros Hno Hn token.
  assert (parseInt (decimal n) = Num n) as Hparse
    by (rewrite parseInt_decimal; by apply roundDouble_small).
  assert (splitChar "/" token = [hexPart; decimal n]) as Hsplit
    by (unfold token; by rewrite splitChar_first, decimal_one_piece).
  pose proof (decimal_not_empty n) as Hne.
  split; [done|].
  unfold hasCidr, prefixBitsOf, compactHexOf. rewrite Hsplit. cbn [nthPart nth].
  destruct (decimal n) as [|c r]; [done|]. done.
Qed.

Lemma X26_witness :
  decimal 36 = "36"%string /\
  prefixBitsOf "00:1B:C5:00:00:00/36" = Num 36 /\
  decimal (-8) = "-8"%string /\
  prefixBitsOf "AC-DE-48/-8" = Num (-8).
Proof.
  assert (36 < 2 ^ 53) as H36 by (vm_compute; reflexivity).
  assert (Z.abs (-8) < 2 ^ 53) as H8 by (vm_compute; reflexivity).
  split; [reflexivity|]. split.
  - exact (proj1 (proj2 (proj2 (X26_decimal_suffix_is_the_bit_count
                                   "00:1B:C5:00:00:00" 36 eq_refl H36)))).
  - split; [reflexivity|].
    exact (proj1 (proj2 (proj2 (X26_decimal_suffix_is_the_bit_count
                                  "AC-DE-48" (-8) eq_refl H8)))).
Defined.
